(** * GuruFocus ISIN matcher: a shallow embedding and its properties

    The development follows the two variants of the matcher script,
    [src/gurufocus_isin_matcher.js] (module [V1] below) and the variant
    with periodic persistence and browsing-context refresh (module [V2]),
    together with the CSV helper of [utils.js].

    JavaScript strings are sequences of UTF-16 code units; they are
    modelled as lists of [N].  The browser is an external collaborator:
    what a navigation yields is a parameter of the development. *)

From Stdlib Require Import String Ascii.
From Stdlib Require Import List NArith ZArith Bool Lia.
Import ListNotations.

Set Implicit Arguments.

(* ===================================================================== *)
(** * JavaScript strings and the built-ins the scripts call *)
(* ===================================================================== *)

Module JS.

Local Open Scope N_scope.

(** A UTF-16 code unit. *)
Definition char := N.
Definition jsstring := list char.

(** An ASCII literal as a JavaScript string. *)
Definition js (s : string) : jsstring :=
  map N_of_ascii (list_ascii_of_string s).

(** [a === b] on strings. *)
Fixpoint str_eqb (a b : jsstring) : bool :=
  match a, b with
  | [], [] => true
  | x :: a', y :: b' => (x =? y) && str_eqb a' b'
  | _, _ => false
  end.

(** Truthiness of a string: only the empty string is falsy. *)
Definition truthy (s : jsstring) : bool :=
  match s with [] => false | _ :: _ => true end.

(** Truthiness of a value that is [null] or a string. *)
Definition truthy_opt (o : option jsstring) : bool :=
  match o with None => false | Some s => truthy s end.

(** [`${v}`] for a value that is [null] or a string. *)
Definition template (o : option jsstring) : jsstring :=
  match o with None => js "null" | Some s => s end.

(** [Array.prototype.join]. *)
Fixpoint join (sep : jsstring) (l : list jsstring) : jsstring :=
  match l with
  | [] => []
  | [x] => x
  | x :: rest => x ++ sep ++ join sep rest
  end.

(** [String.prototype.includes] for a one-unit needle. *)
Definition includes (c : char) (s : jsstring) : bool :=
  existsb (N.eqb c) s.

(** [s.replace(/c/g, by)] for a one-unit pattern. *)
Definition replace_all (c : char) (by_ : jsstring) (s : jsstring) : jsstring :=
  flat_map (fun x => if x =? c then by_ else [x]) s.

(** [String.prototype.endsWith]. *)
Definition endsWith (s suffix : jsstring) : bool :=
  str_eqb (skipn (length s - length suffix)%nat s) suffix
  && (length suffix <=? length s)%nat.

(** The [\s] class, which is also what [trim] and [parseInt] strip:
    WhiteSpace and LineTerminator code units. *)
Definition is_space (c : char) : bool :=
  ((9 <=? c) && (c <=? 13))
  || (c =? 32) || (c =? 160) || (c =? 0x1680)
  || ((0x2000 <=? c) && (c <=? 0x200A))
  || (c =? 0x2028) || (c =? 0x2029) || (c =? 0x202F)
  || (c =? 0x205F) || (c =? 0x3000) || (c =? 0xFEFF).

Definition upper (c : char) : bool := (65 <=? c) && (c <=? 90).
Definition lower (c : char) : bool := (97 <=? c) && (c <=? 122).
Definition digit (c : char) : bool := (48 <=? c) && (c <=? 57).

(** [Canonicalize] of a pattern without the [u] flag: the unit is
    upper-cased, and a unit of 128 or more never maps below 128.  Units
    outside ASCII are left as they are here: every set the scripts'
    patterns use consists of ASCII units and of white space, which no
    other unit is upper-cased to. *)
Definition Canonicalize (c : char) : char :=
  if lower c then c - 32 else c.

(** ** [encodeURIComponent] *)

Definition is_high_surrogate (c : char) : bool :=
  (0xD800 <=? c) && (c <=? 0xDBFF).
Definition is_low_surrogate (c : char) : bool :=
  (0xDC00 <=? c) && (c <=? 0xDFFF).

(** uriAlpha, DecimalDigit and uriMark. *)
Definition uriUnreserved (c : char) : bool :=
  upper c || lower c || digit c
  || existsb (N.eqb c) (js "-_.!~*'()").

Definition code_point (hi lo : char) : N :=
  (hi - 0xD800) * 0x400 + (lo - 0xDC00) + 0x10000.

Definition utf8 (cp : N) : list N :=
  if cp <? 0x80 then [cp]
  else if cp <? 0x800 then [0xC0 + cp / 64; 0x80 + cp mod 64]
  else if cp <? 0x10000 then
    [0xE0 + cp / 4096; 0x80 + (cp / 64) mod 64; 0x80 + cp mod 64]
  else
    [0xF0 + cp / 262144; 0x80 + (cp / 4096) mod 64;
     0x80 + (cp / 64) mod 64; 0x80 + cp mod 64].

Definition hex_digit (d : N) : char :=
  if d <? 10 then 48 + d else 55 + d.

Definition percent (octets : list N) : jsstring :=
  flat_map (fun b => [37; hex_digit (b / 16); hex_digit (b mod 16)]) octets.

(** [None] stands for the [URIError] thrown on a lone surrogate. *)
Fixpoint encodeURIComponent (s : jsstring) : option jsstring :=
  match s with
  | [] => Some []
  | c :: t =>
    if uriUnreserved c then option_map (cons c) (encodeURIComponent t)
    else if is_low_surrogate c then None
    else if is_high_surrogate c then
      match t with
      | d :: t' =>
        if is_low_surrogate d
        then option_map (app (percent (utf8 (code_point c d))))
                        (encodeURIComponent t')
        else None
      | [] => None
      end
    else option_map (app (percent (utf8 c))) (encodeURIComponent t)
  end.

(** The message of the [URIError] (V8's wording). *)
Definition URIError_message : jsstring := js "URI malformed".

(** ** Numbers and [parseInt] *)

(** The Number values the command line can produce: [NaN], a double
    that is an integer, or an infinity ([true] for [+Infinity]).  [Num 0]
    stands for both zeros: the scripts test the value for truthiness,
    compare it and slice with it, and none of these tells [-0] from
    [0]. *)
Inductive number := NaN | Num (z : Z) | Infinity (positive : bool).

Definition truthy_num (n : number) : bool :=
  match n with
  | NaN => false
  | Num z => negb (z =? 0)%Z
  | Infinity _ => true
  end.

(** The double nearest to a natural number, ties to the even
    significand (53 bits); [None] when it rounds to an infinity, that
    is from [2^1024 - 2^970] on. *)
Definition nearest_double (n : N) : option N :=
  let bits := N.size n in
  if bits <=? 53 then Some n
  else
    let e := bits - 53 in
    let q := N.shiftr n e in
    let r := N.land n (N.ones e) in
    let half := N.shiftl 1 (e - 1) in
    let q' := if (half <? r) || ((r =? half) && N.odd q) then q + 1 else q in
    let v := N.shiftl q' e in
    if N.shiftl 1 1024 <=? v then None else Some v.

(** The Number value of a sign and a magnitude. *)
Definition to_number (negative : bool) (n : N) : number :=
  match nearest_double n with
  | Some d => Num (if negative then - Z.of_N d else Z.of_N d)
  | None => Infinity (negb negative)
  end.

Fixpoint trimStart (s : jsstring) : jsstring :=
  match s with
  | c :: t => if is_space c then trimStart t else s
  | [] => []
  end.

Definition radix_digit (radix : N) (c : char) : option N :=
  let v := if digit c then Some (c - 48)
           else if lower c then Some (c - 87)
           else if upper c then Some (c - 55)
           else None in
  match v with
  | Some d => if d <? radix then Some d else None
  | None => None
  end.

(** The longest prefix of digits of the radix, read as an integer. *)
Fixpoint digits_value (radix : N) (s : jsstring) (acc : option N) : option N :=
  match s with
  | c :: t =>
    match radix_digit radix c with
    | Some d =>
      digits_value radix t
        (Some (match acc with Some a => a * radix + d | None => d end))
    | None => acc
    end
  | [] => acc
  end.

(** [parseInt(string)] with no radix argument: the digits are read as
    an integer, and the result is the Number value for it. *)
Definition parseInt (input : jsstring) : number :=
  let s := trimStart input in
  let '(negative, s) :=
    match s with
    | c :: t => if c =? 45 then (true, t)
                else if c =? 43 then (false, t) else (false, s)
    | [] => (false, s)
    end in
  let '(radix, s) :=
    match s with
    | c0 :: c1 :: t =>
      if (c0 =? 48) && ((c1 =? 120) || (c1 =? 88)) then (16, t) else (10, s)
    | _ => (10, s)
    end in
  match digits_value radix s None with
  | Some v => to_number negative v
  | None => NaN
  end.

End JS.

(* ===================================================================== *)
(** * Regular expressions: a backtracking matcher

    The matcher is written in continuation-passing style, as the
    language standard defines pattern semantics: a pattern is run on the
    rest of the input with the capture recorded so far and a continuation
    standing for the rest of the pattern; failure of the continuation
    makes a greedy quantifier give back one unit and try again. *)
(* ===================================================================== *)

Module RegExp.

Import JS.

(** The fragment the scripts' patterns are written in. *)
Inductive regex :=
| Chr (set : char -> bool)            (* one unit of a set *)
| Seq (r1 r2 : regex)                 (* r1 r2 *)
| Star (set : char -> bool)           (* set*, greedy *)
| Rep (n : nat) (set : char -> bool)  (* set{n} *)
| Group (r : regex).                  (* ( r ), capturing group 1 *)

(** The rest of the input and the text of group 1. *)
Definition state := (jsstring * option jsstring)%type.
Definition continuation := jsstring -> option jsstring -> option state.

(** The units of [s] read before the rest [s'] was reached. *)
Definition consumed (s s' : jsstring) : jsstring :=
  firstn (length s - length s') s.

(** [set*]: as many units as possible, one fewer each time the rest of
    the pattern fails. *)
Fixpoint star (set : char -> bool) (k : jsstring -> option state)
         (s : jsstring) : option state :=
  match s with
  | c :: s' =>
    if set c
    then match star set k s' with Some x => Some x | None => k s end
    else k s
  | [] => k s
  end.

(** [set{n}] *)
Fixpoint rep (set : char -> bool) (k : jsstring -> option state)
         (n : nat) (s : jsstring) : option state :=
  match n with
  | O => k s
  | S n' =>
    match s with
    | c :: s' => if set c then rep set k n' s' else None
    | [] => None
    end
  end.

Fixpoint matchR (r : regex) (s : jsstring) (cap : option jsstring)
         (k : continuation) {struct r} : option state :=
  match r with
  | Chr set =>
    match s with
    | c :: s' => if set c then k s' cap else None
    | [] => None
    end
  | Seq r1 r2 => matchR r1 s cap (fun s' cap' => matchR r2 s' cap' k)
  | Star set => star set (fun s' => k s' cap) s
  | Rep n set => rep set (fun s' => k s' cap) n s
  | Group r1 => matchR r1 s cap (fun s' _ => k s' (Some (consumed s s')))
  end.

(** A match that starts at the head of [s]. *)
Definition match_at (r : regex) (s : jsstring) : option state :=
  matchR r s None (fun s' cap => Some (s', cap)).

(** [r.exec(s)] for a pattern without the [g] flag, which is what
    [s.match(r)] returns: the leftmost match, as the matched text
    (index 0 of the array) and group 1 (index 1). *)
Fixpoint exec (r : regex) (s : jsstring) : option (jsstring * option jsstring) :=
  match match_at r s with
  | Some (s', cap) => Some (consumed s s', cap)
  | None =>
    match s with
    | [] => None
    | _ :: t => exec r t
    end
  end.

(** [s.match(r)] for a pattern with the [g] flag: the texts of all
    matches, each search resuming where the last match ended (one unit
    further after an empty match).  [skip] counts the units of [s] that
    the last match still covers. *)
Fixpoint match_g_from (r : regex) (s : jsstring) (skip : nat) : list jsstring :=
  match skip with
  | S n =>
    match s with
    | [] => []
    | _ :: t => match_g_from r t n
    end
  | O =>
    match match_at r s with
    | Some (s', _) =>
      let m := consumed s s' in
      m :: match s with
           | [] => []
           | _ :: t => match_g_from r t (length m - 1)
           end
    | None =>
      match s with
      | [] => []
      | _ :: t => match_g_from r t 0
      end
    end
  end.

(** The array, or [null] when nothing matches. *)
Definition match_g (r : regex) (s : jsstring) : option (list jsstring) :=
  match match_g_from r s 0 with
  | [] => None
  | l => Some l
  end.

(** A set under the [i] flag: the unit is compared after
    [Canonicalize].  (The sets below hold canonical units only.) *)
Definition ignoreCase (set : char -> bool) : char -> bool :=
  fun c => set (Canonicalize c).

Definition lit (a : ascii) : char -> bool := N.eqb (N_of_ascii a).
Definition upper_or_digit (c : char) : bool := upper c || digit c.

(** [([A-Z]{2}[A-Z0-9]{10})], with the sets as the flags make them. *)
Definition code_group (flags : (char -> bool) -> char -> bool) : regex :=
  Group (Seq (Rep 2 (flags upper)) (Rep 10 (flags upper_or_digit))).

(** [/ISIN\s*[:]\s*([A-Z]{2}[A-Z0-9]{10})/i] *)
Definition labelled_isin : regex :=
  Seq (Chr (ignoreCase (lit "I")))
 (Seq (Chr (ignoreCase (lit "S")))
 (Seq (Chr (ignoreCase (lit "I")))
 (Seq (Chr (ignoreCase (lit "N")))
 (Seq (Star (ignoreCase is_space))
 (Seq (Chr (ignoreCase (lit ":")))
 (Seq (Star (ignoreCase is_space))
      (code_group ignoreCase))))))).

(** [/([A-Z]{2}[A-Z0-9]{10})/] (methods 2, with [g], and 3). *)
Definition bare_isin : regex := code_group (fun set => set).

End RegExp.

(* ===================================================================== *)
(** * Effects: state and exceptions *)
(* ===================================================================== *)

Module Eff.

Import JS.

(** A computation returns or throws an [Error] with a message. *)
Inductive outcome (A : Type) :=
| Ret (a : A)
| Throw (message : jsstring).
Arguments Throw {A} message.

(** A computation over a state [S]; the state survives a throw. *)
Definition M (S A : Type) := S -> outcome A * S.

Definition ret {S A} (a : A) : M S A := fun s => (Ret a, s).

Definition throw {S A} (message : jsstring) : M S A :=
  fun s => (Throw message, s).

Definition bind {S A B} (m : M S A) (f : A -> M S B) : M S B :=
  fun s =>
    match m s with
    | (Ret a, s') => f a s'
    | (Throw e, s') => (Throw e, s')
    end.

(** [try { m } catch (e) { h e.message }] *)
Definition try_catch {S A} (m : M S A) (h : jsstring -> M S A) : M S A :=
  fun s =>
    match m s with
    | (Ret a, s') => (Ret a, s')
    | (Throw e, s') => h e s'
    end.

(** [try { m } finally { f }]: [f] runs however [m] ends, and its
    throw replaces the outcome of [m]. *)
Definition finally {S A} (m : M S A) (f : M S unit) : M S A :=
  fun s =>
    match m s with
    | (o, s') =>
      match f s' with
      | (Ret _, s'') => (o, s'')
      | (Throw e, s'') => (Throw e, s'')
      end
    end.

Definition gets {S A} (f : S -> A) : M S A := fun s => (Ret (f s), s).
Definition modify {S} (f : S -> S) : M S unit := fun s => (Ret tt, f s).

(** A computation on the outer state [W], run where a local [L] is also
    in scope. *)
Definition lift {L W A} (m : M W A) : M (L * W) A :=
  fun s =>
    let (o, w') := m (snd s) in (o, (fst s, w')).

(** Assignment to the local. *)
Definition assign {L W} (f : L -> L) : M (L * W) unit :=
  modify (fun s => (f (fst s), snd s)).

Module Notations.

Declare Scope eff_scope.
Delimit Scope eff_scope with eff.

Notation "x <- m ;; k" := (bind m (fun x => k))
  (at level 61, m at next level, right associativity) : eff_scope.
Notation "m ;; k" := (bind m (fun _ => k))
  (at level 61, right associativity) : eff_scope.

End Notations.

End Eff.

(* ===================================================================== *)
(** * The matcher *)
(* ===================================================================== *)

Module Matcher.

Import JS RegExp Eff Eff.Notations.
Local Open Scope eff_scope.

(** ** Data *)

(** A row of the input file, as [readCSV] builds it. *)
Module Input.

Record company := { companyName : jsstring; isinCode : jsstring }.

End Input.
Definition company := Input.company.

(** A search result: [{ url, text }].  (The variant with the stocks-table
    lookup adds a [ticker] field that repeats [text]; nothing reads it.) *)
Record link := { url : jsstring; text : jsstring }.

(** The [status] strings the scripts assign. *)
Inductive status_t := not_found | matched | no_match | no_results | error.

Definition status_eqb (a b : status_t) : bool :=
  match a, b with
  | not_found, not_found | matched, matched | no_match, no_match
  | no_results, no_results | error, error => true
  | _, _ => false
  end.

(** The [result] object of [processCompany]; [None] is [null], and for
    [errorMessage] (the [error] property) an absent property. *)
Record MatchRecord := {
  companyName : jsstring;
  expectedISIN : jsstring;
  foundISIN : option jsstring;
  matchingURL : option jsstring;
  status : status_t;
  errorMessage : option jsstring
}.

Definition set_foundISIN (v : option jsstring) (r : MatchRecord) :=
  {| companyName := companyName r; expectedISIN := expectedISIN r;
     foundISIN := v; matchingURL := matchingURL r;
     status := status r; errorMessage := errorMessage r |}.
Definition set_matchingURL (v : option jsstring) (r : MatchRecord) :=
  {| companyName := companyName r; expectedISIN := expectedISIN r;
     foundISIN := foundISIN r; matchingURL := v;
     status := status r; errorMessage := errorMessage r |}.
Definition set_status (v : status_t) (r : MatchRecord) :=
  {| companyName := companyName r; expectedISIN := expectedISIN r;
     foundISIN := foundISIN r; matchingURL := matchingURL r;
     status := v; errorMessage := errorMessage r |}.
Definition set_error (v : jsstring) (r : MatchRecord) :=
  {| companyName := companyName r; expectedISIN := expectedISIN r;
     foundISIN := foundISIN r; matchingURL := matchingURL r;
     status := status r; errorMessage := Some v |}.

(** ** The outside world *)

(** What the page holds once loaded: [document.body.innerText] ([None]
    when the document has no body, so that reading it throws) and, for
    the elements selected by ['td, div, span, p'] in document order, the
    value of [element.innerText || element.textContent || ''] of each. *)
Record page := {
  body_innerText : option jsstring;
  element_texts : list jsstring
}.

(** Outcome of [page.goto] (and of the query that follows it): loaded,
    or a navigation error or timeout with its message. *)
Inductive nav (A : Type) :=
| Loaded (a : A)
| Failed (message : jsstring).
Arguments Failed {A} message.

(** The counts and records handed to [JSON.stringify] by [saveResults]. *)
Record output := {
  totalProcessed : nat;
  out_matched : nat;
  notMatched : nat;
  noResults : nat;
  errors : nat;
  out_results : list MatchRecord
}.

Inductive method := Method1 | Method2 | Method3.

(** The awaited calls that launch, set up and close the browser. *)
Inductive browser_call :=
| BrowserLaunch        (* puppeteer.launch *)
| ContextCreate        (* browser.createBrowserContext *)
| PageCreate           (* context.newPage *)
| PageViewport         (* page.setViewport *)
| PageUserAgent        (* page.setUserAgent *)
| PageClose            (* page.close *)
| ContextClose         (* context.close *)
| BrowserClose.        (* browser.close *)

(** What the script does to the outside, in order. *)
Inductive event :=
| GotoSearch (url : jsstring)            (* page.goto in searchCompany *)
| GotoStock (url : jsstring)             (* page.goto in extractISINFromPage *)
| Evaluate (m : method)                  (* page.evaluate, methods 1 to 3 *)
| RefreshContext                         (* refreshBrowserContext is entered *)
| Session (c : browser_call)             (* a call on the browser is made *)
| WriteFile (name content : jsstring).   (* fs.writeFileSync that succeeded *)

(** The collaborators: the site as the browser shows it, and the disk.
    [search_page u] is what loading the search URL [u] and running the
    script's link query on it gives; [stock_page u] is the page behind a
    result link; [writable f] tells whether [fs.writeFileSync] succeeds
    on [f]; [stringify] is [JSON.stringify(output, null, 2)], time stamp
    included; [session c t] tells whether the awaited call [c] on the
    browser, made after the events [t], rejects, and with which message.
    The site is taken not to change during a run: what a URL shows
    depends on the URL only. *)
Record environment := {
  search_page : jsstring -> nav (list link);
  stock_page : jsstring -> nav page;
  writable : jsstring -> bool;
  stringify : output -> jsstring;
  session : browser_call -> list event -> option jsstring
}.

(** Which of [this.browser], [this.context] and [this.page] are set
    (not [null]). *)
Record handles_t := {
  has_browser : bool;
  has_context : bool;
  has_page : bool
}.

(** The matcher object and what it has done: [this.results], the
    events so far, the files written, and the browser handles. *)
Record world := {
  results : list MatchRecord;
  trace : list event;
  files : list (jsstring * jsstring);
  handles : handles_t
}.

(** [new GuruFocusISINMatcher(...)] on a disk holding [fs]. *)
Definition initial (fs : list (jsstring * jsstring)) : world :=
  {| results := []; trace := []; files := fs;
     handles := {| has_browser := false; has_context := false;
                   has_page := false |} |}.

Definition log (e : event) : M world unit :=
  modify (fun w => {| results := results w; trace := trace w ++ [e];
                      files := files w; handles := handles w |}).

Definition push (r : MatchRecord) : M world unit :=
  modify (fun w => {| results := results w ++ [r]; trace := trace w;
                      files := files w; handles := handles w |}).

Definition set_handles (f : handles_t -> handles_t) : M world unit :=
  modify (fun w => {| results := results w; trace := trace w;
                      files := files w; handles := f (handles w) |}).

Definition set_browser (h : handles_t) : handles_t :=
  {| has_browser := true; has_context := has_context h;
     has_page := has_page h |}.
Definition set_context (h : handles_t) : handles_t :=
  {| has_browser := has_browser h; has_context := true;
     has_page := has_page h |}.
Definition set_page (h : handles_t) : handles_t :=
  {| has_browser := has_browser h; has_context := has_context h;
     has_page := true |}.

Fixpoint set_file (name content : jsstring) (fs : list (jsstring * jsstring))
  : list (jsstring * jsstring) :=
  match fs with
  | [] => [(name, content)]
  | (n, c) :: rest =>
    if str_eqb n name then (name, content) :: rest
    else (n, c) :: set_file name content rest
  end.

Fixpoint read_file (name : jsstring) (fs : list (jsstring * jsstring))
  : option jsstring :=
  match fs with
  | [] => None
  | (n, c) :: rest => if str_eqb n name then Some c else read_file name rest
  end.

Definition navigate {A} (n : nav A) : M world A :=
  match n with
  | Loaded a => ret a
  | Failed message => throw message
  end.

Definition lift_outcome {A} (o : outcome A) : M world A :=
  fun w => (o, w).

(** [fs.writeFileSync(name, content)]: the whole file is replaced. *)
Definition writeFileSync (env : environment) (name content : jsstring)
  : M world unit :=
  fun w =>
    if writable env name
    then (Ret tt, {| results := results w;
                     trace := trace w ++ [WriteFile name content];
                     files := set_file name content (files w);
                     handles := handles w |})
    else (Throw (js "EACCES: permission denied"), w).

(** An awaited call on the browser: it is made, and rejects where the
    environment says so.  (A call on a handle that is [null] throws a
    [TypeError] before anything is awaited; like the failure of a
    navigation, that is one of the rejections the environment can
    answer with.) *)
Definition attempt (env : environment) (c : browser_call) : M world unit :=
  t <- gets trace;;
  log (Session c);;
  match session env c t with
  | Some message => throw message
  | None => ret tt
  end.

(** Run [m] with a fresh local initialised to [l0]; the value is the
    local as [m] leaves it ([return result]). *)
Definition with_local {L W} (l0 : L) (m : M (L * W) unit) : M W L :=
  fun w =>
    match m (l0, w) with
    | (Ret _, (l, w')) => (Ret l, w')
    | (Throw e, (_, w')) => (Throw e, w')
    end.

(** ** [readCSV] *)

(** [s.split(sep)] for a one-unit separator. *)
Fixpoint split (sep : char) (s : jsstring) : list jsstring :=
  match s with
  | [] => [[]]
  | c :: t =>
    if (c =? sep)%N then [] :: split sep t
    else match split sep t with
         | h :: r => (c :: h) :: r
         | [] => [[c]]
         end
  end.

Definition trim (s : jsstring) : jsstring :=
  rev (trimStart (rev (trimStart s))).

(** [values[i]?.trim() || ''] *)
Definition field (values : list jsstring) (i : nat) : jsstring :=
  match nth_error values i with
  | Some v => trim v
  | None => []
  end.

(** [readCSV] on the file's text; [None] is a file that cannot be read.
    Reading [lines[0]] of an empty file throws, which the function
    catches like a failed read: both give no rows. *)
Definition readCSV (data : option jsstring) : list company :=
  match data with
  | None => []
  | Some data =>
    let lines := filter (fun line => negb (str_eqb (trim line) []))
                        (split 10%N data) in
    match lines with
    | [] => []
    | _ :: rows =>
      filter (fun item => truthy (Input.companyName item)
                          && truthy (Input.isinCode item))
        (map (fun line =>
                let values := split 44%N line in
                {| Input.companyName := field values 0;
                   Input.isinCode := field values 1 |}) rows)
    end
  end.

(** ** The script, common part *)

Section Script.

Variable env : environment.

Definition TypeError_message : jsstring :=
  js "Cannot read properties of null (reading 'innerText')".

(** Method 1: [text.match(/ISIN\s*[:]\s*([A-Z]{2}[A-Z0-9]{10})/i)],
    [isinMatch ? isinMatch[1] : null]. *)
Definition tier1 (text : jsstring) : option jsstring :=
  match exec labelled_isin text with
  | Some (_, group1) => group1
  | None => None
  end.

(** Method 2: [text.match(/([A-Z]{2}[A-Z0-9]{10})/g)],
    [isinMatch ? isinMatch[0] : null]. *)
Definition tier2 (text : jsstring) : option jsstring :=
  match match_g bare_isin text with
  | Some isinMatch => hd_error isinMatch
  | None => None
  end.

(** Method 3: the first selected element whose text matches
    [/([A-Z]{2}[A-Z0-9]{10})/] gives [isinMatch[1]]. *)
Fixpoint tier3 (elements : list jsstring) : option jsstring :=
  match elements with
  | [] => None
  | text :: rest =>
    match exec bare_isin text with
    | Some (_, group1) => group1
    | None => tier3 rest
    end
  end.

(** The functions handed to [page.evaluate]. *)
Definition method1 (p : page) : outcome (option jsstring) :=
  match body_innerText p with
  | Some text => Ret (tier1 text)
  | None => Throw TypeError_message
  end.

Definition method2 (p : page) : outcome (option jsstring) :=
  match body_innerText p with
  | Some text => Ret (tier2 text)
  | None => Throw TypeError_message
  end.

Definition method3 (p : page) : outcome (option jsstring) :=
  Ret (tier3 (element_texts p)).

Definition evaluate {A} (m : method) (f : page -> outcome A) (p : page)
  : M world A :=
  log (Evaluate m);; lift_outcome (f p).

Definition extractISINFromPage (url : jsstring) : M world (option jsstring) :=
  try_catch
    (log (GotoStock url);;
     p <- navigate (stock_page env url);;
     let isin := None in
     isin <- try_catch (evaluate Method1 method1 p) (fun _ => ret isin);;
     isin <- (if negb (truthy_opt isin)
              then try_catch (evaluate Method2 method2 p) (fun _ => ret isin)
              else ret isin);;
     isin <- (if negb (truthy_opt isin)
              then try_catch (evaluate Method3 method3 p) (fun _ => ret isin)
              else ret isin);;
     ret isin)
    (fun _ => ret None).

Definition searchUrl_prefix : jsstring :=
  js "https://www.gurufocus.com/search?s=".

(** The search URL is built before the [try]: a name that
    [encodeURIComponent] rejects makes [searchCompany] throw. *)
Definition searchCompany (companyName : jsstring) : M world (list link) :=
  match encodeURIComponent companyName with
  | None => throw URIError_message
  | Some query =>
    let searchUrl := searchUrl_prefix ++ query in
    try_catch
      (log (GotoSearch searchUrl);;
       navigate (search_page env searchUrl))
      (fun _ => ret [])
  end.

(** The [for (const link of stockLinks)] loop of [processCompany], on
    the local [result]; the value tells whether the loop left through
    [return result]. *)
Fixpoint checkLinks (c : company) (stockLinks : list link)
  : M (MatchRecord * world) bool :=
  match stockLinks with
  | [] => ret false
  | link :: rest =>
    foundISIN <- lift (extractISINFromPage (url link));;
    match foundISIN with
    | Some found =>
      if truthy found then
        assign (set_foundISIN (Some found));;
        if str_eqb found (Input.isinCode c) then
          assign (set_matchingURL (Some (url link)));;
          assign (set_status matched);;
          ret true
        else checkLinks c rest
      else checkLinks c rest
    | None => checkLinks c rest
    end
  end.

Definition processCompany (c : company) : M world MatchRecord :=
  let result :=
    {| companyName := Input.companyName c;
       expectedISIN := Input.isinCode c;
       foundISIN := None;
       matchingURL := None;
       status := not_found;
       errorMessage := None |} in
  with_local result
    (try_catch
       (stockLinks <- lift (searchCompany (Input.companyName c));;
        if (length stockLinks =? 0)%nat then
          assign (set_status no_results)
        else
          returned <- checkLinks c stockLinks;;
          if returned then ret tt
          else assign (set_status no_match))
       (fun message =>
          assign (set_status error);;
          assign (set_error message))).

(** [l.slice(0, n)] for an integer [n]. *)
Definition slice0 {A} (l : list A) (n : Z) : list A :=
  if (n <? 0)%Z then firstn (length l - Z.to_nat (- n)) l
  else firstn (Z.to_nat n) l.

(** [maxCompanies ? companies.slice(0, maxCompanies) : companies];
    [slice(0, Infinity)] is the whole array and [slice(0, -Infinity)]
    the empty one. *)
Definition companiesToProcess (companies : list company)
           (maxCompanies : option number) : list company :=
  match maxCompanies with
  | Some (Num n) => if truthy_num (Num n) then slice0 companies n else companies
  | Some (Infinity true) => companies
  | Some (Infinity false) => []
  | Some NaN | None => companies
  end.

(** The rows of the matches file. *)
Definition is_matched (r : MatchRecord) : bool := status_eqb (status r) matched.

Definition csv_row (r : MatchRecord) : jsstring :=
  companyName r ++ js "," ++ expectedISIN r ++ js "," ++ template (matchingURL r).

Definition csvResults (rs : list MatchRecord) : jsstring :=
  join [10%N] (map csv_row (filter is_matched rs)).

Definition csvHeader : jsstring :=
  js "Company Name,ISIN Code,GuruFocus URL" ++ [10%N].

Definition matches_csv : jsstring := js "gurufocus_matches.csv".
Definition results_json : jsstring := js "gurufocus_results.json".

Definition count (s : status_t) (rs : list MatchRecord) : nat :=
  length (filter (fun r => status_eqb (status r) s) rs).

Definition make_output (rs : list MatchRecord) : output :=
  {| totalProcessed := length rs;
     out_matched := count matched rs;
     notMatched := count no_match rs;
     noResults := count no_results rs;
     errors := count error rs;
     out_results := rs |}.

End Script.

(** Console output and the waits between requests change nothing of
    the state and are left out. *)

(** ** [src/gurufocus_isin_matcher.js] *)

Module V1.

(** The body of the [for] loop of [processCompanies]. *)
Definition iteration (env : environment) (c : company) : M world unit :=
  result <- processCompany env c;;
  push result.

(** The [for] loop of [processCompanies]. *)
Fixpoint loop (env : environment) (todo : list company) : M world unit :=
  match todo with
  | [] => ret tt
  | c :: rest => iteration env c;; loop env rest
  end.

Definition processCompanies (env : environment) (companies : list company)
           (maxCompanies : option number) : M world unit :=
  loop env (companiesToProcess companies maxCompanies).

Definition saveResults (env : environment) : M world unit :=
  try_catch
    (rs <- gets results;;
     writeFileSync env results_json (stringify env (make_output rs));;
     let csv := csvResults rs in
     if truthy csv
     then writeFileSync env matches_csv (csvHeader ++ csv)
     else ret tt)
    (fun _ => ret tt).

(** [initBrowser]: the context is a local constant here. *)
Definition initBrowser (env : environment) : M world unit :=
  attempt env BrowserLaunch;;
  set_handles set_browser;;
  attempt env ContextCreate;;
  attempt env PageCreate;;
  set_handles set_page;;
  attempt env PageViewport;;
  attempt env PageUserAgent.

(** [close]: [if (this.browser) await this.browser.close()] *)
Definition close (env : environment) : M world unit :=
  b <- gets (fun w => has_browser (handles w));;
  if b : bool then attempt env BrowserClose else ret tt.

End V1.

(** ** The variant with periodic persistence *)

Module V2.

Definition initBrowser (env : environment) : M world unit :=
  attempt env BrowserLaunch;;
  set_handles set_browser;;
  attempt env ContextCreate;;
  set_handles set_context;;
  attempt env PageCreate;;
  set_handles set_page;;
  attempt env PageViewport;;
  attempt env PageUserAgent.

(** [refreshBrowserContext]: the page and the context are closed if
    set, and a new context and page are made; none of the awaited calls
    is in a [try]. *)
Definition refreshBrowserContext (env : environment) : M world unit :=
  log RefreshContext;;
  p <- gets (fun w => has_page (handles w));;
  (if p : bool then attempt env PageClose else ret tt);;
  c <- gets (fun w => has_context (handles w));;
  (if c : bool then attempt env ContextClose else ret tt);;
  attempt env ContextCreate;;
  set_handles set_context;;
  attempt env PageCreate;;
  set_handles set_page;;
  attempt env PageViewport;;
  attempt env PageUserAgent.

(** [close]: the page, the context and the browser, each if set. *)
Definition close (env : environment) : M world unit :=
  p <- gets (fun w => has_page (handles w));;
  (if p : bool then attempt env PageClose else ret tt);;
  c <- gets (fun w => has_context (handles w));;
  (if c : bool then attempt env ContextClose else ret tt);;
  b <- gets (fun w => has_browser (handles w));;
  if b : bool then attempt env BrowserClose else ret tt.

Definition saveMatchesCSV (env : environment) : M world bool :=
  try_catch
    (rs <- gets results;;
     let csv := csvResults rs in
     if truthy csv
     then writeFileSync env matches_csv (csvHeader ++ csv);; ret true
     else ret false)
    (fun _ => ret false).

(** The body of the [for] loop of [processCompanies] at index [i]. *)
Definition iteration (env : environment) (i : nat) (c : company)
  : M world unit :=
  (if (0 <? i)%nat then refreshBrowserContext env else ret tt);;
  result <- processCompany env c;;
  push result;;
  if ((i + 1) mod 10 =? 0)%nat
  then _ <- saveMatchesCSV env;; ret tt
  else ret tt.

(** The [for] loop of [processCompanies], from index [i] on. *)
Fixpoint loop (env : environment) (i : nat) (todo : list company)
  : M world unit :=
  match todo with
  | [] => ret tt
  | c :: rest => iteration env i c;; loop env (S i) rest
  end.

Definition processCompanies (env : environment) (companies : list company)
           (maxCompanies : option number) : M world unit :=
  loop env 0 (companiesToProcess companies maxCompanies).

Definition saveResults (env : environment) : M world unit :=
  try_catch
    (rs <- gets results;;
     writeFileSync env results_json (stringify env (make_output rs));;
     _ <- saveMatchesCSV env;;
     ret tt)
    (fun _ => ret tt).

End V2.

(** ** [run], for either variant *)

Definition db_initial_csv : jsstring := js "db_initial.csv".

(** [if (maxCompanies && maxCompanies > companies.length)
        maxCompanies = companies.length] *)
Definition clamp (maxCompanies : option number) (len : nat) : option number :=
  match maxCompanies with
  | Some (Num n) =>
    if truthy_num (Num n) && (Z.of_nat len <? n)%Z
    then Some (Num (Z.of_nat len))
    else maxCompanies
  | Some (Infinity true) => Some (Num (Z.of_nat len))
  | _ => maxCompanies
  end.

(** [run]: the file is read, and with no record [run] returns from
    inside the [try]; else the browser is launched, the records are
    processed and the results saved; an error of any of these is caught
    and logged; [close] runs in the [finally], outside the [catch]. *)
Definition run (initBrowser : M world unit)
           (processCompanies : list company -> option number -> M world unit)
           (saveResults : M world unit) (close : M world unit)
           (maxCompanies : option number)
  : M world unit :=
  finally
    (try_catch
       (fs <- gets files;;
        let companies := readCSV (read_file db_initial_csv fs) in
        if (length companies =? 0)%nat then ret tt
        else
          initBrowser;;
          processCompanies companies (clamp maxCompanies (length companies));;
          saveResults)
       (fun _ => ret tt))
    close.

Definition V1_run (env : environment) :=
  run (V1.initBrowser env) (V1.processCompanies env) (V1.saveResults env)
      (V1.close env).
Definition V2_run (env : environment) :=
  run (V2.initBrowser env) (V2.processCompanies env) (V2.saveResults env)
      (V2.close env).

(** ** The command line, the same text in both variants *)

Local Open Scope string_scope.

Definition usage : list string :=
  [ "GuruFocus ISIN Matcher";
    "======================";
    "Usage: node gurufocus_isin_matcher.js <number_of_companies> [--visible]";
    "";
    "Examples:";
    "  node gurufocus_isin_matcher.js 5";
    "  node gurufocus_isin_matcher.js 10 --visible";
    "  node gurufocus_isin_matcher.js 0  # Process all companies";
    "";
    "Options:";
    "  --visible    Show browser window (default: headless)" ].

(** What the top level of the script does with [process.argv]: nothing
    (the file was imported), the usage text and [process.exit(code)], or
    [new GuruFocusISINMatcher({ headless }).run(maxCompanies)]. *)
Inductive cli_outcome :=
| NotInvoked
| Exit (stdout : list string) (code : Z)
| Run (headless : bool) (maxCompanies : option number).

(** Truthiness of a value that is [null] or a number. *)
Definition truthy_max (m : option number) : bool :=
  match m with None => false | Some n => truthy_num n end.

Definition cli (argv : list jsstring) : cli_outcome :=
  match nth_error argv 1 with
  | Some script =>
    if truthy script && endsWith script (js "gurufocus_isin_matcher.js") then
      let maxCompanies :=
        match nth_error argv 2 with
        | Some arg => if truthy arg then Some (parseInt arg) else None
        | None => None
        end in
      let headless := negb (existsb (str_eqb (js "--visible")) argv) in
      if negb (truthy_max maxCompanies) then Exit usage 1
      else Run headless
               (match maxCompanies with
                | Some (Num 0) => None
                | m => m
                end)
    else NotInvoked
  | None => NotInvoked
  end.

End Matcher.

(* ===================================================================== *)
(** * [utils.js]: the CSV writer *)
(* ===================================================================== *)

Module Utils.

Import JS.

(** A property value: a string, or a value of another type, given by
    the text [Array.prototype.join] makes of it ([String(value)], and
    the empty text for [null] and [undefined]). *)
Inductive value :=
| Str (s : jsstring)
| Other (joined : jsstring).

(** An object, as its properties in key order. *)
Definition object := list (jsstring * value).

Fixpoint get (o : object) (key : jsstring) : option value :=
  match o with
  | [] => None
  | (k, v) :: rest => if str_eqb k key then Some v else get rest key
  end.

(** The cell for [row[header]]: a string holding a comma or a quote is
    wrapped in quotes with its quotes doubled; any other value is left
    as it is, and [join] makes a text of it, the empty one for a
    property that is not there. *)
Definition cell (v : option value) : jsstring :=
  match v with
  | Some (Str s) =>
    if includes 44%N s || includes 34%N s
    then [34%N] ++ replace_all 34%N [34%N; 34%N] s ++ [34%N]
    else s
  | Some (Other joined) => joined
  | None => []
  end.

(** The text [saveToCSV] writes; [None] when there is no data. *)
Definition saveToCSV (data : list object) : option jsstring :=
  match data with
  | [] => None
  | first :: _ =>
    let headers := map fst first in
    Some (join [10%N]
            (join (js ",") headers
             :: map (fun row => join (js ",") (map (fun h => cell (get row h)) headers))
                    data))
  end.

End Utils.

(* ===================================================================== *)
(** * Vocabulary of the properties *)
(* ===================================================================== *)

Module Spec.

Import JS RegExp Eff Matcher.

(** Two units of the first set, then ten of the second: the shape
    [[A-Z]{2}[A-Z0-9]{10}] describes, for sets read through [flags]. *)
Definition code_shape (flags : (char -> bool) -> char -> bool)
           (code : jsstring) : bool :=
  (length code =? 12)%nat
  && forallb (flags upper) (firstn 2 code)
  && forallb (flags upper_or_digit) (skipn 2 code).

(** A well-formed identifier: two upper-case letters, then ten
    upper-case letters or digits. *)
Definition well_formed (code : jsstring) : bool :=
  code_shape (fun set => set) code.

(** The label, in any mix of cases. *)
Definition is_label (l : jsstring) : bool :=
  str_eqb (map Canonicalize l) (js "ISIN").

(** [s] starts with a labelled identifier: the label, white space, a
    colon, white space, and [code], whose shape is read as the [i] flag
    of method 1 reads it. *)
Definition labelled_at (s code : jsstring) : Prop :=
  exists lbl ws1 ws2 post,
    s = lbl ++ ws1 ++ [58%N] ++ ws2 ++ code ++ post
    /\ is_label lbl = true
    /\ forallb is_space ws1 = true
    /\ forallb is_space ws2 = true
    /\ code_shape ignoreCase code = true.

(** [text] holds a labelled identifier somewhere. *)
Definition contains_labelled (text code : jsstring) : Prop :=
  exists pre s, text = pre ++ s /\ labelled_at s code.

(** [text] holds a bare token of the identifier's shape somewhere. *)
Definition contains_bare (text token : jsstring) : Prop :=
  exists pre post, text = pre ++ token ++ post /\ well_formed token = true.

(** What a method hands back to [extractISINFromPage]: its value, or
    [null] kept when it threw. *)
Definition value_of (o : outcome (option jsstring)) : option jsstring :=
  match o with Ret v => v | Throw _ => None end.

(** The first result of a list that is not [null]. *)
Fixpoint first_success (vs : list (option jsstring)) : option jsstring :=
  match vs with
  | [] => None
  | Some v :: _ => Some v
  | None :: rest => first_success rest
  end.

(** The methods that are to run when methods 1 and 2 give [v1] and
    [v2]: a method runs only if every one before it gave nothing. *)
Definition methods_run (v1 v2 : option jsstring) : list method :=
  Method1 ::
  match v1 with
  | Some _ => []
  | None => Method2 :: match v2 with Some _ => [] | None => [Method3] end
  end.

(** The world after the events [es]. *)
Definition after (w : world) (es : list event) : world :=
  {| results := results w; trace := trace w ++ es; files := files w;
     handles := handles w |}.

(** The world after the events [es], with the handles [h]. *)
Definition evolve (w : world) (es : list event) (h : handles_t) : world :=
  {| results := results w; trace := trace w ++ es; files := files w;
     handles := h |}.

(** The browser does what it is asked: no awaited call on it rejects. *)
Definition session_holds (env : environment) : Prop :=
  forall c t, session env c t = None.

Definition is_call (e : event) : bool :=
  match e with Session _ => true | _ => false end.

(** The calls that close something. *)
Definition closing (c : browser_call) : bool :=
  match c with
  | PageClose | ContextClose | BrowserClose => true
  | _ => false
  end.

(** [m] only makes calls on the browser: it leaves the results and the
    files alone, returns when the browser does what it is asked, and
    throws only the rejection of a call among [allowed]. *)
Definition calls_only {A} (env : environment) (allowed : browser_call -> bool)
           (m : M world A) : Prop :=
  forall w, exists o es h,
    m w = (o, evolve w es h)
    /\ forallb is_call es = true
    /\ (session_holds env -> exists a, o = Ret a)
    /\ (forall message, o = Throw message ->
          exists c t, allowed c = true /\ session env c t = Some message).

(** What extraction on [url] returns and does, read off a run from the
    initial world. *)
Definition extracted (env : environment) (url : jsstring) : option jsstring :=
  value_of (fst (extractISINFromPage env url (initial []))).

Definition extract_events (env : environment) (url : jsstring) : list event :=
  trace (snd (extractISINFromPage env url (initial []))).

(** The stock pages visited, in order. *)
Definition stock_visits (es : list event) : list jsstring :=
  flat_map (fun e => match e with GotoStock u => [u] | _ => [] end) es.

(** The methods evaluated, in order. *)
Definition consulted (es : list event) : list method :=
  flat_map (fun e => match e with Evaluate m => [m] | _ => [] end) es.

(** The files written, in order. *)
Definition writes (es : list event) : list (jsstring * jsstring) :=
  flat_map (fun e => match e with WriteFile n c => [(n, c)] | _ => [] end) es.

(** The last extraction that gave an identifier over the candidates, if
    any did; [acc] when none did. *)
Definition scan_found (env : environment) (links : list link)
           (acc : option jsstring) : option jsstring :=
  fold_left (fun acc l => match extracted env (url l) with
                          | Some found => Some found
                          | None => acc
                          end) links acc.

Definition last_found (env : environment) (links : list link)
  : option jsstring :=
  scan_found env links None.

(** The events of extraction on each candidate in turn. *)
Definition visits (env : environment) (links : list link) : list event :=
  flat_map (fun l => extract_events env (url l)) links.

(** No extraction on these candidates gives the expected identifier. *)
Definition none_matches (env : environment) (expected : jsstring)
           (links : list link) : Prop :=
  Forall (fun l => extracted env (url l) <> Some expected) links.

(** The candidates [searchCompany] returns for a name (none when it
    throws). *)
Definition candidates (env : environment) (name : jsstring) : list link :=
  match fst (searchCompany env name (initial [])) with
  | Ret links => links
  | Throw _ => []
  end.

(** The [result] object as [processCompany] creates it. *)
Definition new_result (c : company) : MatchRecord :=
  {| companyName := Input.companyName c;
     expectedISIN := Input.isinCode c;
     foundISIN := None;
     matchingURL := None;
     status := not_found;
     errorMessage := None |}.

(** A matched result records the expected identifier as the one found. *)
Definition found_is_expected (r : MatchRecord) : Prop :=
  status r = matched -> foundISIN r = Some (expectedISIN r).

(** The content of the matches file, if the file exists. *)
Definition matches_file (w : world) : option jsstring :=
  read_file matches_csv (files w).

(** The text of the matches file for the results of [w], and the world
    once [fs.writeFileSync] has put it on disk. *)
Definition matches_text (w : world) : jsstring :=
  csvHeader ++ csvResults (results w).

Definition matches_written (w : world) : world :=
  {| results := results w;
     trace := trace w ++ [WriteFile matches_csv (matches_text w)];
     files := set_file matches_csv (matches_text w) (files w);
     handles := handles w |}.

(** A result is right for its input record: it names the record, its
    status is one of the four final ones, an identifier is recorded only
    if extraction gave it for one of the record's candidates, and a URL
    is recorded exactly when the status is [matched]. *)
Definition record_for (env : environment) (c : company) (r : MatchRecord)
  : Prop :=
  companyName r = Input.companyName c
  /\ expectedISIN r = Input.isinCode c
  /\ (status r = matched \/ status r = no_match
      \/ status r = no_results \/ status r = error)
  /\ (forall found, foundISIN r = Some found ->
        exists l, In l (candidates env (Input.companyName c))
                  /\ extracted env (url l) = Some found)
  /\ (matchingURL r <> None <-> status r = matched).

End Spec.

(* ===================================================================== *)
(** * A small site, for concrete runs *)
(* ===================================================================== *)

Module Examples.

Import JS RegExp Eff Matcher Spec.

Definition stock (ticker : string) : jsstring :=
  js "https://www.gurufocus.com/stock/" ++ js ticker ++ js "/summary".

Definition search (query : string) : jsstring := searchUrl_prefix ++ js query.

Definition a_link (ticker : string) : link :=
  {| url := stock ticker; text := js ticker |}.

Definition a_page (body : string) : page :=
  {| body_innerText := Some (js body); element_texts := [] |}.

Definition a_company (name isin : string) : company :=
  {| Input.companyName := js name; Input.isinCode := js isin |}.

(** The search pages: one result for Acme, none for Beta, a timeout for
    Gamma, four results for Delta, two for Epsilon. *)
Definition site_search (u : jsstring) : nav (list link) :=
  if str_eqb u (search "Acme%20Corp") then Loaded [a_link "ACME"]
  else if str_eqb u (search "Beta%20Inc") then Loaded []
  else if str_eqb u (search "Gamma")
       then Failed (js "Navigation timeout of 30000 ms exceeded")
  else if str_eqb u (search "Delta")
       then Loaded [a_link "D1"; a_link "D2"; a_link "D3"; a_link "D4"]
  else if str_eqb u (search "Epsilon") then Loaded [a_link "D1"; a_link "D2"]
  else Loaded [].

(** The stock pages: D1 shows a bare token before its labelled
    identifier, D2 does not load, D3 labels in lower case. *)
Definition site_stock (u : jsstring) : nav page :=
  if str_eqb u (stock "ACME")
  then Loaded (a_page "Acme Corp NYSE:ACME ISIN: US0000011111")
  else if str_eqb u (stock "D1")
       then Loaded (a_page "Ticker AB0123456789 ISIN: GB0000022222")
  else if str_eqb u (stock "D2") then Failed (js "net::ERR_CONNECTION_RESET")
  else if str_eqb u (stock "D3") then Loaded (a_page "isin:US0000033333")
  else Failed (js "net::ERR_NAME_NOT_RESOLVED").

(** A browser on which every call succeeds. *)
Definition steady (c : browser_call) (t : list event) : option jsstring := None.

Definition site : environment :=
  {| search_page := site_search;
     stock_page := site_stock;
     writable := fun _ => true;
     stringify := fun _ => js "{}";
     session := steady |}.

Definition acme := a_company "Acme Corp" "US0000011111".
Definition beta := a_company "Beta Inc" "GB0000022222".
Definition gamma := a_company "Gamma" "FR0000055555".
Definition delta := a_company "Delta" "US0000033333".
Definition epsilon := a_company "Epsilon" "US0000044444".

(** A name that is not well-formed UTF-16: a lone high surrogate. *)
Definition broken : company :=
  {| Input.companyName := [0xD83D%N]; Input.isinCode := js "US0000066666" |}.

(** A disk that holds the matches file of an earlier run. *)
Definition stale_text : jsstring :=
  csvHeader ++ js "Old Corp,US0000099999," ++ stock "OLD".

Definition stale_disk : list (jsstring * jsstring) :=
  [(matches_csv, stale_text)].

(** A matched result whose company name holds quote characters, as
    [readCSV] yields for the line [Acme "Best" Corp,US0000011111]. *)
Definition quoted_name : jsstring :=
  js "Acme " ++ [34%N] ++ js "Best" ++ [34%N] ++ js " Corp".

Definition quoted_result : MatchRecord :=
  {| companyName := quoted_name;
     expectedISIN := js "US0000011111";
     foundISIN := Some (js "US0000011111");
     matchingURL := Some (stock "ACME");
     status := matched;
     errorMessage := None |}.

Definition quoted_world : world :=
  {| results := [quoted_result]; trace := []; files := [];
     handles := handles (initial []) |}.

(** The same result as the object [saveToCSV] of [utils.js] would be
    given. *)
Definition quoted_object : Utils.object :=
  [(js "Company Name", Utils.Str quoted_name);
   (js "ISIN Code", Utils.Str (js "US0000011111"));
   (js "GuruFocus URL", Utils.Str (stock "ACME"))].

(** The input file of the end-to-end scenario: a header line, Acme and
    Beta. *)
Definition scenario_disk : list (jsstring * jsstring) :=
  [(db_initial_csv,
    js "Company Name,ISIN Code" ++ [10%N]
    ++ js "Acme Corp,US0000011111" ++ [10%N]
    ++ js "Beta Inc,GB0000022222" ++ [10%N])].

Definition argv (args : list string) : list jsstring :=
  js "/usr/bin/node" :: js "/repo/gurufocus_isin_matcher.js" :: map js args.

End Examples.

(* ===================================================================== *)
(** * [utils.js]: text helpers *)
(* ===================================================================== *)

Module Text.

Import JS Matcher.

(** The [\w] class. *)
Definition word (c : char) : bool :=
  upper c || lower c || digit c || (c =? 95)%N.

(** [s.replace(/\s+/g, ' ')]: every run of white space becomes one
    space; [in_run] tells that the unit before was white space. *)
Fixpoint collapse (in_run : bool) (s : jsstring) : jsstring :=
  match s with
  | [] => []
  | c :: t =>
    if is_space c
    then if in_run then collapse true t else 32%N :: collapse true t
    else c :: collapse false t
  end.

(** The units that [s.replace(/[^\w\s.-]/g, '')] keeps. *)
Definition kept (c : char) : bool :=
  word c || is_space c || (c =? 46)%N || (c =? 45)%N.

(** [cleanText] on a string (any other value is returned as it is). *)
Definition cleanText (text : jsstring) : jsstring :=
  filter kept (collapse false (trim text)).

(** [s.replace(/[:.]/g, '-')] *)
Definition dashes (s : jsstring) : jsstring :=
  map (fun c => if (c =? 58)%N || (c =? 46)%N then 45%N else c) s.

(** [getTimestamp], on the text [now.toISOString()] gives; [None]
    stands for the [TypeError] on a text without a [T]. *)
Definition getTimestamp (iso : jsstring) : option jsstring :=
  match split 84%N (dashes iso), nth_error (split 84%N iso) 1 with
  | date :: _, Some time =>
    match split 46%N time with
    | hms :: _ => Some (date ++ js "_" ++ replace_all 58%N [45%N] hms)
    | [] => None
    end
  | _, _ => None
  end.

(** The units [cleanText] can leave: word characters, the space, the
    full stop and the hyphen. *)
Definition plain (c : char) : bool :=
  word c || (c =? 32)%N || (c =? 46)%N || (c =? 45)%N.

End Text.

(* ===================================================================== *)
(** * Browser sessions: [index.js], the context helpers of [utils.js],
      and the matcher's constructor *)
(* ===================================================================== *)

Module Sessions.

Import JS Eff Eff.Notations.
Local Open Scope eff_scope.

(** The calls made on the browser; contexts are named by the order of
    their creation. *)
Inductive call :=
| Launch
| CreateContext (id : nat)
| NewPage
| SetUserAgent
| GotoHome
| CloseContext (id : nat)
| CloseBrowser.

(** The calls attempted so far and the number of contexts created. *)
Record session := { calls : list call; created : nat }.

Definition fresh : session := {| calls := []; created := 0 |}.

(** A call is made and, where [fails] says so, throws. *)
Definition attempt (fails : call -> option jsstring) (c : call)
  : M session unit :=
  fun s =>
    let s' := {| calls := calls s ++ [c]; created := created s |} in
    match fails c with
    | Some message => (Throw message, s')
    | None => (Ret tt, s')
    end.

(** [browser.createIncognitoBrowserContext()] *)
Definition createContext (fails : call -> option jsstring) : M session nat :=
  fun s =>
    let id := created s in
    match attempt fails (CreateContext id) s with
    | (Ret _, s') => (Ret id, {| calls := calls s'; created := S id |})
    | (Throw message, s') => (Throw message, s')
    end.

(** The loop of [createIncognitoContexts], with [contexts] as built so
    far and [n] turns to go. *)
Fixpoint create_loop (fails : call -> option jsstring) (n : nat)
         (contexts : list nat) : M session (list nat) :=
  match n with
  | O => ret contexts
  | S n' =>
    context <- createContext fails;;
    create_loop fails n' (contexts ++ [context])
  end.

(** [createIncognitoContexts(browser, count)] for a count that is a
    natural number. *)
Definition createIncognitoContexts (fails : call -> option jsstring)
           (count : nat) : M session (list nat) :=
  create_loop fails count [].

(** [closeContexts(contexts)] *)
Fixpoint closeContexts (fails : call -> option jsstring)
         (contexts : list nat) : M session unit :=
  match contexts with
  | [] => ret tt
  | context :: rest =>
    try_catch (attempt fails (CloseContext context)) (fun _ => ret tt);;
    closeContexts fails rest
  end.

(** ** [GuruFocusScraper] of [index.js] *)

(** The fields of the object: [browser] and [page] are [null] or set,
    [context] is [null] or a context. *)
Record scraper := {
  browser : bool;
  page : bool;
  context : option nat;
  useIncognito : bool
}.

(** [new GuruFocusScraper(options)], with [options.incognito || false]. *)
Definition new_scraper (incognito : option bool) : scraper :=
  {| browser := false; page := false; context := None;
     useIncognito := match incognito with Some b => b | None => false end |}.

Definition set_browser (sc : scraper) : scraper :=
  {| browser := true; page := page sc; context := context sc;
     useIncognito := useIncognito sc |}.
Definition set_page (sc : scraper) : scraper :=
  {| browser := browser sc; page := true; context := context sc;
     useIncognito := useIncognito sc |}.
Definition set_context (id : nat) (sc : scraper) : scraper :=
  {| browser := browser sc; page := page sc; context := Some id;
     useIncognito := useIncognito sc |}.

Definition init (fails : call -> option jsstring) : M (scraper * session) unit :=
  lift (attempt fails Launch);;
  assign set_browser;;
  incognito <- gets (fun s => useIncognito (fst s));;
  (if incognito : bool
   then id <- lift (createContext fails);;
        assign (set_context id);;
        lift (attempt fails NewPage);;
        assign set_page
   else lift (attempt fails NewPage);;
        assign set_page);;
  lift (attempt fails SetUserAgent).

(** The [catch] of [navigateToGurufocus] throws the error again. *)
Definition navigateToGurufocus (fails : call -> option jsstring)
  : M (scraper * session) unit :=
  try_catch (lift (attempt fails GotoHome)) (fun message => throw message).

Definition scrapeData : M (scraper * session) unit := ret tt.

Definition close (fails : call -> option jsstring) : M (scraper * session) unit :=
  ctx <- gets (fun s => context (fst s));;
  match ctx with
  | Some id => lift (attempt fails (CloseContext id))
  | None => ret tt
  end;;
  b <- gets (fun s => browser (fst s));;
  if b : bool then lift (attempt fails CloseBrowser) else ret tt.

(** [main]: [try { init; navigate; scrape } catch { log } finally
    { close }], on [new GuruFocusScraper({ incognito: true })]. *)
Definition main (fails : call -> option jsstring) : M (scraper * session) unit :=
  try_catch (init fails;; navigateToGurufocus fails;; scrapeData)
            (fun _ => ret tt);;
  close fails.

Definition run_main (fails : call -> option jsstring)
  : outcome unit * (scraper * session) :=
  main fails (new_scraper (Some true), fresh).

(** ** The matcher's constructor *)

(** [this.headless] for [options.headless] ([None] is [undefined]):
    [options.headless !== true] in [src/gurufocus_isin_matcher.js],
    [options.headless !== false] in the other variant.  It is the
    [headless] option [initBrowser] launches the browser with. *)
Definition V1_constructor_headless (option_headless : option bool) : bool :=
  negb match option_headless with Some true => true | _ => false end.

Definition V2_constructor_headless (option_headless : option bool) : bool :=
  negb match option_headless with Some false => true | _ => false end.

End Sessions.

(* ===================================================================== *)
(** * More vocabulary *)
(* ===================================================================== *)

Module Props.

Import JS RegExp Eff Matcher Spec.

(** A field of the input file that [readCSV] hands on unchanged: not
    empty, no white space at either end, no comma, no line feed. *)
Definition clean_field (f : jsstring) : bool :=
  truthy f && str_eqb (trim f) f
  && negb (includes 44%N f) && negb (includes 10%N f).

Definition clean_company (c : company) : bool :=
  clean_field (Input.companyName c) && clean_field (Input.isinCode c).

(** The line of a record, and the text of a file with a header line. *)
Definition csv_line (c : company) : jsstring :=
  Input.companyName c ++ [44%N] ++ Input.isinCode c.

Definition csv_text (header : jsstring) (cs : list company) : jsstring :=
  join [10%N] (header :: map csv_line cs).

(** Well-formed UTF-16: every surrogate is half of a pair. *)
Fixpoint utf16_ok (s : jsstring) : bool :=
  match s with
  | [] => true
  | c :: t =>
    if is_low_surrogate c then false
    else if is_high_surrogate c then
      match t with
      | d :: t' => is_low_surrogate d && utf16_ok t'
      | [] => false
      end
    else utf16_ok t
  end.

(** The units of a percent-encoded component: unreserved ones, the
    percent sign and upper-case hexadecimal digits. *)
Definition url_safe (c : char) : bool :=
  uriUnreserved c || (c =? 37)%N.

(** Navigations and evaluations, as opposed to context refreshes,
    calls on the browser and file writes. *)
Definition browsing (e : event) : bool :=
  match e with
  | GotoSearch _ | GotoStock _ | Evaluate _ => true
  | RefreshContext | Session _ | WriteFile _ _ => false
  end.

Definition refreshes (es : list event) : nat :=
  length (filter (fun e => match e with RefreshContext => true | _ => false end) es).

(** The events of the turn of index [i] of the loop with periodic
    persistence: the refresh and its calls on the browser (not at
    index 0), then the navigations and evaluations of the record, then
    at most one write, of the matches file, and only when [i + 1] is a
    multiple of ten. *)
Definition turn (i : nat) (es : list event) : Prop :=
  exists calls body post,
    es = (if (0 <? i)%nat then RefreshContext :: calls else []) ++ body ++ post
    /\ forallb is_call calls = true
    /\ forallb browsing body = true
    /\ (post = []
        \/ ((i + 1) mod 10 = 0%nat
            /\ exists content, post = [WriteFile matches_csv content])).

(** Consecutive turns, from index [i] on. *)
Fixpoint turns (i : nat) (segments : list (list event)) : Prop :=
  match segments with
  | [] => True
  | es :: rest => turn i es /\ turns (S i) rest
  end.

(** A refresh that failed: it was entered, made calls, and one of them
    was rejected. *)
Definition failed_refresh (es : list event) : Prop :=
  exists calls, es = RefreshContext :: calls /\ forallb is_call calls = true.

(** The text of the structured dump, and the world once it is on
    disk. *)
Definition json_text (env : environment) (w : world) : jsstring :=
  stringify env (make_output (results w)).

Definition json_written (env : environment) (w : world) : world :=
  {| results := results w;
     trace := trace w ++ [WriteFile results_json (json_text env w)];
     files := set_file results_json (json_text env w) (files w);
     handles := handles w |}.

(** How many records [run(maxCompanies)] is to process out of [len]:
    all of them for [null], [NaN], [0] and [Infinity]; the first [n], or
    all if there are fewer, for a positive [n]; all but the last [-n]
    for a negative [n]; none for [-Infinity]. *)
Definition expected_count (len : nat) (maxCompanies : option number) : nat :=
  match maxCompanies with
  | Some (Num n) =>
    if (n =? 0)%Z then len
    else if (0 <? n)%Z then Nat.min (Z.to_nat n) len
    else len - Z.to_nat (- n)
  | Some (Infinity false) => 0
  | _ => len
  end.

(** The records [run] reads from the disk of [w]. *)
Definition input_records (w : world) : list company :=
  readCSV (read_file db_initial_csv (files w)).

(** The records [run(maxCompanies)] is to process. *)
Definition requested (w : world) (maxCompanies : option number)
  : list company :=
  firstn (expected_count (length (input_records w)) maxCompanies)
         (input_records w).

(** From [w] to [w'] the results were saved: the structured dump holds
    the dump of the results of [w']; the matches file holds the header
    and the rows of the matched results, or is what it was in [w] if
    no result is matched. *)
Definition dump_saved (env : environment) (w w' : world) : Prop :=
  read_file results_json (files w') = Some (json_text env w')
  /\ (existsb is_matched (results w') = true ->
      matches_file w' = Some (matches_text w'))
  /\ (existsb is_matched (results w') = false ->
      matches_file w' = matches_file w).

(** What [run] relies on in [processCompanies]: it appends the results
    of the records it processed, a prefix of those it was given and all
    of them when it returns; it touches no file but the matches file,
    and not even that one while no result is matched; it throws only
    the rejection of a call on the browser. *)
Definition batch_like (env : environment)
           (processCompanies : list company -> option number -> M world unit)
  : Prop :=
  forall cs m w0,
  exists o rs w1,
    processCompanies cs m w0 = (o, w1)
    /\ results w1 = results w0 ++ rs
    /\ Forall2 (record_for env) (firstn (length rs) (companiesToProcess cs m)) rs
    /\ (o = Ret tt -> length rs = length (companiesToProcess cs m))
    /\ (existsb is_matched (results w1) = false -> files w1 = files w0)
    /\ read_file results_json (files w1) = read_file results_json (files w0)
    /\ (forall message, o = Throw message ->
          exists c t, session env c t = Some message)
    /\ (session_holds env -> o = Ret tt).

(** From [w] to [w'] the structured dump was not touched, and a call
    on the browser was rejected. *)
Definition dump_skipped (env : environment) (w w' : world) : Prop :=
  read_file results_json (files w') = read_file results_json (files w)
  /\ exists c t message, session env c t = Some message.









(** A string that does not start with white space. *)
Definition starts_clean (s : jsstring) : Prop :=
  match s with [] => True | c :: _ => is_space c = false end.

End Props.

(* ===================================================================== *)
(** * More sample data *)
(* ===================================================================== *)

Module Samples.

Import JS RegExp Eff Matcher Spec Examples.

(** An input file whose data row quotes a name with a comma, and the
    record [readCSV] makes of it. *)
Definition comma_file : jsstring :=
  js "Company Name,ISIN Code" ++ [10%N; 34%N] ++ js "Acme, Inc"
  ++ [34%N] ++ js ",US0000011111".

Definition cut_record : company :=
  {| Input.companyName := 34%N :: js "Acme";
     Input.isinCode := js "Inc" ++ [34%N] |}.

(** A site whose stock pages are documents without a body. *)
Definition frameset : page :=
  {| body_innerText := None;
     element_texts := [js "Acme Corp"; js "US0000011111"] |}.

Definition frameset_site : environment :=
  {| search_page := site_search;
     stock_page := fun _ => Loaded frameset;
     writable := fun _ => true;
     stringify := fun _ => js "{}";
     session := steady |}.

(** A disk that takes no file, and one that takes the structured dump
    only. *)
Definition read_only : environment :=
  {| search_page := site_search;
     stock_page := site_stock;
     writable := fun _ => false;
     stringify := fun _ => js "{}";
     session := steady |}.

Definition json_only : environment :=
  {| search_page := site_search;
     stock_page := site_stock;
     writable := fun f => str_eqb f results_json;
     stringify := fun _ => js "{}";
     session := steady |}.

(** A page whose text holds, before a labelled identifier and a bare
    token, the label followed by twelve letters in lower case. *)
Definition mixed_text : jsstring :=
  js "ISIN: undetermined. Ticker AB0123456789 ISIN: US0000011111".

Definition mixed_site : environment :=
  {| search_page := site_search;
     stock_page := fun _ =>
       Loaded {| body_innerText := Some mixed_text; element_texts := [] |};
     writable := fun _ => true;
     stringify := fun _ => js "{}";
     session := steady |}.

(** The small site seen through a browser that cannot be launched,
    through one that cannot create a context, and through one whose
    pages cannot be closed. *)
Definition broken_browser (rejected : browser_call -> bool)
           (message : string) : environment :=
  {| search_page := site_search;
     stock_page := site_stock;
     writable := fun _ => true;
     stringify := fun _ => js "{}";
     session := fun c _ => if rejected c then Some (js message) else None |}.

Definition no_browser : environment :=
  broken_browser (fun c => match c with BrowserLaunch => true | _ => false end)
                 "Failed to launch the browser process".

Definition no_context : environment :=
  broken_browser (fun c => match c with ContextCreate => true | _ => false end)
                 "Target closed".



(** Browsers: one on which every call succeeds, one that cannot create
    a third context, one on which the home page times out. *)
Definition sound (c : Sessions.call) : option jsstring := None.

Definition two_contexts (c : Sessions.call) : option jsstring :=
  match c with
  | Sessions.CreateContext 2 => Some (js "Target closed")
  | _ => None
  end.

Definition home_times_out (c : Sessions.call) : option jsstring :=
  match c with
  | Sessions.GotoHome => Some (js "Navigation timeout of 30000 ms exceeded")
  | _ => None
  end.

End Samples.

(* ===================================================================== *)
(** * Strings and patterns *)
(* ===================================================================== *)

Import JS RegExp Eff Eff.Notations Matcher Spec.

Section Strings.

Lemma str_eqb_eq (a b : jsstring) : str_eqb a b = true <-> a = b.
Proof.
  revert b; induction a as [|x a IH]; intros [|y b]; simpl;
    try (split; [discriminate | congruence]); try tauto.
  rewrite andb_true_iff, N.eqb_eq, IH.
  split; [intros [-> ->]; reflexivity | intros H; inversion H; auto].
Qed.

Lemma str_eqb_refl (a : jsstring) : str_eqb a a = true.
Proof. apply str_eqb_eq; reflexivity. Qed.

Lemma str_eqb_neq (a b : jsstring) : str_eqb a b = false <-> a <> b.
Proof.
  rewrite <- str_eqb_eq. destruct (str_eqb a b); split; congruence.
Qed.

Lemma consumed_app (xs s : jsstring) : consumed (xs ++ s) s = xs.
Proof.
  unfold consumed. rewrite length_app.
  replace (length xs + length s - length s)%nat with (length xs) by lia.
  rewrite firstn_app, firstn_all, Nat.sub_diag. simpl. apply app_nil_r.
Qed.

Lemma letters_not_space (c : char) :
  (65 <= c <= 122)%N -> is_space c = false.
Proof.
  intros H. unfold is_space.
  replace (c <=? 13)%N with false by (symmetry; apply N.leb_gt; lia).
  replace (0x2000 <=? c)%N with false by (symmetry; apply N.leb_gt; lia).
  repeat match goal with
  | |- context [(c =? ?k)%N] =>
    replace (c =? k)%N with false by (symmetry; apply N.eqb_neq; lia)
  end.
  rewrite andb_false_r. reflexivity.
Qed.

(** White space has no case. *)
Lemma is_space_Canonicalize (c : char) :
  is_space (Canonicalize c) = is_space c.
Proof.
  unfold Canonicalize, lower.
  destruct ((97 <=? c)%N && (c <=? 122)%N) eqn:E; [|reflexivity].
  apply andb_true_iff in E as [H1 H2].
  apply N.leb_le in H1, H2.
  rewrite !letters_not_space by lia. reflexivity.
Qed.

End Strings.

Section Patterns.

Variables (set : char -> bool) (k : jsstring -> option state).

Lemma rep_complete (n : nat) (xs s : jsstring) :
  length xs = n -> forallb set xs = true -> rep set k n (xs ++ s) = k s.
Proof.
  revert n; induction xs as [|x xs IH]; intros n <- H; simpl in *.
  - reflexivity.
  - apply andb_true_iff in H as [-> H]. now apply IH.
Qed.

Lemma rep_sound (n : nat) (s : jsstring) (r : state) :
  rep set k n s = Some r ->
  exists xs s', s = xs ++ s' /\ length xs = n
                /\ forallb set xs = true /\ k s' = Some r.
Proof.
  revert s; induction n as [|n IH]; intros s H; simpl in H.
  - exists [], s; auto.
  - destruct s as [|c s]; [discriminate|].
    destruct (set c) eqn:E; [|discriminate].
    destruct (IH _ H) as (xs & s' & -> & <- & Hall & Hk).
    exists (c :: xs), s'; simpl; rewrite E; auto.
Qed.

(** A greedy star stops where the set stops, if the rest of the pattern
    matches there. *)
Lemma star_complete (ws s : jsstring) (r : state) :
  forallb set ws = true ->
  (forall c s', s = c :: s' -> set c = false) ->
  k s = Some r ->
  star set k (ws ++ s) = Some r.
Proof.
  intros Hws Hstop Hk; induction ws as [|w ws IH]; simpl in *.
  - destruct s as [|c s']; [assumption|].
    simpl. now rewrite (Hstop c s' eq_refl).
  - apply andb_true_iff in Hws as [-> Hws]. now rewrite IH.
Qed.

Lemma star_sound (s : jsstring) (r : state) :
  star set k s = Some r ->
  exists ws s', s = ws ++ s' /\ forallb set ws = true /\ k s' = Some r.
Proof.
  induction s as [|c s IH]; simpl; intros H.
  - exists [], []; auto.
  - destruct (set c) eqn:E.
    + destruct (star set k s) as [x|] eqn:Es.
      * destruct (IH H) as (ws & s' & -> & Hall & Hk).
        exists (c :: ws), s'; simpl; rewrite E; auto.
      * exists [], (c :: s); auto.
    + exists [], (c :: s); auto.
Qed.

End Patterns.

Section CodeGroup.

Variable flags : (char -> bool) -> char -> bool.

Lemma code_shape_parts (code : jsstring) :
  code_shape flags code = true ->
  length (firstn 2 code) = 2%nat /\ length (skipn 2 code) = 10%nat
  /\ forallb (flags upper) (firstn 2 code) = true
  /\ forallb (flags upper_or_digit) (skipn 2 code) = true.
Proof.
  unfold code_shape. rewrite !andb_true_iff, Nat.eqb_eq.
  intros [[Hlen H2] H10].
  rewrite length_firstn, length_skipn. repeat split; auto; lia.
Qed.

Lemma code_shape_length (code : jsstring) :
  code_shape flags code = true -> length code = 12%nat.
Proof.
  unfold code_shape. rewrite !andb_true_iff, Nat.eqb_eq. tauto.
Qed.

Lemma code_shape_head (code : jsstring) :
  code_shape flags code = true ->
  exists c rest, code = c :: rest /\ flags upper c = true.
Proof.
  intros H. pose proof (code_shape_length _ H) as Hlen.
  destruct (code_shape_parts _ H) as (_ & _ & H2 & _).
  destruct code as [|c rest]; [discriminate|].
  exists c, rest. simpl in H2. apply andb_true_iff in H2. tauto.
Qed.

Lemma code_group_complete (code s : jsstring) (cap : option jsstring)
      (k : continuation) :
  code_shape flags code = true ->
  matchR (code_group flags) (code ++ s) cap k = k s (Some code).
Proof.
  intros H. destruct (code_shape_parts _ H) as (L2 & L10 & H2 & H10).
  unfold code_group. cbn [matchR].
  rewrite <- (firstn_skipn 2 code) at 1. rewrite <- app_assoc.
  rewrite (rep_complete _ _ _ _ L2 H2).
  rewrite (rep_complete _ _ _ _ L10 H10).
  now rewrite consumed_app.
Qed.

Lemma code_group_sound (s : jsstring) (cap : option jsstring)
      (k : continuation) (r : state) :
  matchR (code_group flags) s cap k = Some r ->
  exists code s', s = code ++ s' /\ code_shape flags code = true
                  /\ k s' (Some code) = Some r.
Proof.
  unfold code_group. cbn [matchR]. intros H.
  apply rep_sound in H as (xs & s1 & -> & L2 & H2 & H).
  apply rep_sound in H as (ys & s' & -> & L10 & H10 & H).
  exists (xs ++ ys), s'. rewrite app_assoc in H |- *.
  rewrite consumed_app in H. repeat split; auto.
  unfold code_shape.
  rewrite length_app, L2, L10. simpl Nat.eqb.
  rewrite firstn_app, skipn_app, L2, firstn_all2, skipn_all2 by lia.
  simpl. rewrite app_nil_r, H2, H10. reflexivity.
Qed.

End CodeGroup.

Section Labelled.

Lemma forallb_ignoreCase_space (ws : jsstring) :
  forallb (ignoreCase is_space) ws = forallb is_space ws.
Proof.
  induction ws as [|w ws IH]; simpl; [reflexivity|].
  unfold ignoreCase at 1. now rewrite is_space_Canonicalize, IH.
Qed.

Lemma upper_Canonicalize_not_space (c : char) :
  ignoreCase upper c = true -> ignoreCase is_space c = false.
Proof.
  unfold ignoreCase, upper. rewrite andb_true_iff, !N.leb_le. intros H.
  apply letters_not_space. lia.
Qed.

Lemma is_label_inv (lbl : jsstring) :
  is_label lbl = true ->
  exists a b c d,
    lbl = [a; b; c; d]
    /\ ignoreCase (lit "I") a = true /\ ignoreCase (lit "S") b = true
    /\ ignoreCase (lit "I") c = true /\ ignoreCase (lit "N") d = true.
Proof.
  unfold is_label. intros H. apply str_eqb_eq in H.
  destruct lbl as [|a [|b [|c [|d [|e lbl]]]]]; try discriminate.
  exists a, b, c, d. simpl in H. injection H as Ha Hb Hc Hd.
  unfold ignoreCase, lit. rewrite Ha, Hb, Hc, Hd. auto.
Qed.

Lemma is_label_intro (a b c d : char) :
  ignoreCase (lit "I") a = true -> ignoreCase (lit "S") b = true ->
  ignoreCase (lit "I") c = true -> ignoreCase (lit "N") d = true ->
  is_label [a; b; c; d] = true.
Proof.
  unfold ignoreCase, lit, is_label. rewrite !N.eqb_eq.
  intros Ha Hb Hc Hd. apply str_eqb_eq. simpl.
  rewrite <- Ha, <- Hb, <- Hc, <- Hd. reflexivity.
Qed.

(** At the head of the input, method 1's pattern matches exactly the
    labelled identifiers. *)
Lemma labelled_match (lbl ws1 ws2 code post : jsstring) :
  is_label lbl = true ->
  forallb is_space ws1 = true ->
  forallb is_space ws2 = true ->
  code_shape ignoreCase code = true ->
  match_at labelled_isin (lbl ++ ws1 ++ [58%N] ++ ws2 ++ code ++ post)
  = Some (post, Some code).
Proof.
  intros Hl H1 H2 Hc.
  destruct (is_label_inv _ Hl) as (a & b & c & d & -> & Ha & Hb & Hc' & Hd).
  unfold match_at, labelled_isin. cbn [matchR app].
  rewrite Ha, Hb, Hc', Hd.
  apply star_complete.
  - now rewrite forallb_ignoreCase_space.
  - intros x s' E. injection E as <- _. reflexivity.
  - cbn [matchR]. replace (ignoreCase (lit ":") 58%N) with true by reflexivity.
    apply star_complete.
    + now rewrite forallb_ignoreCase_space.
    + intros x s' E.
      destruct (code_shape_head _ _ Hc) as (y & rest & -> & Hy).
      injection E as <- _. now apply upper_Canonicalize_not_space.
    + now rewrite code_group_complete.
Qed.

Lemma labelled_sound (s s' : jsstring) (g : option jsstring) :
  match_at labelled_isin s = Some (s', g) ->
  exists lbl ws1 ws2 code,
    s = lbl ++ ws1 ++ [58%N] ++ ws2 ++ code ++ s'
    /\ g = Some code
    /\ is_label lbl = true
    /\ forallb is_space ws1 = true
    /\ forallb is_space ws2 = true
    /\ code_shape ignoreCase code = true.
Proof.
  unfold match_at, labelled_isin. cbn [matchR]. intros H.
  destruct s as [|a s]; [discriminate|].
  destruct (ignoreCase (lit "I") a) eqn:Ha; [|discriminate].
  destruct s as [|b s]; [discriminate|].
  destruct (ignoreCase (lit "S") b) eqn:Hb; [|discriminate].
  destruct s as [|c s]; [discriminate|].
  destruct (ignoreCase (lit "I") c) eqn:Hc; [|discriminate].
  destruct s as [|d s]; [discriminate|].
  destruct (ignoreCase (lit "N") d) eqn:Hd; [|discriminate].
  apply star_sound in H as (ws1 & s1 & -> & H1 & H).
  destruct s1 as [|x s1]; [discriminate|].
  destruct (ignoreCase (lit ":") x) eqn:Hx; [|discriminate].
  apply star_sound in H as (ws2 & s2 & -> & H2 & H).
  apply code_group_sound in H as (code & post & -> & Hcode & H).
  injection H as <- <-.
  unfold ignoreCase, lit in Hx. apply N.eqb_eq in Hx.
  assert (x = 58%N) as ->.
  { unfold Canonicalize in Hx. destruct (lower x) eqn:L; [|now subst].
    unfold lower in L. apply andb_true_iff in L as [L1 L2].
    apply N.leb_le in L1, L2. simpl in Hx. lia. }
  exists [a; b; c; d], ws1, ws2, code.
  rewrite forallb_ignoreCase_space in H1, H2.
  repeat split; auto using is_label_intro.
Qed.

End Labelled.

Section Exec.

Variable r : regex.

Lemma exec_here (s s' : jsstring) (g : option jsstring) :
  match_at r s = Some (s', g) -> exec r s = Some (consumed s s', g).
Proof. destruct s; simpl; intros ->; reflexivity. Qed.

(** A match reported by [exec] is a match at some position. *)
Lemma exec_sound (text m : jsstring) (g : option jsstring) :
  exec r text = Some (m, g) ->
  exists pre s s',
    text = pre ++ s /\ match_at r s = Some (s', g) /\ m = consumed s s'.
Proof.
  induction text as [|c text IH]; simpl.
  - destruct (match_at r []) as [[s' cap]|] eqn:E; [|discriminate].
    intros H; injection H as <- <-. exists [], [], s'; auto.
  - destruct (match_at r (c :: text)) as [[s' cap]|] eqn:E.
    + intros H; injection H as <- <-. exists [], (c :: text), s'; auto.
    + intros H. destruct (IH H) as (pre & s & s' & -> & Hm & ->).
      exists (c :: pre), s, s'; auto.
Qed.

(** If the pattern matches at some position, [exec] reports a match. *)
Lemma exec_complete (pre s : jsstring) (x : state) :
  match_at r s = Some x -> exists y, exec r (pre ++ s) = Some y.
Proof.
  intros H. induction pre as [|c pre IH].
  - destruct x as [s' g]. simpl. rewrite (exec_here _ H). eauto.
  - simpl. destruct (match_at r (c :: pre ++ s)) as [[s' cap]|]; eauto.
Qed.

(** The match reported is the leftmost one. *)
Lemma exec_leftmost (pre s : jsstring) :
  (forall n, (n < length pre)%nat -> match_at r (skipn n (pre ++ s)) = None) ->
  exec r (pre ++ s) = exec r s.
Proof.
  induction pre as [|c pre IH]; intros H; [reflexivity|].
  pose proof (H 0%nat) as H0. simpl in H0 |- *. rewrite H0 by lia.
  apply IH. intros n Hn. apply (H (S n)). simpl; lia.
Qed.

Lemma match_g_from_sound (s : jsstring) :
  forall (skip : nat) (m : jsstring),
    In m (match_g_from r s skip) ->
    exists s1 s' g, match_at r s1 = Some (s', g) /\ m = consumed s1 s'.
Proof.
  induction s as [|c s IH]; intros [|n] m; simpl; try tauto.
  - destruct (match_at r []) as [[s' g]|] eqn:E; simpl; [|tauto].
    intros [<-|[]]. eauto.
  - destruct (match_at r (c :: s)) as [[s' g]|] eqn:E; simpl.
    + intros [<-|H]; eauto.
    + eauto.
  - eauto.
Qed.

End Exec.

Section Tiers.

Lemma well_formed_length (code : jsstring) :
  well_formed code = true -> length code = 12%nat.
Proof. apply code_shape_length. Qed.

Lemma length_12_truthy (code : jsstring) :
  length code = 12%nat -> truthy code = true.
Proof. destruct code; [discriminate | reflexivity]. Qed.

(** Upper-case letters and digits are their own canonical form. *)
Lemma well_formed_ignoreCase (code : jsstring) :
  well_formed code = true -> code_shape ignoreCase code = true.
Proof.
  assert (Hu : forall c, upper c = true -> ignoreCase upper c = true).
  { intros c H. unfold ignoreCase, Canonicalize, lower.
    unfold upper in H. apply andb_true_iff in H as [H1 H2].
    apply N.leb_le in H1, H2.
    replace (97 <=? c)%N with false by (symmetry; apply N.leb_gt; lia).
    unfold upper. simpl. apply andb_true_iff; split; apply N.leb_le; lia. }
  assert (Hd : forall c, upper_or_digit c = true ->
                         ignoreCase upper_or_digit c = true).
  { intros c H. unfold ignoreCase, Canonicalize, lower.
    replace (97 <=? c)%N with false; [exact H|].
    symmetry; apply N.leb_gt.
    unfold upper_or_digit, upper, digit in H.
    apply orb_true_iff in H as [H|H]; apply andb_true_iff in H as [H1 H2];
      apply N.leb_le in H1, H2; lia. }
  unfold well_formed, code_shape. rewrite !andb_true_iff, !forallb_forall.
  intros [[H1 H2] H3]. repeat split; auto.
Qed.

Lemma tier1_head (lbl ws1 ws2 code post : jsstring) :
  is_label lbl = true ->
  forallb is_space ws1 = true ->
  forallb is_space ws2 = true ->
  code_shape ignoreCase code = true ->
  tier1 (lbl ++ ws1 ++ [58%N] ++ ws2 ++ code ++ post) = Some code.
Proof.
  intros Hl H1 H2 Hc. unfold tier1.
  pose proof (@labelled_match lbl ws1 ws2 code post Hl H1 H2 Hc) as Hm.
  apply exec_here in Hm. now rewrite Hm.
Qed.

Lemma tier1_sound (text code : jsstring) :
  tier1 text = Some code -> contains_labelled text code.
Proof.
  unfold tier1. destruct (exec labelled_isin text) as [[m g]|] eqn:E;
    [|discriminate].
  intros ->.
  apply exec_sound in E as (pre & s & s' & -> & Hm & _).
  apply labelled_sound in Hm as (lbl & ws1 & ws2 & c & -> & Hg & Hl & H1 & H2 & Hc).
  injection Hg as <-.
  exists pre, (lbl ++ ws1 ++ [58%N] ++ ws2 ++ code ++ s'). split; [reflexivity|].
  exists lbl, ws1, ws2, s'. auto.
Qed.

Lemma tier1_complete (text code : jsstring) :
  contains_labelled text code -> exists found, tier1 text = Some found.
Proof.
  intros (pre & s & -> & lbl & ws1 & ws2 & post & -> & Hl & H1 & H2 & Hc).
  pose proof (@labelled_match lbl ws1 ws2 code post Hl H1 H2 Hc) as Hm.
  apply exec_complete with (pre := pre) in Hm as [[m g] E].
  unfold tier1, jsstring, char in *. rewrite E.
  apply exec_sound in E as (pre' & s & s' & _ & Hm & _).
  apply labelled_sound in Hm as (_ & _ & _ & c & _ & -> & _). eauto.
Qed.

Lemma tier1_length (text code : jsstring) :
  tier1 text = Some code -> length code = 12%nat.
Proof.
  intros H. apply tier1_sound in H as (pre & s & _ & lbl & ws1 & ws2 & post & H).
  apply (code_shape_length ignoreCase). tauto.
Qed.

Lemma bare_match_at (s s' : jsstring) (g : option jsstring) :
  match_at bare_isin s = Some (s', g) ->
  exists code, s = code ++ s' /\ g = Some code /\ well_formed code = true.
Proof.
  unfold match_at, bare_isin. intros H.
  apply code_group_sound in H as (code & post & -> & Hc & H).
  injection H as <- <-. eauto.
Qed.

Lemma tier2_well_formed (text code : jsstring) :
  tier2 text = Some code -> well_formed code = true.
Proof.
  unfold tier2, match_g.
  destruct (match_g_from bare_isin text 0) as [|m l] eqn:E; [discriminate|].
  simpl. intros H; injection H as ->.
  assert (Hin : In code (match_g_from bare_isin text 0)) by (rewrite E; simpl; auto).
  apply match_g_from_sound in Hin as (s1 & s' & g & Hm & ->).
  apply bare_match_at in Hm as (c & -> & _ & Hc). now rewrite consumed_app.
Qed.

Lemma tier3_well_formed (elements : list jsstring) (code : jsstring) :
  tier3 elements = Some code -> well_formed code = true.
Proof.
  induction elements as [|t rest IH]; simpl; [discriminate|].
  destruct (exec bare_isin t) as [[m g]|] eqn:E; [|exact IH].
  intros ->. apply exec_sound in E as (pre & s & s' & _ & Hm & _).
  apply bare_match_at in Hm as (c & _ & Hg & Hc). now injection Hg as <-.
Qed.

End Tiers.

Section Extraction.

Variable env : environment.

Lemma after_after (w : world) (a b : list event) :
  after (after w a) b = after w (a ++ b).
Proof. unfold after; simpl. now rewrite app_assoc. Qed.

Lemma after_nil (w : world) : after w [] = w.
Proof. destruct w; unfold after; simpl. now rewrite app_nil_r. Qed.

(** A method's value, when it has one, is a twelve-unit string, hence
    truthy. *)
Lemma method_values_length (p : page) (v : jsstring) :
  value_of (method1 p) = Some v \/ value_of (method2 p) = Some v
  \/ value_of (method3 p) = Some v ->
  length v = 12%nat.
Proof.
  unfold method1, method2, method3.
  intros [H|[H|H]]; destruct (body_innerText p); simpl in H; try discriminate.
  - eapply tier1_length; eauto.
  - apply well_formed_length. eapply tier2_well_formed; eauto.
  - apply well_formed_length. eapply tier3_well_formed; eauto.
  - apply well_formed_length. eapply tier3_well_formed; eauto.
Qed.

Lemma truthy_opt_value (p : page) (v : option jsstring) :
  v = value_of (method1 p) \/ v = value_of (method2 p)
  \/ v = value_of (method3 p) ->
  truthy_opt v = match v with Some _ => true | None => false end.
Proof.
  intros H. destruct v as [s|]; [|reflexivity]. simpl.
  apply length_12_truthy, (method_values_length p).
  intuition auto.
Qed.

(** [try { isin = await this.page.evaluate(f) } catch (e) { }], with
    [isin] still [null]. *)
Lemma evaluate_caught (m : method) (f : page -> outcome (option jsstring))
      (p : page) (w : world) :
  try_catch (evaluate m f p) (fun _ => ret None) w
  = (Ret (value_of (f p)), after w [Evaluate m]).
Proof.
  unfold try_catch, evaluate, bind, log, modify, lift_outcome, ret.
  destruct (f p); reflexivity.
Qed.

(** Extraction on a page that loads: the value is the first method's
    that is not [null], and no method runs after one that gave a value. *)
Lemma extract_loaded (url : jsstring) (p : page) (w : world) :
  stock_page env url = Loaded p ->
  let v1 := value_of (method1 p) in
  let v2 := value_of (method2 p) in
  let v3 := value_of (method3 p) in
  extractISINFromPage env url w
  = (Ret (first_success [v1; v2; v3]),
     after w (GotoStock url :: map Evaluate (methods_run v1 v2))).
Proof.
  intros Hp v1 v2 v3.
  pose proof (@truthy_opt_value p v1 (or_introl eq_refl)) as T1.
  pose proof (@truthy_opt_value p v2 (or_intror (or_introl eq_refl))) as T2.
  unfold extractISINFromPage.
  unfold try_catch at 1. unfold bind at 1. unfold log at 1, modify at 1.
  unfold bind at 1. rewrite Hp. unfold navigate, ret at 1.
  unfold bind at 1. rewrite evaluate_caught. fold v1.
  destruct v1 as [s1|]; simpl in T1 |- *.
  - rewrite T1. unfold bind, ret. simpl. rewrite T1. simpl.
    unfold after; simpl. now rewrite <- app_assoc.
  - unfold bind at 1. rewrite evaluate_caught. fold v2.
    destruct v2 as [s2|]; simpl in T2 |- *.
    + rewrite T2. unfold bind, ret. simpl.
      unfold after; simpl. now rewrite <- !app_assoc.
    + subst v3. unfold method3, after; simpl.
      destruct (tier3 (element_texts p)); now rewrite <- !app_assoc.
Qed.

(** Extraction on a page that does not load gives [null]. *)
Lemma extract_failed (url message : jsstring) (w : world) :
  stock_page env url = Failed message ->
  extractISINFromPage env url w = (Ret None, after w [GotoStock url]).
Proof.
  intros Hp. unfold extractISINFromPage, try_catch, bind, log, modify.
  rewrite Hp. reflexivity.
Qed.

(** Extraction never throws; its value and events do not depend on the
    world it starts from. *)
Lemma extract_run (url : jsstring) (w : world) :
  extractISINFromPage env url w
  = (Ret (extracted env url), after w (extract_events env url)).
Proof.
  unfold extracted, extract_events.
  destruct (stock_page env url) as [p|message] eqn:Hp.
  - rewrite !(extract_loaded _ _ Hp). reflexivity.
  - rewrite !(extract_failed _ _ Hp). reflexivity.
Qed.

Lemma extracted_length (url found : jsstring) :
  extracted env url = Some found -> length found = 12%nat.
Proof.
  unfold extracted.
  destruct (stock_page env url) as [p|message] eqn:Hp.
  - rewrite (extract_loaded _ _ Hp). cbn [fst value_of first_success].
    intros H. apply (method_values_length p).
    destruct (value_of (method1 p)); [left; congruence|].
    destruct (value_of (method2 p)); [right; left; congruence|].
    destruct (value_of (method3 p)); [right; right; congruence | discriminate].
  - rewrite (extract_failed _ _ Hp). discriminate.
Qed.

End Extraction.

Section Records.

Variable env : environment.

Lemma search_run (name : jsstring) (w : world) :
  searchCompany env name w
  = match encodeURIComponent name with
    | None => (Throw URIError_message, w)
    | Some query =>
      (Ret (candidates env name),
       after w [GotoSearch (searchUrl_prefix ++ query)])
    end.
Proof.
  unfold candidates, searchCompany.
  destruct (encodeURIComponent name) as [query|]; [|reflexivity].
  unfold try_catch, bind, log, modify, navigate.
  destruct (search_page env _); reflexivity.
Qed.

Lemma candidates_loaded (name query : jsstring) (links : list link) :
  encodeURIComponent name = Some query ->
  search_page env (searchUrl_prefix ++ query) = Loaded links ->
  candidates env name = links.
Proof.
  intros Hq Hs. unfold candidates, searchCompany. rewrite Hq.
  unfold try_catch, bind, log, modify, navigate. now rewrite Hs.
Qed.

Lemma candidates_failed (name query message : jsstring) :
  encodeURIComponent name = Some query ->
  search_page env (searchUrl_prefix ++ query) = Failed message ->
  candidates env name = [].
Proof.
  intros Hq Hs. unfold candidates, searchCompany. rewrite Hq.
  unfold try_catch, bind, log, modify, navigate. now rewrite Hs.
Qed.

Lemma stock_visits_evaluate (ms : list method) :
  stock_visits (map Evaluate ms) = [].
Proof. induction ms; simpl; auto. Qed.

Lemma stock_visits_extract (u : jsstring) :
  stock_visits (extract_events env u) = [u].
Proof.
  unfold extract_events.
  destruct (stock_page env u) as [p|message] eqn:Hp.
  - rewrite (@extract_loaded env u p _ Hp). cbn [snd after trace initial app].
    change (stock_visits (GotoStock u :: ?l)) with (u :: stock_visits l).
    now rewrite stock_visits_evaluate.
  - rewrite (@extract_failed env u message _ Hp). reflexivity.
Qed.

Lemma stock_visits_visits (links : list link) :
  stock_visits (visits env links) = map url links.
Proof.
  unfold visits. induction links as [|l links IH]; [reflexivity|].
  simpl. unfold stock_visits in *. rewrite flat_map_app.
  fold (stock_visits (extract_events env (url l))).
  now rewrite stock_visits_extract, IH.
Qed.

Lemma set_foundISIN_same (r : MatchRecord) :
  set_foundISIN (foundISIN r) r = r.
Proof. destruct r; reflexivity. Qed.

(** One turn of the loop on a candidate whose extraction differs from
    the expected identifier. *)
Lemma checkLinks_skip (c : company) (l : link) (rest : list link)
      (r : MatchRecord) (w : world) :
  extracted env (url l) <> Some (Input.isinCode c) ->
  checkLinks env c (l :: rest) (r, w)
  = checkLinks env c rest
      (set_foundISIN (scan_found env [l] (foundISIN r)) r,
       after w (extract_events env (url l))).
Proof.
  intros Hne. cbn [checkLinks]. unfold bind at 1, lift at 1.
  cbn [fst snd]. rewrite extract_run.
  unfold scan_found; cbn [fold_left].
  destruct (extracted env (url l)) as [found|] eqn:E.
  - rewrite (length_12_truthy _ (@extracted_length env _ _ E)).
    replace (str_eqb found (Input.isinCode c)) with false
      by (symmetry; apply str_eqb_neq; congruence).
    reflexivity.
  - now rewrite set_foundISIN_same.
Qed.

(** One turn of the loop on a candidate whose extraction is the
    expected identifier. *)
Lemma checkLinks_hit (c : company) (l : link) (rest : list link)
      (r : MatchRecord) (w : world) :
  extracted env (url l) = Some (Input.isinCode c) ->
  checkLinks env c (l :: rest) (r, w)
  = (Ret true,
     (set_status matched
        (set_matchingURL (Some (url l))
           (set_foundISIN (Some (Input.isinCode c)) r)),
      after w (extract_events env (url l)))).
Proof.
  intros E. cbn [checkLinks]. unfold bind at 1, lift at 1.
  cbn [fst snd]. rewrite extract_run, E.
  rewrite (length_12_truthy _ (@extracted_length env _ _ E)), str_eqb_refl.
  reflexivity.
Qed.

Lemma scan_found_set (links : list link) (r : MatchRecord) (v : option jsstring) :
  set_foundISIN (scan_found env links (foundISIN (set_foundISIN v r)))
                (set_foundISIN v r)
  = set_foundISIN (scan_found env links v) r.
Proof. destruct r; reflexivity. Qed.

Lemma checkLinks_no_match (c : company) (links : list link) :
  none_matches env (Input.isinCode c) links ->
  forall (r : MatchRecord) (w : world),
    checkLinks env c links (r, w)
    = (Ret false,
       (set_foundISIN (scan_found env links (foundISIN r)) r,
        after w (visits env links))).
Proof.
  induction 1 as [|l links Hl _ IH]; intros r w.
  - cbn. now rewrite set_foundISIN_same, after_nil.
  - rewrite checkLinks_skip by assumption.
    rewrite IH, scan_found_set, after_after.
    reflexivity.
Qed.

Lemma checkLinks_match (c : company) (pre : list link) (l : link)
      (rest : list link) :
  none_matches env (Input.isinCode c) pre ->
  extracted env (url l) = Some (Input.isinCode c) ->
  forall (r : MatchRecord) (w : world),
    checkLinks env c (pre ++ l :: rest) (r, w)
    = (Ret true,
       (set_status matched
          (set_matchingURL (Some (url l))
             (set_foundISIN (Some (Input.isinCode c)) r)),
        after w (visits env (pre ++ [l])))).
Proof.
  intros Hpre E. induction Hpre as [|p pre Hp _ IH]; intros r w.
  - cbn [app]. rewrite checkLinks_hit by assumption.
    unfold visits. cbn. now rewrite app_nil_r.
  - cbn [app]. rewrite checkLinks_skip by assumption. rewrite IH, after_after.
    destruct r; reflexivity.
Qed.

(** Either no candidate's extraction is the expected identifier, or
    there is a first one whose extraction is. *)
Lemma first_match_split (expected : jsstring) (links : list link) :
  none_matches env expected links
  \/ exists pre l rest,
       links = pre ++ l :: rest
       /\ none_matches env expected pre
       /\ extracted env (url l) = Some expected.
Proof.
  induction links as [|l links IH].
  - left; constructor.
  - destruct (extracted env (url l)) as [found|] eqn:E.
    + destruct (str_eqb found expected) eqn:Q.
      * apply str_eqb_eq in Q as ->.
        right; exists [], l, links. repeat split; auto. constructor.
      * apply str_eqb_neq in Q.
        destruct IH as [IH|(pre & m & rest & -> & Hpre & Hm)].
        -- left; constructor; [congruence | assumption].
        -- right; exists (l :: pre), m, rest. repeat split; auto.
           constructor; [congruence | assumption].
    + destruct IH as [IH|(pre & m & rest & -> & Hpre & Hm)].
      * left; constructor; [congruence | assumption].
      * right; exists (l :: pre), m, rest. repeat split; auto.
        constructor; [congruence | assumption].
Qed.

End Records.

Section ProcessCompany.

Variable env : environment.

(** A failure of the search step that reaches [processCompany] is
    caught there. *)
Lemma processCompany_throw (c : company) (w w1 : world) (message : jsstring) :
  searchCompany env (Input.companyName c) w = (Throw message, w1) ->
  processCompany env c w
  = (Ret (set_error message (set_status error (new_result c))), w1).
Proof.
  intros H. unfold processCompany, with_local, try_catch.
  unfold bind at 1. unfold lift. cbn [fst snd]. rewrite H. reflexivity.
Qed.

Lemma processCompany_search (c : company) (w : world) (query : jsstring) :
  encodeURIComponent (Input.companyName c) = Some query ->
  processCompany env c w
  = let w1 := after w [GotoSearch (searchUrl_prefix ++ query)] in
    match candidates env (Input.companyName c) with
    | [] => (Ret (set_status no_results (new_result c)), w1)
    | links =>
      match checkLinks env c links (new_result c, w1) with
      | (Ret true, (r, w')) => (Ret r, w')
      | (Ret false, (r, w')) => (Ret (set_status no_match r), w')
      | (Throw message, (r, w')) =>
        (Ret (set_error message (set_status error r)), w')
      end
    end.
Proof.
  intros Hq. unfold processCompany, with_local, try_catch.
  unfold bind at 1. unfold lift. cbn [fst snd].
  rewrite search_run, Hq.
  destruct (candidates env (Input.companyName c)) as [|l links]; [reflexivity|].
  cbn [length Nat.eqb]. unfold bind.
  destruct (checkLinks env c (l :: links) _) as [[[|]|message] [r w']];
    reflexivity.
Qed.

Lemma processCompany_error (c : company) (w : world) :
  encodeURIComponent (Input.companyName c) = None ->
  processCompany env c w
  = (Ret (set_error URIError_message (set_status error (new_result c))), w).
Proof.
  intros Hq. apply processCompany_throw. now rewrite search_run, Hq.
Qed.

Lemma processCompany_no_results (c : company) (w : world) (query : jsstring) :
  encodeURIComponent (Input.companyName c) = Some query ->
  candidates env (Input.companyName c) = [] ->
  processCompany env c w
  = (Ret (set_status no_results (new_result c)),
     after w [GotoSearch (searchUrl_prefix ++ query)]).
Proof.
  intros Hq Hc. rewrite (processCompany_search _ _ Hq), Hc. reflexivity.
Qed.

Lemma processCompany_no_match (c : company) (w : world) (query : jsstring)
      (links : list link) :
  encodeURIComponent (Input.companyName c) = Some query ->
  candidates env (Input.companyName c) = links ->
  links <> [] ->
  none_matches env (Input.isinCode c) links ->
  processCompany env c w
  = (Ret (set_status no_match
            (set_foundISIN (last_found env links) (new_result c))),
     after w (GotoSearch (searchUrl_prefix ++ query) :: visits env links)).
Proof.
  intros Hq Hc Hne Hnone. rewrite (processCompany_search _ _ Hq), Hc.
  cbv zeta. destruct links as [|l links]; [congruence|].
  rewrite checkLinks_no_match by assumption. now rewrite after_after.
Qed.

Lemma processCompany_matched (c : company) (w : world) (query : jsstring)
      (pre : list link) (l : link) (rest : list link) :
  encodeURIComponent (Input.companyName c) = Some query ->
  candidates env (Input.companyName c) = pre ++ l :: rest ->
  none_matches env (Input.isinCode c) pre ->
  extracted env (url l) = Some (Input.isinCode c) ->
  processCompany env c w
  = (Ret (set_status matched
            (set_matchingURL (Some (url l))
               (set_foundISIN (Some (Input.isinCode c)) (new_result c)))),
     after w (GotoSearch (searchUrl_prefix ++ query)
              :: visits env (pre ++ [l]))).
Proof.
  intros Hq Hc Hpre Hl. rewrite (processCompany_search _ _ Hq), Hc.
  cbv zeta. destruct (pre ++ l :: rest) as [|l0 links0] eqn:E;
    [destruct pre; discriminate|].
  rewrite <- E, checkLinks_match by assumption. now rewrite after_after.
Qed.

Lemma scan_found_in (links : list link) :
  forall (acc : option jsstring) (found : jsstring),
    scan_found env links acc = Some found ->
    acc = Some found
    \/ exists l, In l links /\ extracted env (url l) = Some found.
Proof.
  unfold scan_found.
  induction links as [|l links IH]; intros acc found H; simpl in H; [auto|].
  destruct (IH _ _ H) as [E|(m & Hin & Hm)].
  - destruct (extracted env (url l)) eqn:X; [|auto].
    right; exists l; simpl; split; [auto | congruence].
  - right; exists m; simpl; auto.
Qed.

Lemma writes_evaluate (ms : list method) : writes (map Evaluate ms) = [].
Proof. induction ms; simpl; auto. Qed.

Lemma writes_extract (u : jsstring) : writes (extract_events env u) = [].
Proof.
  unfold extract_events.
  destruct (stock_page env u) as [p|message] eqn:Hp.
  - rewrite (@extract_loaded env _ p _ Hp). cbn [snd after trace initial app].
    change (writes (GotoStock u :: ?l)) with (writes l).
    apply writes_evaluate.
  - rewrite (@extract_failed env _ message _ Hp). reflexivity.
Qed.

Lemma writes_visits (links : list link) : writes (visits env links) = [].
Proof.
  unfold visits. induction links as [|l links IH]; [reflexivity|].
  simpl. unfold writes in *. rewrite flat_map_app, IH, app_nil_r.
  apply writes_extract.
Qed.

(** [processCompany] always returns a result, which is right for the
    record, and writes no file. *)
Lemma processCompany_total (c : company) (w : world) :
  exists r es,
    processCompany env c w = (Ret r, after w es)
    /\ record_for env c r
    /\ found_is_expected r
    /\ writes es = [].
Proof.
  destruct (encodeURIComponent (Input.companyName c)) as [query|] eqn:Hq.
  - destruct (candidates env (Input.companyName c)) as [|l0 links0] eqn:Hc.
    + eexists _, _. split; [eapply processCompany_no_results; eassumption|].
      split; [|split; [discriminate | reflexivity]].
      unfold record_for; simpl.
      repeat split; auto; try discriminate; intros; tauto.
    + destruct (first_match_split env (Input.isinCode c) (l0 :: links0))
        as [Hnone|(pre & l & rest & E & Hpre & Hl)].
      * eexists _, _. split.
        { eapply processCompany_no_match with (links := l0 :: links0);
            eauto; discriminate. }
        split; [|split; [discriminate|]].
        -- unfold record_for; simpl.
           repeat split; auto; try discriminate; try tauto.
           intros found H. rewrite Hc.
           apply scan_found_in in H as [H|H]; [discriminate | exact H].
        -- change (writes (GotoSearch ?u :: ?es)) with (writes es).
           apply writes_visits.
      * eexists _, _. split.
        { eapply processCompany_matched with (pre := pre) (rest := rest);
            eauto; congruence. }
        split; [|split; [intros _; reflexivity|]].
        -- unfold record_for; simpl.
           repeat split; auto; try discriminate.
           intros found H. injection H as <-. rewrite Hc, E.
           exists l. split; [apply in_elt | assumption].
        -- change (writes (GotoSearch ?u :: ?es)) with (writes es).
           apply writes_visits.
  - exists (set_error URIError_message (set_status error (new_result c))), [].
    rewrite after_nil. split; [now apply processCompany_error|].
    split; [|split; [discriminate | reflexivity]].
    unfold record_for; simpl.
    repeat split; auto; try discriminate; intros; tauto.
Qed.

End ProcessCompany.

Section Batch.

Variable env : environment.

Lemma csv_row_truthy (r : MatchRecord) : truthy (csv_row r) = true.
Proof. unfold csv_row. destruct (companyName r); reflexivity. Qed.

Lemma join_truthy (sep x : jsstring) (rest : list jsstring) :
  truthy x = true -> truthy (join sep (x :: rest)) = true.
Proof. destruct x; [discriminate|]. destruct rest; reflexivity. Qed.

(** The rows are the empty string exactly when no result is matched. *)
Lemma csvResults_truthy (rs : list MatchRecord) :
  truthy (csvResults rs) = existsb is_matched rs.
Proof.
  unfold csvResults. induction rs as [|r rs IH]; [reflexivity|].
  cbn [filter existsb]. destruct (is_matched r); [|exact IH].
  cbn [map orb]. apply join_truthy, csv_row_truthy.
Qed.

Lemma read_set_file (name content : jsstring) (fs : list (jsstring * jsstring)) :
  read_file name (set_file name content fs) = Some content.
Proof.
  induction fs as [|[n c] fs IH]; simpl.
  - now rewrite str_eqb_refl.
  - destruct (str_eqb n name) eqn:E; simpl.
    + now rewrite str_eqb_refl.
    + now rewrite E.
Qed.

Lemma existsb_matched_app (a b : list MatchRecord) :
  existsb is_matched (a ++ b) = false -> existsb is_matched a = false.
Proof. rewrite existsb_app, orb_false_iff. tauto. Qed.

(** [saveMatchesCSV] writes the file when some result is matched and the
    disk takes it, and does nothing otherwise. *)
Lemma saveMatchesCSV_run (w : world) :
  V2.saveMatchesCSV env w
  = if existsb is_matched (results w) && writable env matches_csv
    then (Ret true, matches_written w)
    else (Ret false, w).
Proof.
  unfold V2.saveMatchesCSV, try_catch, bind, gets.
  rewrite csvResults_truthy.
  destruct (existsb is_matched (results w)); [|reflexivity].
  unfold writeFileSync. destruct (writable env matches_csv); reflexivity.
Qed.

(** ** The loop of [src/gurufocus_isin_matcher.js] *)

Lemma V1_iteration_spec (c : company) (w : world) :
  exists r w',
    V1.iteration env c w = (Ret tt, w')
    /\ results w' = results w ++ [r]
    /\ files w' = files w
    /\ record_for env c r
    /\ found_is_expected r.
Proof.
  destruct (processCompany_total env c w) as (r & es & Hr & Hrec & Hf & _).
  exists r. eexists. unfold V1.iteration, bind. rewrite Hr.
  split; [reflexivity|]. simpl. auto.
Qed.

Lemma V1_loop_spec (todo : list company) :
  forall w : world,
  exists rs w',
    V1.loop env todo w = (Ret tt, w')
    /\ results w' = results w ++ rs
    /\ files w' = files w
    /\ Forall2 (record_for env) todo rs
    /\ Forall found_is_expected rs.
Proof.
  induction todo as [|c todo IH]; intros w.
  - exists [], w. simpl. rewrite app_nil_r. auto.
  - destruct (V1_iteration_spec c w) as (r & w1 & H1 & R1 & F1 & Hrec & Hf).
    destruct (IH w1) as (rs & w2 & H2 & R2 & F2 & Hall & Hfs).
    exists (r :: rs), w2. cbn [V1.loop]. unfold bind. rewrite H1, H2.
    rewrite R2, R1, <- app_assoc, F2, F1.
    repeat split; auto; constructor; auto.
Qed.

(** ** The loop of the variant with periodic persistence *)

Lemma V2_iteration_tail (i : nat) (c : company) (w : world) :
  exists r w',
    (result <- processCompany env c;;
     push result;;
     if ((i + 1) mod 10 =? 0)%nat
     then _ <- V2.saveMatchesCSV env;; ret tt
     else ret tt)%eff w = (Ret tt, w')
    /\ results w' = results w ++ [r]
    /\ record_for env c r
    /\ found_is_expected r
    /\ files w'
       = if ((i + 1) mod 10 =? 0)%nat
            && existsb is_matched (results w')
            && writable env matches_csv
         then set_file matches_csv (matches_text w') (files w)
         else files w.
Proof.
  destruct (processCompany_total env c w) as (r & es & Hr & Hrec & Hf & _).
  exists r.
  unfold bind at 1. rewrite Hr.
  unfold bind at 1. unfold push at 1, modify at 1.
  destruct ((i + 1) mod 10 =? 0)%nat; cbn [andb].
  - unfold bind. rewrite saveMatchesCSV_run. cbn [results after].
    destruct (existsb is_matched (results w ++ [r]) && writable env matches_csv)
      eqn:E; eexists; (split; [reflexivity|]);
      cbn [results files matches_written after]; rewrite E; auto.
  - eexists; split; [reflexivity|]. cbn [results files after]. auto.
Qed.

(** ** Calls on the browser *)

Lemma evolve_id (w : world) : evolve w [] (handles w) = w.
Proof. destruct w. unfold evolve. cbn. now rewrite app_nil_r. Qed.

Lemma evolve_evolve (w : world) (es es' : list event) (h h' : handles_t) :
  evolve (evolve w es h) es' h' = evolve w (es ++ es') h'.
Proof. unfold evolve. cbn. now rewrite app_assoc. Qed.

Lemma after_evolve (w : world) (es : list event) :
  after w es = evolve w es (handles w).
Proof. reflexivity. Qed.

Lemma attempt_run (c : browser_call) (w : world) :
  attempt env c w
  = (match session env c (trace w) with
     | Some message => Throw message
     | None => Ret tt
     end, after w [Session c]).
Proof.
  unfold attempt, bind, gets, log, modify.
  destruct (session env c (trace w)); reflexivity.
Qed.

Lemma calls_only_ret (A : Type) (allowed : browser_call -> bool) (a : A) :
  calls_only env allowed (ret a).
Proof.
  intros w. exists (Ret a), [], (handles w). rewrite evolve_id.
  repeat split; eauto. discriminate.
Qed.

Lemma calls_only_gets (A : Type) (allowed : browser_call -> bool)
      (f : world -> A) :
  calls_only env allowed (gets f).
Proof.
  intros w. exists (Ret (f w)), [], (handles w). rewrite evolve_id.
  repeat split; eauto. discriminate.
Qed.

Lemma calls_only_set_handles (allowed : browser_call -> bool)
      (f : handles_t -> handles_t) :
  calls_only env allowed (set_handles f).
Proof.
  intros w. exists (Ret tt), [], (f (handles w)).
  unfold set_handles, modify, evolve. rewrite app_nil_r.
  repeat split; eauto. discriminate.
Qed.

Lemma calls_only_attempt (allowed : browser_call -> bool) (c : browser_call) :
  allowed c = true -> calls_only env allowed (attempt env c).
Proof.
  intros Ha w. rewrite attempt_run, after_evolve.
  eexists _, _, _. split; [reflexivity|]. split; [reflexivity|]. split.
  - intros Hs. rewrite Hs. eauto.
  - intros message E.
    destruct (session env c (trace w)) as [m|] eqn:Em; [|discriminate].
    injection E as <-. eauto.
Qed.

Lemma calls_only_bind (A B : Type) (allowed : browser_call -> bool)
      (m : M world A) (f : A -> M world B) :
  calls_only env allowed m ->
  (forall a, calls_only env allowed (f a)) ->
  calls_only env allowed (bind m f).
Proof.
  intros Hm Hf w.
  destruct (Hm w) as (o & es & h & E & C & R & T).
  unfold bind. rewrite E. destruct o as [a|message].
  - destruct (Hf a (evolve w es h)) as (o' & es' & h' & E' & C' & R' & T').
    rewrite E', evolve_evolve.
    exists o', (es ++ es'), h'. split; [reflexivity|].
    split; [now rewrite forallb_app, C, C'|]. auto.
  - exists (Throw message), es, h. split; [reflexivity|].
    split; [exact C|]. split.
    + intros Hs. destruct (R Hs) as [a Ha]. discriminate.
    + intros m' E'. injection E' as <-. now apply T.
Qed.

Lemma calls_only_if (A : Type) (allowed : browser_call -> bool) (b : bool)
      (m1 m2 : M world A) :
  calls_only env allowed m1 -> calls_only env allowed m2 ->
  calls_only env allowed (if b then m1 else m2).
Proof. now destruct b. Qed.

Lemma calls_only_weaken (A : Type) (allowed allowed' : browser_call -> bool)
      (m : M world A) :
  (forall c, allowed c = true -> allowed' c = true) ->
  calls_only env allowed m -> calls_only env allowed' m.
Proof.
  intros Hsub Hm w. destruct (Hm w) as (o & es & h & E & C & R & T).
  exists o, es, h. repeat split; auto.
  intros message Ho. destruct (T message Ho) as (c & t & Hc & Hm').
  exists c, t. auto.
Qed.

Ltac calls :=
  repeat first
    [ apply calls_only_attempt; reflexivity
    | apply calls_only_set_handles
    | apply calls_only_gets
    | apply calls_only_ret
    | apply calls_only_if
    | apply calls_only_bind; [|intros ?] ].

Lemma initBrowser_calls :
  calls_only env (fun c => negb (closing c)) (V1.initBrowser env)
  /\ calls_only env (fun c => negb (closing c)) (V2.initBrowser env).
Proof. split; unfold V1.initBrowser, V2.initBrowser; calls. Qed.

Lemma close_calls :
  calls_only env closing (V1.close env)
  /\ calls_only env closing (V2.close env).
Proof. split; unfold V1.close, V2.close; calls. Qed.

(** [refreshBrowserContext] leaves the results and the files alone; it
    returns when the browser does what it is asked. *)
Lemma refresh_run (w : world) :
  exists o es h,
    V2.refreshBrowserContext env w = (o, evolve w (RefreshContext :: es) h)
    /\ forallb is_call es = true
    /\ (session_holds env -> o = Ret tt)
    /\ (forall message, o = Throw message ->
          exists c t, session env c t = Some message).
Proof.
  assert (C : calls_only env (fun _ => true)
                (p <- gets (fun w => has_page (handles w));;
                 (if p : bool then attempt env PageClose else ret tt);;
                 c <- gets (fun w => has_context (handles w));;
                 (if c : bool then attempt env ContextClose else ret tt);;
                 attempt env ContextCreate;;
                 set_handles set_context;;
                 attempt env PageCreate;;
                 set_handles set_page;;
                 attempt env PageViewport;;
                 attempt env PageUserAgent)%eff) by calls.
  destruct (C (after w [RefreshContext])) as (o & es & h & E & Hc & R & T).
  exists o, es, h. split; [|split; [exact Hc|split]].
  - unfold V2.refreshBrowserContext. unfold bind at 1.
    unfold log at 1, modify at 1. fold (after w [RefreshContext]).
    rewrite E, after_evolve, evolve_evolve. reflexivity.
  - intros Hs. destruct (R Hs) as [[] ->]. reflexivity.
  - intros message Ho. destruct (T message Ho) as (c & t & _ & Hm). eauto.
Qed.

(** One turn of the loop: it fails only when the refresh does, and then
    before anything is done for the record. *)
Lemma V2_iteration_general (i : nat) (c : company) (w : world) :
  exists o w',
    V2.iteration env i c w = (o, w')
    /\ (session_holds env -> o = Ret tt)
    /\ match o with
       | Ret _ =>
         exists r,
           results w' = results w ++ [r]
           /\ record_for env c r
           /\ found_is_expected r
           /\ files w'
              = if ((i + 1) mod 10 =? 0)%nat
                   && existsb is_matched (results w')
                   && writable env matches_csv
                then set_file matches_csv (matches_text w') (files w)
                else files w
       | Throw _ => results w' = results w /\ files w' = files w
       end.
Proof.
  unfold V2.iteration. unfold bind at 1.
  destruct (0 <? i)%nat.
  - destruct (refresh_run w) as (o & es & h & E & _ & R & _). rewrite E.
    destruct o as [[]|message].
    + destruct (V2_iteration_tail i c (evolve w (RefreshContext :: es) h))
        as (r & w' & H & Hr & Hrec & Hf & Hfiles).
      exists (Ret tt), w'. split; [exact H|]. split; [reflexivity|].
      exists r. auto.
    + eexists _, _. split; [reflexivity|]. split; [exact R|].
      split; reflexivity.
  - destruct (V2_iteration_tail i c w) as (r & w' & H & Hr & Hrec & Hf & Hfiles).
    exists (Ret tt), w'. split; [exact H|]. split; [reflexivity|].
    exists r. auto.
Qed.

(** The loop: when it stops early, the results are those of the records
    before the one whose refresh failed. *)
Lemma V2_loop_general (todo : list company) :
  forall (i : nat) (w : world),
  exists o rs w',
    V2.loop env i todo w = (o, w')
    /\ results w' = results w ++ rs
    /\ Forall2 (record_for env) (firstn (length rs) todo) rs
    /\ Forall found_is_expected rs
    /\ (o = Ret tt -> length rs = length todo)
    /\ (existsb is_matched (results w') = false -> files w' = files w)
    /\ (session_holds env -> o = Ret tt).
Proof.
  induction todo as [|c todo IH]; intros i w.
  - exists (Ret tt), [], w. cbn. rewrite app_nil_r. repeat split; auto.
  - destruct (V2_iteration_general i c w) as (o1 & w1 & H1 & S1 & P1).
    cbn [V2.loop]. unfold bind. rewrite H1.
    destruct o1 as [[]|message].
    + destruct P1 as (r & R1 & Hrec & Hf & F1).
      destruct (IH (S i) w1) as (o & rs & w2 & H2 & R2 & Hall & Hfs & L & F2 & S2).
      exists o, (r :: rs), w2. split; [exact H2|].
      split; [now rewrite R2, R1, <- app_assoc|].
      split; [cbn [length firstn]; constructor; auto|].
      split; [constructor; auto|].
      split; [intros Ho; cbn [length]; now rewrite (L Ho)|].
      split; [|exact S2].
      intros Hno. rewrite F2 by assumption.
      rewrite R2 in Hno. apply existsb_matched_app in Hno.
      rewrite F1, Hno, andb_false_r. reflexivity.
    + destruct P1 as [R1 F1].
      exists (Throw message), [], w1. split; [reflexivity|].
      split; [now rewrite app_nil_r|].
      split; [constructor|]. split; [constructor|].
      split; [discriminate|]. split; [auto|].
      intros Hs. specialize (S1 Hs). discriminate.
Qed.

Lemma V2_loop_app (a b : list company) :
  forall (i : nat) (w : world),
    V2.loop env i (a ++ b) w
    = bind (V2.loop env i a) (fun _ => V2.loop env (i + length a) b) w.
Proof.
  induction a as [|c a IH]; intros i w.
  - cbn. now rewrite Nat.add_0_r.
  - cbn [app V2.loop length]. unfold bind at 1 2 3.
    destruct (V2.iteration env i c w) as [[[]|message] w1]; [|reflexivity].
    rewrite IH. now rewrite Nat.add_succ_r.
Qed.

End Batch.

(* ===================================================================== *)
(** * The text extractor (claims C1 and C6) *)
(* ===================================================================== *)

Section TextExtractor.

Import Examples.

(** Method 1 extracts every well-formed identifier from [ISIN: <code>]
    and from [isin:<code>], whatever follows the code. *)
Lemma tier1_extracts_well_formed (code post : jsstring) :
  well_formed code = true ->
  tier1 (js "ISIN: " ++ code ++ post) = Some code
  /\ tier1 (js "isin:" ++ code ++ post) = Some code.
Proof.
  intros H. apply well_formed_ignoreCase in H. split.
  - exact (@tier1_head (js "ISIN") [] [32%N] code post
             eq_refl eq_refl eq_refl H).
  - exact (@tier1_head (js "isin") [] [] code post
             eq_refl eq_refl eq_refl H).
Qed.

(** The [i] flag covers the whole pattern: method 1 extracts a code of
    the right shape in any mix of cases. *)
Lemma tier1_extracts_any_case (code post : jsstring) :
  code_shape ignoreCase code = true ->
  tier1 (js "ISIN: " ++ code ++ post) = Some code.
Proof.
  intros H.
  exact (@tier1_head (js "ISIN") [] [32%N] code post eq_refl eq_refl eq_refl H).
Qed.

(** C1 (defect in the code).  Method 1 is to take the label in any case
    but the code in upper case only.  On the page text
    [ISIN: us0000011111] it extracts the lower-case code
    [us0000011111], which is not a well-formed identifier and which
    methods 2 and 3, whose pattern has no [i] flag, do not accept. *)
Theorem C1_tier1_extracts_lower_case_code :
  tier1 (js "ISIN: us0000011111") = Some (js "us0000011111")
  /\ well_formed (js "us0000011111") = false
  /\ tier2 (js "ISIN: us0000011111") = None
  /\ tier3 [js "ISIN: us0000011111"] = None.
Proof. vm_compute. repeat split. Qed.

(** Where method 1's pattern does not match at the head of [s], no
    labelled identifier starts there. *)
Lemma not_labelled_at (s : jsstring) :
  match_at labelled_isin s = None -> forall code, ~ labelled_at s code.
Proof.
  intros H code (lbl & ws1 & ws2 & post & -> & Hl & H1 & H2 & Hc).
  pose proof (@labelled_match lbl ws1 ws2 code post Hl H1 H2 Hc) as Hm.
  unfold jsstring, char in *. congruence.
Qed.

(** Method 1 gives the first labelled identifier of the text. *)
Lemma tier1_leftmost (text pre s code : jsstring) :
  text = pre ++ s ->
  labelled_at s code ->
  (forall n c, (n < length pre)%nat -> ~ labelled_at (skipn n text) c) ->
  tier1 text = Some code.
Proof.
  intros -> (lbl & ws1 & ws2 & post & -> & Hl & H1 & H2 & Hc) Hfirst.
  unfold tier1. rewrite exec_leftmost.
  - apply (@tier1_head lbl ws1 ws2 code post Hl H1 H2 Hc).
  - intros n Hn.
    destruct (match_at labelled_isin (skipn n (pre ++ _)))
      as [[s' g]|] eqn:E; [|reflexivity].
    apply labelled_sound in E
      as (lbl' & ws1' & ws2' & c & E & _ & Hl' & H1' & H2' & Hc').
    exfalso. apply (Hfirst n c Hn).
    exists lbl', ws1', ws2', s'. auto.
Qed.

(** When the page text holds a labelled identifier, "labelled" as
    method 1 reads it (the code in either case), and none starts before
    it, extraction returns its value from method 1 alone, whatever bare
    tokens the text holds elsewhere.  In general the value is that of
    the first method that gives one, and a method runs only if every
    method before it gave nothing. *)
Lemma labelled_value_wins (env : environment) (url : jsstring)
        (p : page) (w : world) :
  stock_page env url = Loaded p ->
  (forall text pre s code,
      body_innerText p = Some text ->
      text = pre ++ s ->
      labelled_at s code ->
      (forall n c, (n < length pre)%nat -> ~ labelled_at (skipn n text) c) ->
      extractISINFromPage env url w
      = (Ret (Some code), after w [GotoStock url; Evaluate Method1]))
  /\ (let v1 := value_of (method1 p) in
      let v2 := value_of (method2 p) in
      let v3 := value_of (method3 p) in
      extractISINFromPage env url w
      = (Ret (first_success [v1; v2; v3]),
         after w (GotoStock url :: map Evaluate (methods_run v1 v2)))).
Proof.
  intros Hp. split.
  - intros text pre s code Hb Ht Hl Hfirst.
    rewrite (@extract_loaded env url p w Hp).
    unfold method1. rewrite Hb. cbn [value_of].
    now rewrite (@tier1_leftmost text pre s code Ht Hl Hfirst).
  - exact (@extract_loaded env url p w Hp).
Qed.

(** On the page of D1, [Ticker AB0123456789 ISIN: GB0000022222], the
    labelled value is returned although method 2 would give the bare
    token that stands before it. *)
Example labelled_value_wins_on_D1 :
  extractISINFromPage site (stock "D1") (initial [])
  = (Ret (Some (js "GB0000022222")),
     after (initial []) [GotoStock (stock "D1"); Evaluate Method1])
  /\ tier2 (js "Ticker AB0123456789 ISIN: GB0000022222")
     = Some (js "AB0123456789").
Proof.
  split; [|reflexivity].
  refine (proj1 (@labelled_value_wins site (stock "D1")
                   (a_page "Ticker AB0123456789 ISIN: GB0000022222")
                   (initial []) eq_refl)
            (js "Ticker AB0123456789 ISIN: GB0000022222")
            (js "Ticker AB0123456789 ")
            (js "ISIN: GB0000022222")
            (js "GB0000022222") eq_refl eq_refl _ _).
  - exists (js "ISIN"), [], [32%N], []. repeat split.
  - intros n c Hn. apply not_labelled_at.
    do 20 (destruct n as [|n]; [reflexivity|]).
    simpl in Hn. lia.
Qed.

(** C6 (defect in the code).  A page text that holds a labelled
    identifier and a different bare token is to give the labelled
    identifier.  The text
    [ISIN: undetermined. Ticker AB0123456789 ISIN: US0000011111] holds
    the labelled identifier [US0000011111] and the bare token
    [AB0123456789], both well formed; extraction returns
    [undetermined], from method 1 alone: the [i] flag lets the twelve
    letters after the first label pass for a code.  What is returned is
    neither the labelled identifier nor the bare token, and it is not a
    well-formed identifier; method 2, whose pattern has no [i] flag,
    does not accept it. *)
Theorem C6_letters_after_a_label_are_returned :
  Samples.mixed_text
  = js "ISIN: undetermined. Ticker AB0123456789 " ++ js "ISIN: US0000011111"
  /\ labelled_at (js "ISIN: US0000011111") (js "US0000011111")
  /\ well_formed (js "US0000011111") = true
  /\ contains_bare Samples.mixed_text (js "AB0123456789")
  /\ extractISINFromPage Samples.mixed_site (stock "ACME") (initial [])
     = (Ret (Some (js "undetermined")),
        after (initial []) [GotoStock (stock "ACME"); Evaluate Method1])
  /\ well_formed (js "undetermined") = false
  /\ tier2 Samples.mixed_text = Some (js "AB0123456789").
Proof.
  split; [reflexivity|].
  split; [exists (js "ISIN"), [], [32%N], []; repeat split|].
  split; [reflexivity|].
  split; [exists (js "ISIN: undetermined. Ticker "), (js " ISIN: US0000011111");
          split; reflexivity|].
  vm_compute. repeat split.
Qed.

End TextExtractor.

(* ===================================================================== *)
(** * The match evaluator (claims C2, C5, C7 and C10) *)
(* ===================================================================== *)

Section MatchEvaluator.

Import Examples.

Lemma stock_visits_app (a b : list event) :
  stock_visits (a ++ b) = stock_visits a ++ stock_visits b.
Proof. apply flat_map_app. Qed.

(** C2, the claim as stated fails: loading the search page for Gamma
    times out; the record gets status [no_results], not [error], and no
    error text. *)
Lemma C2_search_failure_gives_no_results :
  search_page site (searchUrl_prefix ++ js "Gamma")
  = Failed (js "Navigation timeout of 30000 ms exceeded")
  /\ exists r w',
       processCompany site gamma (initial []) = (Ret r, w')
       /\ status r = no_results
       /\ status r <> error
       /\ errorMessage r = None.
Proof.
  split; [reflexivity|].
  eexists _, _. split; [vm_compute; reflexivity|].
  cbn. repeat split. discriminate.
Qed.

(** The status is [error] exactly when the company name cannot be
    encoded for the search URL. *)
Lemma error_status_iff (env : environment) (c : company) (w w' : world)
      (r : MatchRecord) :
  processCompany env c w = (Ret r, w') ->
  (status r = error <-> encodeURIComponent (Input.companyName c) = None).
Proof.
  intros H.
  destruct (encodeURIComponent (Input.companyName c)) as [query|] eqn:Hq.
  - assert (Hs : status r <> error); [|split; [tauto | discriminate]].
    destruct (candidates env (Input.companyName c)) as [|l0 links0] eqn:Hc.
    + rewrite (@processCompany_no_results env c w query Hq Hc) in H.
      injection H as <- _. discriminate.
    + destruct (first_match_split env (Input.isinCode c) (l0 :: links0))
        as [Hnone|(pre & l & rest & E & Hpre & Hl)].
      * rewrite (@processCompany_no_match env c w query (l0 :: links0)
                   Hq Hc ltac:(discriminate) Hnone) in H.
        injection H as <- _. discriminate.
      * rewrite E in Hc.
        rewrite (@processCompany_matched env c w query pre l rest
                   Hq Hc Hpre Hl) in H.
        injection H as <- _. discriminate.
  - rewrite (@processCompany_error env c w Hq) in H.
    injection H as <- _. split; reflexivity.
Qed.

(** C2, amended.  A failure that reaches the record boundary (the
    search step throwing, which happens exactly when the company name
    cannot be encoded for the search URL) gives status [error] with the
    failure's message kept on the record; a navigation error or timeout
    while the search page loads is caught inside the search step and
    gives status [no_results] with no error text. *)
Theorem C2_failures_at_the_record_boundary (env : environment)
        (c : company) (w : world) :
  (forall message w1,
      searchCompany env (Input.companyName c) w = (Throw message, w1) ->
      exists r,
        processCompany env c w = (Ret r, w1)
        /\ status r = error
        /\ errorMessage r = Some message)
  /\ (forall query message,
         encodeURIComponent (Input.companyName c) = Some query ->
         search_page env (searchUrl_prefix ++ query) = Failed message ->
         exists r w',
           processCompany env c w = (Ret r, w')
           /\ status r = no_results
           /\ errorMessage r = None)
  /\ (forall r w',
         processCompany env c w = (Ret r, w') ->
         (status r = error
          <-> encodeURIComponent (Input.companyName c) = None)).
Proof.
  split; [|split].
  - intros message w1 H. eexists. split.
    + apply processCompany_throw, H.
    + split; reflexivity.
  - intros query message Hq Hs. eexists _, _. split.
    + eapply processCompany_no_results; [eassumption|].
      eapply candidates_failed; eassumption.
    + split; reflexivity.
  - intros r w'. apply error_status_iff.
Qed.

(** A name with a lone surrogate makes the search step throw, and the
    record is an [error] with the message; Gamma's search times out, and
    the record is [no_results]. *)
Lemma C2_witness :
  (exists r,
      processCompany site broken (initial []) = (Ret r, initial [])
      /\ status r = error
      /\ errorMessage r = Some URIError_message)
  /\ (exists r w',
         processCompany site gamma (initial []) = (Ret r, w')
         /\ status r = no_results
         /\ errorMessage r = None).
Proof.
  split.
  - exact (proj1 (@C2_failures_at_the_record_boundary site broken (initial []))
                 URIError_message (initial []) eq_refl).
  - exact (proj1 (proj2 (@C2_failures_at_the_record_boundary
                          site gamma (initial [])))
                 (js "Gamma")
                 (js "Navigation timeout of 30000 ms exceeded")
                 eq_refl eq_refl).
Defined.

(** C5.  When the third candidate's extraction is the expected
    identifier and the first two candidates' extractions are not, the
    record is [matched] with the third candidate's URL, and extraction
    was run on the three candidates, in order, and on no other. *)
Theorem C5_third_candidate_matches (env : environment) (c : company)
        (query : jsstring) (l1 l2 l3 : link) (rest : list link) (w : world) :
  encodeURIComponent (Input.companyName c) = Some query ->
  search_page env (searchUrl_prefix ++ query) = Loaded (l1 :: l2 :: l3 :: rest) ->
  extracted env (url l1) <> Some (Input.isinCode c) ->
  extracted env (url l2) <> Some (Input.isinCode c) ->
  extracted env (url l3) = Some (Input.isinCode c) ->
  exists r w',
    processCompany env c w = (Ret r, w')
    /\ status r = matched
    /\ matchingURL r = Some (url l3)
    /\ stock_visits (trace w')
       = stock_visits (trace w) ++ [url l1; url l2; url l3].
Proof.
  intros Hq Hs H1 H2 H3. eexists _, _. split.
  - eapply processCompany_matched with (pre := [l1; l2]) (rest := rest).
    + eassumption.
    + exact (@candidates_loaded env _ query _ Hq Hs).
    + repeat constructor; assumption.
    + assumption.
  - cbn [status matchingURL set_status set_matchingURL after trace].
    repeat split.
    rewrite stock_visits_app.
    change (stock_visits (GotoSearch ?u :: ?es)) with (stock_visits es).
    now rewrite stock_visits_visits.
Qed.

(** Delta's search gives D1 (another identifier), D2 (no page), D3 (the
    expected identifier) and D4, which is not visited. *)
Lemma C5_witness :
  exists r w',
    processCompany site delta (initial []) = (Ret r, w')
    /\ status r = matched
    /\ matchingURL r = Some (stock "D3")
    /\ stock_visits (trace w') = [stock "D1"; stock "D2"; stock "D3"].
Proof.
  refine (@C5_third_candidate_matches site delta (js "Delta")
            (a_link "D1") (a_link "D2") (a_link "D3") [a_link "D4"]
            (initial []) eq_refl eq_refl _ _ eq_refl);
    vm_compute; discriminate.
Defined.

(** C7.  When the candidate sequence is not empty and no
    candidate's extraction is the expected identifier, the record is
    [no_match]; the identifier found is the last extraction that gave
    one over the candidates, or none if no extraction did; every
    candidate was visited, in order. *)
Theorem C7_no_match_keeps_last_extraction (env : environment) (c : company)
        (query : jsstring) (links : list link) (w : world) :
  encodeURIComponent (Input.companyName c) = Some query ->
  search_page env (searchUrl_prefix ++ query) = Loaded links ->
  links <> [] ->
  none_matches env (Input.isinCode c) links ->
  exists r w',
    processCompany env c w = (Ret r, w')
    /\ status r = no_match
    /\ foundISIN r = last_found env links
    /\ matchingURL r = None
    /\ stock_visits (trace w') = stock_visits (trace w) ++ map url links.
Proof.
  intros Hq Hs Hne Hnone. eexists _, _. split.
  - eapply processCompany_no_match with (links := links).
    + eassumption.
    + exact (@candidates_loaded env _ query _ Hq Hs).
    + assumption.
    + assumption.
  - cbn [status foundISIN matchingURL set_status set_foundISIN new_result
         after trace].
    repeat split.
    rewrite stock_visits_app.
    change (stock_visits (GotoSearch ?u :: ?es)) with (stock_visits es).
    now rewrite stock_visits_visits.
Qed.

(** Epsilon's search gives D1, whose page shows another identifier, and
    D2, whose page does not load: the record is [no_match] and keeps
    D1's identifier. *)
Lemma C7_witness :
  exists r w',
    processCompany site epsilon (initial []) = (Ret r, w')
    /\ status r = no_match
    /\ foundISIN r = Some (js "GB0000022222")
    /\ matchingURL r = None
    /\ stock_visits (trace w') = [stock "D1"; stock "D2"].
Proof.
  refine (@C7_no_match_keeps_last_extraction site epsilon (js "Epsilon")
            [a_link "D1"; a_link "D2"] (initial []) eq_refl eq_refl _ _).
  - discriminate.
  - repeat constructor; vm_compute; discriminate.
Defined.

End MatchEvaluator.

(* ===================================================================== *)
(** * The batch driver (claims C4, C8 and C10) *)
(* ===================================================================== *)

Section BatchDriver.

Import Examples.

(** C8.  In both variants a run of [processCompanies] from a new
    matcher leaves one result per processed input record, in input
    order; each result names its record, has one of the four final
    statuses (never the initial [not_found]), records an identifier
    only if extraction gave it for one of the record's candidates, and
    records a URL exactly when its status is [matched].
    [src/gurufocus_isin_matcher.js] processes every record and returns.
    The variant with periodic persistence stops at the first refresh of
    the browsing context that fails: the records processed are then
    those before it; it processes every record when it returns, and it
    returns when the browser does what it is asked. *)
Theorem C8_one_final_record_per_input (env : environment)
        (companies : list company) (maxCompanies : option number)
        (disk : list (jsstring * jsstring)) :
  (exists w',
      V1.processCompanies env companies maxCompanies (initial disk)
      = (Ret tt, w')
      /\ Forall2 (record_for env)
                 (companiesToProcess companies maxCompanies) (results w'))
  /\ (exists o w',
         V2.processCompanies env companies maxCompanies (initial disk)
         = (o, w')
         /\ Forall2 (record_for env)
                    (firstn (length (results w'))
                            (companiesToProcess companies maxCompanies))
                    (results w')
         /\ (o = Ret tt ->
             Forall2 (record_for env)
                     (companiesToProcess companies maxCompanies) (results w'))
         /\ (session_holds env -> o = Ret tt)).
Proof.
  split.
  - destruct (V1_loop_spec env (companiesToProcess companies maxCompanies)
                (initial disk)) as (rs & w' & H & R & _ & Hall & _).
    exists w'. split; [exact H|]. now rewrite R.
  - destruct (V2_loop_general env (companiesToProcess companies maxCompanies)
                0 (initial disk)) as (o & rs & w' & H & R & Hall & _ & L & _ & S).
    cbn [initial results app] in R. rewrite <- R in Hall, L.
    exists o, w'. split; [exact H|]. split; [exact Hall|]. split; [|exact S].
    intros Ho. rewrite (L Ho), firstn_all in Hall. exact Hall.
Qed.

(** C10.  [processCompany] always returns a result, and a result whose
    status is [matched] records the expected identifier as the one
    found; so does every matched result of a run, in both variants,
    however the run ends (the variant with periodic persistence returns
    when the browser does what it is asked). *)
Theorem C10_matched_found_is_expected (env : environment)
        (companies : list company) (maxCompanies : option number)
        (disk : list (jsstring * jsstring)) :
  (forall c w,
      exists r w',
        processCompany env c w = (Ret r, w')
        /\ expectedISIN r = Input.isinCode c
        /\ (status r = matched -> foundISIN r = Some (Input.isinCode c)))
  /\ (exists w',
         V1.processCompanies env companies maxCompanies (initial disk)
         = (Ret tt, w')
         /\ Forall found_is_expected (results w'))
  /\ (exists o w',
         V2.processCompanies env companies maxCompanies (initial disk)
         = (o, w')
         /\ Forall found_is_expected (results w')
         /\ (session_holds env -> o = Ret tt)).
Proof.
  split; [|split].
  - intros c w.
    destruct (processCompany_total env c w) as (r & es & H & Hrec & Hf & _).
    exists r, (after w es). split; [exact H|].
    destruct Hrec as (_ & He & _). split; [exact He|].
    intros Hm. rewrite <- He. exact (Hf Hm).
  - destruct (V1_loop_spec env (companiesToProcess companies maxCompanies)
                (initial disk)) as (rs & w' & H & R & _ & _ & Hall).
    exists w'. split; [exact H|]. now rewrite R.
  - destruct (V2_loop_general env (companiesToProcess companies maxCompanies)
                0 (initial disk)) as (o & rs & w' & H & R & _ & Hall & _ & _ & S).
    exists o, w'. split; [exact H|]. split; [now rewrite R | exact S].
Qed.

(** Delta is matched on its third candidate, after another identifier
    was found on the first: the result records the expected one. *)
Lemma C10_witness :
  exists r w',
    processCompany site delta (initial []) = (Ret r, w')
    /\ status r = matched
    /\ foundISIN r = Some (js "US0000033333").
Proof.
  destruct (proj1 (@C10_matched_found_is_expected site [] None [])
                  delta (initial [])) as (r & w' & H & _ & Hm).
  exists r, w'. split; [exact H|].
  assert (Hs : status r = matched).
  { vm_compute in H. injection H as <- _. reflexivity. }
  split; [exact Hs | exact (Hm Hs)].
Defined.

(** The parts of a list around its element of index [n]. *)
Lemma split_at (A : Type) (l : list A) (n : nat) :
  (n < length l)%nat ->
  exists a x b, l = a ++ x :: b /\ length a = n
                /\ firstn (S n) l = a ++ [x] /\ skipn (S n) l = b.
Proof.
  revert n; induction l as [|y l IH]; intros n Hn; simpl in Hn; [lia|].
  destruct n as [|n].
  - exists [], y, l. auto.
  - destruct (IH n) as (a & x & b & -> & <- & Hf & Hs); [lia|].
    exists (y :: a), x, b. repeat split; auto.
    change (firstn (S (S (length a))) (y :: a ++ x :: b))
      with (y :: firstn (S (length a)) (a ++ x :: b)).
    now rewrite Hf.
Qed.

(** C4, the claim as stated fails.  In the variant with periodic
    persistence, ten records of which none is matched leave the matches
    file of an earlier run as it was: nothing is written.  In
    [src/gurufocus_isin_matcher.js] nothing is written during the batch
    although the ten records are matched. *)
Lemma C4_nothing_written_without_a_match :
  (exists w',
      V2.processCompanies site (repeat beta 10) None (initial stale_disk)
      = (Ret tt, w')
      /\ length (results w') = 10%nat
      /\ writes (trace w') = []
      /\ matches_file w' = Some stale_text
      /\ matches_file w' <> Some (matches_text w'))
  /\ (exists w',
         V1.processCompanies site (repeat acme 10) None (initial [])
         = (Ret tt, w')
         /\ length (results w') = 10%nat
         /\ existsb is_matched (results w') = true
         /\ writes (trace w') = []
         /\ matches_file w' = None).
Proof.
  split; eexists; (split; [vm_compute; reflexivity|]).
  - repeat split. vm_compute. discriminate.
  - repeat split.
Qed.

(** C4, amended.  In the variant with periodic persistence, on a disk
    that takes the write, right after the record of index [10 * k]
    (counting from one) completes: if a result so far is matched, the
    matches file holds exactly the header and the rows of the matched
    results so far; if none is, no file has been touched.  The records
    do complete when the browser does what it is asked. *)
Theorem C4_matches_flushed_every_ten (env : environment)
        (todo : list company) (k : nat) (w : world) :
  writable env matches_csv = true ->
  (1 <= k)%nat ->
  (10 * k <= length todo)%nat ->
  exists o w10,
    V2.loop env 0 (firstn (10 * k) todo) w = (o, w10)
    /\ (session_holds env -> o = Ret tt)
    /\ (o = Ret tt ->
        V2.loop env 0 todo w = V2.loop env (10 * k) (skipn (10 * k) todo) w10
        /\ length (results w10) = (length (results w) + 10 * k)%nat
        /\ (existsb is_matched (results w10) = true ->
            matches_file w10 = Some (matches_text w10))
        /\ (existsb is_matched (results w10) = false -> files w10 = files w)).
Proof.
  intros Hw Hk Hlen.
  destruct (@split_at _ todo (10 * k - 1)) as (a & c & b & E & La & Hf & Hs);
    [lia|].
  replace (S (10 * k - 1)) with (10 * k)%nat in Hf, Hs by lia.
  destruct (V2_loop_general env (firstn (10 * k) todo) 0 w)
    as (o & rs & w10 & Hrun & _ & _ & _ & _ & _ & Hholds).
  exists o, w10. split; [exact Hrun|]. split; [exact Hholds|].
  intros ->. rewrite Hf, Hs in *.
  destruct (V2_loop_general env a 0 w)
    as (o1 & rs1 & w1 & H1 & R1 & Hall & _ & L1 & F1 & _).
  destruct (V2_iteration_general env (10 * k - 1) c w1)
    as (o2 & w2 & H2 & _ & P2).
  assert (Hrun' : V2.loop env 0 (a ++ [c]) w = (o2, w2) /\ o1 = Ret tt).
  { rewrite V2_loop_app in Hrun. unfold bind at 1 in Hrun.
    rewrite V2_loop_app. unfold bind at 1.
    rewrite H1 in Hrun |- *. destruct o1 as [[]|m1]; [|discriminate].
    cbn [V2.loop Nat.add]. rewrite La. unfold bind, ret. rewrite H2.
    split; [now destruct o2 as [[]|]|reflexivity]. }
  destruct Hrun' as [Hrun' ->]. rewrite Hrun in Hrun'.
  injection Hrun' as <- <-.
  destruct P2 as (r & R2 & _ & _ & F2).
  replace ((10 * k - 1 + 1) mod 10 =? 0)%nat with true in F2.
  2:{ symmetry. apply Nat.eqb_eq.
      replace (10 * k - 1 + 1)%nat with (k * 10)%nat by lia.
      apply Nat.Div0.mod_mul. }
  rewrite Hw, andb_true_r in F2. cbn [andb] in F2.
  split; [|split; [|split]].
  - rewrite E at 1.
    change (a ++ c :: b) with (a ++ [c] ++ b). rewrite app_assoc.
    rewrite V2_loop_app. unfold bind. rewrite Hrun.
    rewrite length_app, La. cbn [length]. f_equal. lia.
  - rewrite R2, R1, !length_app. cbn [length].
    rewrite (L1 eq_refl). lia.
  - intros Hm. unfold matches_file. rewrite F2, Hm. apply read_set_file.
  - intros Hm. rewrite F2, Hm.
    rewrite R2 in Hm. apply existsb_matched_app in Hm. auto.
Qed.

(** Ten records matched, on an empty disk: after the tenth the file
    holds the header and the ten rows. *)
Lemma C4_witness :
  exists w10,
    V2.loop site 0 (repeat acme 10) (initial []) = (Ret tt, w10)
    /\ length (results w10) = 10%nat
    /\ existsb is_matched (results w10) = true
    /\ matches_file w10 = Some (matches_text w10).
Proof.
  destruct (@C4_matches_flushed_every_ten site (repeat acme 10) 1 (initial [])
              eq_refl (le_n 1) ltac:(simpl; lia))
    as (o & w10 & H & S & P).
  rewrite (S (fun _ _ => eq_refl)) in H.
  destruct (P (S (fun _ _ => eq_refl))) as (_ & L & Hm & _).
  exists w10. split; [exact H|]. split; [exact L|].
  assert (He : existsb is_matched (results w10) = true).
  { vm_compute in H. injection H as <-. reflexivity. }
  split; [exact He | exact (Hm He)].
Defined.

End BatchDriver.

(* ===================================================================== *)
(** * The matches file (claim C3) and the command line (claim C9) *)
(* ===================================================================== *)

Section Outputs.

Import Examples.

(** The matches file, when it is written, is the header followed by one
    row per matched result, in order, and by nothing else; with no
    matched result nothing is written, not even the header. *)
Lemma matches_file_rows (env : environment) (w : world) :
  writable env matches_csv = true ->
  (existsb is_matched (results w) = true ->
   V2.saveMatchesCSV env w = (Ret true, matches_written w)
   /\ matches_file (matches_written w)
      = Some (csvHeader
              ++ join [10%N] (map csv_row (filter is_matched (results w)))))
  /\ (existsb is_matched (results w) = false ->
      V2.saveMatchesCSV env w = (Ret false, w)).
Proof.
  intros Hw. rewrite saveMatchesCSV_run, Hw.
  split; intros ->; cbn [andb]; [|reflexivity].
  split; [reflexivity|]. unfold matches_file. cbn [files matches_written].
  apply read_set_file.
Qed.

(** [saveResults] of [src/gurufocus_isin_matcher.js] writes the same
    text to the matches file. *)
Lemma V1_saveResults_matches (env : environment) (w : world) :
  writable env results_json = true ->
  writable env matches_csv = true ->
  existsb is_matched (results w) = true ->
  matches_file (snd (V1.saveResults env w)) = Some (matches_text w).
Proof.
  intros Hj Hc Hm. unfold V1.saveResults, try_catch, bind, gets.
  unfold writeFileSync at 1. rewrite Hj. cbn [results].
  rewrite csvResults_truthy, Hm.
  unfold writeFileSync. rewrite Hc. cbn [snd].
  unfold matches_file. cbn [files]. apply read_set_file.
Qed.

(** [readCSV] keeps the quote characters of a name. *)
Example readCSV_keeps_quotes :
  readCSV (Some (js "Company,ISIN" ++ [10%N]
                 ++ quoted_name ++ js ",US0000011111" ++ [10%N]))
  = [{| Input.companyName := quoted_name;
        Input.isinCode := js "US0000011111" |}].
Proof. reflexivity. Qed.

(** C3 (defect in the code).  Values holding the separator or the quote
    character are to be quoted in the matches file.  For a matched
    result whose company name is [Acme "Best" Corp], both variants write
    the name as it is, where [saveToCSV] of [utils.js] wraps it in
    quotes and doubles the quotes inside. *)
Theorem C3_quotes_are_written_unescaped :
  let row := js ",US0000011111," ++ stock "ACME" in
  V2.saveMatchesCSV site quoted_world = (Ret true, matches_written quoted_world)
  /\ matches_file (matches_written quoted_world)
     = Some (csvHeader ++ quoted_name ++ row)
  /\ matches_file (snd (V1.saveResults site quoted_world))
     = Some (csvHeader ++ quoted_name ++ row)
  /\ Utils.saveToCSV [quoted_object]
     = Some (csvHeader
             ++ [34%N] ++ js "Acme " ++ [34%N; 34%N] ++ js "Best"
             ++ [34%N; 34%N] ++ js " Corp" ++ [34%N] ++ row).
Proof. vm_compute. repeat split. Qed.

(** With a script path that passes the guard and no further argument,
    the usage text is printed and the process exits with code 1. *)
Lemma cli_missing_argument (node script : jsstring) :
  truthy script && endsWith script (js "gurufocus_isin_matcher.js") = true ->
  cli [node; script] = Exit usage 1.
Proof. intros H. unfold cli. cbn [nth_error]. now rewrite H. Qed.

(** The branch that turns [0] into "all companies" is never reached:
    no command line makes the script call [run(null)]. *)
Lemma cli_never_runs_all (args : list jsstring) (headless : bool) :
  cli args <> Run headless None.
Proof.
  unfold cli. destruct (nth_error args 1) as [script|]; [|discriminate].
  destruct (truthy script && endsWith script _); [|discriminate].
  destruct (nth_error args 2) as [arg|]; [|discriminate].
  destruct (truthy arg); [|discriminate].
  destruct (parseInt arg) as [|z|positive]; [discriminate| |discriminate].
  cbn [truthy_max truthy_num].
  destruct z; cbn; discriminate.
Qed.

(** C9 (defect in the code).  Without the record-count argument the
    usage text is printed and the exit code is 1.  The usage text says
    that [0] processes all companies, and the call of [run] maps [0] to
    [null] for that; but in both variants, whose command line is the
    same text, the argument [0] is falsy and ends in the usage text and
    exit code 1 like a missing one. *)
Theorem C9_zero_shows_usage :
  cli (argv []) = Exit usage 1
  /\ cli (argv ["0"%string]) = Exit usage 1
  /\ cli (argv ["0"%string; "--visible"%string]) = Exit usage 1
  /\ cli (argv ["5"%string]) = Run true (Some (Num 5))
  /\ In "  node gurufocus_isin_matcher.js 0  # Process all companies"%string
        usage.
Proof. vm_compute. repeat split. auto 10. Qed.

End Outputs.

(* ===================================================================== *)
(** * A run on the small site *)
(* ===================================================================== *)

Section Run.

Import Examples.

(** Acme is matched, Beta has no results, the broken name is an error:
    one result each, in that order. *)
Lemma C8_witness :
  (exists w',
      V1.processCompanies site [acme; beta; broken] None (initial [])
      = (Ret tt, w')
      /\ Forall2 (record_for site) [acme; beta; broken] (results w')
      /\ map status (results w') = [matched; no_results; error])
  /\ (exists w',
         V2.processCompanies site [acme; beta; broken] None (initial [])
         = (Ret tt, w')
         /\ Forall2 (record_for site) [acme; beta; broken] (results w')
         /\ map status (results w') = [matched; no_results; error]).
Proof.
  split.
  - destruct (proj1 (@C8_one_final_record_per_input site [acme; beta; broken]
                       None [])) as (w' & H & Hall).
    exists w'. split; [exact H|]. split; [exact Hall|].
    vm_compute in H. injection H as <-. reflexivity.
  - destruct (proj2 (@C8_one_final_record_per_input site [acme; beta; broken]
                       None [])) as (o & w' & H & _ & Hall & S).
    rewrite (S (fun _ _ => eq_refl)) in H.
    exists w'. split; [exact H|]. split; [exact (Hall (S (fun _ _ => eq_refl)))|].
    vm_compute in H. injection H as <-. reflexivity.
Defined.

(** The end-to-end scenario: Acme has one candidate whose page shows
    [ISIN: US0000011111], Beta has none.  Both variants end with a
    matched record for Acme and a [no_results] record for Beta, and a
    matches file of the header and one row, for Acme. *)
Example end_to_end :
  let acme_row :=
    js "Acme Corp,US0000011111," ++ stock "ACME" in
  (exists w',
      V1_run site None (initial scenario_disk) = (Ret tt, w')
      /\ map status (results w') = [matched; no_results]
      /\ map foundISIN (results w') = [Some (js "US0000011111"); None]
      /\ map matchingURL (results w') = [Some (stock "ACME"); None]
      /\ matches_file w' = Some (csvHeader ++ acme_row))
  /\ (exists w',
         V2_run site None (initial scenario_disk) = (Ret tt, w')
         /\ map status (results w') = [matched; no_results]
         /\ map foundISIN (results w') = [Some (js "US0000011111"); None]
         /\ map matchingURL (results w') = [Some (stock "ACME"); None]
         /\ matches_file w' = Some (csvHeader ++ acme_row)).
Proof.
  split; eexists; (split; [vm_compute; reflexivity|]); repeat split.
Qed.

End Run.


(* ===================================================================== *)
(** * Reading the input file *)
(* ===================================================================== *)

Section InputFile.

Import Props.

Lemma includes_cons (sep c : char) (s : jsstring) :
  includes sep (c :: s) = (c =? sep)%N || includes sep s.
Proof. unfold includes. simpl. now rewrite N.eqb_sym. Qed.

Lemma includes_app (sep : char) (a b : jsstring) :
  includes sep (a ++ b) = includes sep a || includes sep b.
Proof. unfold includes. apply existsb_app. Qed.

Lemma split_not_nil (sep : char) (s : jsstring) : split sep s <> [].
Proof.
  destruct s as [|c t]; simpl; [discriminate|].
  destruct (c =? sep)%N; [discriminate|].
  destruct (split sep t); discriminate.
Qed.

(** The pieces of a split hold no separator. *)
Lemma split_no_sep (sep : char) (s : jsstring) :
  Forall (fun f => includes sep f = false) (split sep s).
Proof.
  induction s as [|c t IH]; simpl.
  - repeat constructor.
  - destruct (c =? sep)%N eqn:E.
    + constructor; [reflexivity | exact IH].
    + destruct (split sep t) as [|h r].
      * constructor; [|constructor]. now rewrite includes_cons, E.
      * inversion IH as [|? ? Hh Hr]; subst. constructor; [|assumption].
        now rewrite includes_cons, E, Hh.
Qed.

(** The pieces of a split are made of units of the text. *)
Lemma split_Forall (P : char -> Prop) (sep : char) (s : jsstring) :
  Forall P s -> Forall (Forall P) (split sep s).
Proof.
  induction 1 as [|c t Hc Ht IH]; simpl.
  - repeat constructor.
  - destruct (c =? sep)%N.
    + constructor; [constructor | exact IH].
    + destruct (split sep t) as [|h r]; [repeat constructor; assumption|].
      inversion IH; subst. constructor; [constructor|]; assumption.
Qed.

Lemma split_single (sep : char) (s : jsstring) :
  includes sep s = false -> split sep s = [s].
Proof.
  induction s as [|c t IH]; [reflexivity|].
  rewrite includes_cons, orb_false_iff. intros [E H].
  simpl. now rewrite E, (IH H).
Qed.

Lemma split_app (sep : char) (a b : jsstring) :
  includes sep a = false ->
  split sep (a ++ sep :: b) = a :: split sep b.
Proof.
  induction a as [|c t IH].
  - intros _. simpl. now rewrite N.eqb_refl.
  - rewrite includes_cons, orb_false_iff. intros [E H].
    simpl. now rewrite E, (IH H).
Qed.

(** Splitting what was joined gives the pieces back. *)
Lemma split_join (sep : char) (fs : list jsstring) :
  fs <> [] ->
  Forall (fun f => includes sep f = false) fs ->
  split sep (join [sep] fs) = fs.
Proof.
  induction fs as [|f fs IH]; [congruence|].
  intros _ H. inversion H as [|? ? Hf Hfs]; subst.
  destruct fs as [|g fs].
  - simpl. now apply split_single.
  - change (join [sep] (f :: g :: fs)) with (f ++ sep :: join [sep] (g :: fs)).
    rewrite split_app by assumption.
    now rewrite IH by (auto; discriminate).
Qed.

(** ** [trim] *)

Lemma trimStart_clean (s : jsstring) : starts_clean (trimStart s).
Proof.
  induction s as [|c t IH]; simpl; [exact I|].
  destruct (is_space c) eqn:E; [exact IH | exact E].
Qed.

Lemma trimStart_id (s : jsstring) : starts_clean s -> trimStart s = s.
Proof. destruct s as [|c t]; simpl; [reflexivity | now intros ->]. Qed.

Lemma trimStart_suffix (s : jsstring) :
  exists p, s = p ++ trimStart s /\ forallb is_space p = true.
Proof.
  induction s as [|c t (p & E & H)]; simpl.
  - exists []; auto.
  - destruct (is_space c) eqn:Ec.
    + exists (c :: p); simpl. rewrite Ec, H. split; [congruence | reflexivity].
    + exists []; auto.
Qed.

Lemma trimStart_nil (s : jsstring) :
  trimStart s = [] <-> forallb is_space s = true.
Proof.
  induction s as [|c t IH]; simpl; [tauto|].
  destruct (is_space c); simpl; [exact IH|].
  split; discriminate.
Qed.

Lemma starts_clean_app (a b : jsstring) :
  a <> [] -> starts_clean (a ++ b) <-> starts_clean a.
Proof. destruct a; [congruence | simpl; tauto]. Qed.

(** What [trim] gives has no white space at either end. *)
Lemma trim_clean (s : jsstring) :
  starts_clean (trim s) /\ starts_clean (rev (trim s)).
Proof.
  unfold trim. set (a := trimStart s).
  pose proof (trimStart_clean s) as Ha. fold a in Ha.
  destruct (trimStart_suffix (rev a)) as (p & E & Hp).
  set (b := trimStart (rev a)) in *.
  split.
  - destruct b as [|x b'] eqn:Eb; [exact I|].
    assert (Ea : a = rev (x :: b') ++ rev p).
    { rewrite <- rev_app_distr, <- E. symmetry. apply rev_involutive. }
    rewrite Ea in Ha. apply starts_clean_app in Ha; [exact Ha|].
    simpl. destruct (rev b'); discriminate.
  - rewrite rev_involutive. apply trimStart_clean.
Qed.

Lemma trim_id (s : jsstring) :
  starts_clean s -> starts_clean (rev s) -> trim s = s.
Proof.
  intros H1 H2. unfold trim.
  now rewrite (trimStart_id _ H1), (trimStart_id _ H2), rev_involutive.
Qed.

Lemma trim_idempotent (s : jsstring) : trim (trim s) = trim s.
Proof. apply trim_id; apply trim_clean. Qed.

Lemma trim_Forall (P : char -> Prop) (s : jsstring) :
  Forall P s -> Forall P (trim s).
Proof.
  assert (T : forall x, Forall P x -> Forall P (trimStart x)).
  { intros x Hx. destruct (trimStart_suffix x) as (p & E & _).
    rewrite E in Hx. apply Forall_app in Hx. tauto. }
  intros H. unfold trim. apply Forall_rev, T, Forall_rev, T, H.
Qed.

Lemma trim_nil (s : jsstring) :
  trim s = [] <-> forallb is_space s = true.
Proof.
  unfold trim. split.
  - intros H.
    assert (H' : trimStart (rev (trimStart s)) = []).
    { rewrite <- (rev_involutive (trimStart _)), H. reflexivity. }
    apply trimStart_nil in H'.
    destruct (trimStart s) as [|c t] eqn:E; [now apply trimStart_nil|].
    pose proof (trimStart_clean s) as Hc. rewrite E in Hc. simpl in Hc.
    rewrite forallb_forall in H'.
    rewrite (H' c) in Hc; [discriminate|].
    apply in_rev. rewrite rev_involutive. left; reflexivity.
  - intros H. apply trimStart_nil in H. now rewrite H.
Qed.

Lemma includes_Forall (sep : char) (s : jsstring) :
  includes sep s = false <-> Forall (fun c => c <> sep) s.
Proof.
  induction s as [|c t IH].
  - split; [constructor | reflexivity].
  - rewrite includes_cons, orb_false_iff, IH, N.eqb_neq.
    split; [intros []; constructor; auto | intros H; inversion H; auto].
Qed.

Lemma clean_field_iff (f : jsstring) :
  clean_field f = true
  <-> f <> [] /\ trim f = f
      /\ includes 44%N f = false /\ includes 10%N f = false.
Proof.
  unfold clean_field.
  rewrite !andb_true_iff, !negb_true_iff, str_eqb_eq.
  destruct f; simpl; intuition congruence.
Qed.

Lemma field_clean (values : list jsstring) (i : nat) :
  Forall (fun v => includes 44%N v = false /\ includes 10%N v = false) values ->
  truthy (field values i) = true ->
  clean_field (field values i) = true.
Proof.
  intros Hall Ht. unfold field in *.
  destruct (nth_error values i) as [v|] eqn:E; [|discriminate].
  apply nth_error_In in E. rewrite Forall_forall in Hall.
  destruct (Hall v E) as [H44 H10].
  apply clean_field_iff. repeat split.
  - intros N. now rewrite N in Ht.
  - apply trim_idempotent.
  - apply includes_Forall, trim_Forall, includes_Forall, H44.
  - apply includes_Forall, trim_Forall, includes_Forall, H10.
Qed.

(** X1.  Every record [readCSV] returns has a company name and an
    identifier that are not empty, carry no white space at either end,
    and hold no comma and no line feed: a name written with a comma
    inside quotes is cut at the comma. *)
Theorem X1_readCSV_fields_are_clean (data : option jsstring) (c : company) :
  In c (readCSV data) -> clean_company c = true.
Proof.
  unfold readCSV. destruct data as [data|]; [|intros []].
  destruct (filter _ (split 10%N data)) as [|header rows] eqn:E; [intros []|].
  intros H. apply filter_In in H as [H Ht].
  apply in_map_iff in H as (line & <- & Hline).
  simpl in Ht. apply andb_true_iff in Ht as [T0 T1].
  assert (Hl : includes 10%N line = false).
  { pose proof (split_no_sep 10%N data) as Hs. rewrite Forall_forall in Hs.
    apply Hs.
    assert (Hin : In line (header :: rows)) by (right; exact Hline).
    rewrite <- E in Hin. apply filter_In in Hin. tauto. }
  assert (Hv : Forall (fun v => includes 44%N v = false
                                /\ includes 10%N v = false)
                      (split 44%N line)).
  { pose proof (split_no_sep 44%N line) as H44.
    pose proof (@split_Forall (fun c => c <> 10%N) 44%N line
                  (proj1 (includes_Forall _ _) Hl)) as H10.
    rewrite Forall_forall in *. intros v Hin. split; [now apply H44|].
    apply includes_Forall. now apply H10. }
  unfold clean_company. cbn [Input.companyName Input.isinCode].
  now rewrite !field_clean.
Qed.

End InputFile.

Section InputFileRoundTrip.

Import Props.

Lemma csv_line_no_newline (c : company) :
  clean_company c = true -> includes 10%N (csv_line c) = false.
Proof.
  unfold clean_company. rewrite andb_true_iff, !clean_field_iff.
  intros [(_ & _ & _ & Hn) (_ & _ & _ & Hi)].
  unfold csv_line. now rewrite !includes_app, Hn, Hi.
Qed.

Lemma csv_line_not_blank (c : company) :
  clean_company c = true -> str_eqb (trim (csv_line c)) [] = false.
Proof.
  unfold clean_company. rewrite andb_true_iff, !clean_field_iff.
  intros [(Hne & Ht & _) _].
  apply str_eqb_neq. intros H. apply trim_nil in H.
  unfold csv_line in H. rewrite forallb_app in H.
  apply andb_true_iff in H as [H _].
  apply trim_nil in H. congruence.
Qed.

Lemma csv_line_fields (c : company) :
  clean_company c = true ->
  {| Input.companyName := field (split 44%N (csv_line c)) 0;
     Input.isinCode := field (split 44%N (csv_line c)) 1 |} = c.
Proof.
  unfold clean_company. rewrite andb_true_iff, !clean_field_iff.
  intros [(_ & Tn & Cn & _) (_ & Ti & Ci & _)].
  unfold csv_line.
  change (Input.companyName c ++ [44%N] ++ Input.isinCode c)
    with (join [44%N] [Input.companyName c; Input.isinCode c]).
  rewrite split_join by (try discriminate; repeat constructor; assumption).
  unfold field. cbn [nth_error]. rewrite Tn, Ti. now destruct c.
Qed.

Lemma clean_company_truthy (c : company) :
  clean_company c = true ->
  truthy (Input.companyName c) && truthy (Input.isinCode c) = true.
Proof.
  unfold clean_company, clean_field. rewrite !andb_true_iff. tauto.
Qed.

(** X2.  A file made of a header line and one line [name,identifier]
    per record is read back as exactly those records, in order, when
    the header is not blank and holds no line feed and every name and
    identifier is not empty, has no white space at either end and holds
    no comma and no line feed. *)
Theorem X2_readCSV_reads_back (header : jsstring) (cs : list company) :
  includes 10%N header = false ->
  forallb is_space header = false ->
  forallb clean_company cs = true ->
  readCSV (Some (csv_text header cs)) = cs.
Proof.
  intros Hh Hb Hcs. rewrite forallb_forall in Hcs.
  unfold readCSV, csv_text.
  rewrite split_join; [|discriminate|].
  2:{ constructor; [exact Hh|]. apply Forall_forall. intros l Hl.
      apply in_map_iff in Hl as (c & <- & Hc).
      apply csv_line_no_newline, Hcs, Hc. }
  cbn [filter].
  replace (str_eqb (trim header) []) with false.
  2:{ symmetry. apply str_eqb_neq. intros H. apply trim_nil in H. congruence. }
  cbn [negb].
  assert (F : filter (fun line : jsstring => negb (str_eqb (trim line) []))
                     (map csv_line cs) = map csv_line cs).
  { apply forallb_filter_id, forallb_forall. intros l Hl.
    apply in_map_iff in Hl as (c & <- & Hc).
    pose proof (csv_line_not_blank c (Hcs c Hc)) as Hn.
    unfold jsstring, char in *. now rewrite Hn. }
  rewrite F. clear F.
  rewrite map_map.
  induction cs as [|c cs IH]; [reflexivity|].
  cbn [map filter].
  rewrite csv_line_fields by (apply Hcs; left; reflexivity).
  rewrite clean_company_truthy by (apply Hcs; left; reflexivity).
  f_equal. apply IH. intros x Hx. apply Hcs. now right.
Qed.

(** X3.  The first non-blank line is dropped as the header whatever it
    holds: a file that cannot be read, and a text of one line only (be
    it a data row), give no record. *)
Theorem X3_readCSV_drops_the_first_line (data : jsstring) :
  includes 10%N data = false ->
  readCSV (Some data) = [] /\ readCSV None = [].
Proof.
  intros H. split; [|reflexivity].
  unfold readCSV. rewrite split_single by assumption.
  cbn [filter]. destruct (negb _); reflexivity.
Qed.

End InputFileRoundTrip.

(* ===================================================================== *)
(** * The search step *)
(* ===================================================================== *)

Section SearchStep.

Import Props.

Lemma unreserved_not_surrogate (c : char) :
  uriUnreserved c = true ->
  is_low_surrogate c = false /\ is_high_surrogate c = false.
Proof.
  intros H.
  assert (Hc : (c < 128)%N).
  { unfold uriUnreserved in H. apply orb_true_iff in H as [H|H].
    - unfold upper, lower, digit in H.
      repeat (apply orb_true_iff in H as [H|H]);
        apply andb_true_iff in H as [_ H]; apply N.leb_le in H; lia.
    - apply existsb_exists in H as (x & Hin & Hx).
      apply N.eqb_eq in Hx. subst x. simpl in Hin.
      repeat (destruct Hin as [<-|Hin]; [lia|]). contradiction. }
  unfold is_low_surrogate, is_high_surrogate.
  split; apply andb_false_iff; left; apply N.leb_gt; lia.
Qed.

(** [encodeURIComponent] throws exactly on a text with a lone
    surrogate. *)
Lemma encodeURIComponent_fails_iff (s : jsstring) :
  encodeURIComponent s = None <-> utf16_ok s = false.
Proof.
  assert (G : forall n s, (length s <= n)%nat ->
                          (encodeURIComponent s = None <-> utf16_ok s = false)).
  { clear s. induction n as [|n IH]; intros s Hn.
    - destruct s; [simpl; split; discriminate | simpl in Hn; lia].
    - destruct s as [|c t]; [simpl; split; discriminate|].
      simpl in Hn. cbn [encodeURIComponent utf16_ok].
      assert (M : forall (f : jsstring -> jsstring) x,
                 option_map f (encodeURIComponent x) = None
                 <-> encodeURIComponent x = None).
      { intros f x. destruct (encodeURIComponent x); simpl; split; congruence. }
      destruct (uriUnreserved c) eqn:U.
      + destruct (unreserved_not_surrogate c U) as [-> ->].
        rewrite M. apply IH. lia.
      + destruct (is_low_surrogate c); [tauto|].
        destruct (is_high_surrogate c).
        * destruct t as [|d t']; [tauto|].
          destruct (is_low_surrogate d); [|tauto].
          cbn [andb]. rewrite M. apply IH. simpl in Hn. lia.
        * rewrite M. apply IH. lia. }
  apply (G (length s)). lia.
Qed.

Lemma hex_digit_safe (d : N) : (d < 16)%N -> url_safe (hex_digit d) = true.
Proof.
  intros H. unfold hex_digit, url_safe, uriUnreserved.
  destruct (N.ltb_spec d 10).
  - replace (digit (48 + d)%N) with true; [now rewrite !orb_true_r|].
    symmetry. unfold digit. apply andb_true_iff; split; apply N.leb_le; lia.
  - replace (upper (55 + d)%N) with true; [reflexivity|].
    symmetry. unfold upper. apply andb_true_iff; split; apply N.leb_le; lia.
Qed.

Lemma percent_safe (octets : list N) :
  Forall (fun b => (b < 256)%N) octets ->
  forallb url_safe (percent octets) = true.
Proof.
  induction 1 as [|b bs Hb _ IH]; [reflexivity|].
  change (percent (b :: bs))
    with ([37%N; hex_digit (b / 16); hex_digit (b mod 16)] ++ percent bs).
  rewrite forallb_app. unfold jsstring, char in *. rewrite IH.
  cbn [forallb]. rewrite !hex_digit_safe.
  - reflexivity.
  - apply N.mod_lt. discriminate.
  - apply N.Div0.div_lt_upper_bound. lia.
Qed.

Lemma utf8_octets (cp : N) :
  (cp < 0x110000)%N -> Forall (fun b => (b < 256)%N) (utf8 cp).
Proof.
  intros H. unfold utf8.
  assert (M : forall x, (x mod 64 < 64)%N) by (intros; apply N.mod_lt; discriminate).
  destruct (N.ltb_spec cp 0x80); [repeat constructor; lia|].
  destruct (N.ltb_spec cp 0x800).
  { assert (cp / 64 < 32)%N by (apply N.Div0.div_lt_upper_bound; lia).
    pose proof (M cp). repeat constructor; lia. }
  destruct (N.ltb_spec cp 0x10000).
  { assert (cp / 4096 < 16)%N by (apply N.Div0.div_lt_upper_bound; lia).
    pose proof (M cp). pose proof (M (cp / 64)%N). repeat constructor; lia. }
  assert (cp / 262144 < 5)%N by (apply N.Div0.div_lt_upper_bound; lia).
  pose proof (M cp). pose proof (M (cp / 64)%N). pose proof (M (cp / 4096)%N).
  repeat constructor; lia.
Qed.

(** What [encodeURIComponent] gives holds unreserved units, percent
    signs and hexadecimal digits only. *)
Lemma encodeURIComponent_safe (s : jsstring) :
  Forall (fun c => (c < 65536)%N) s ->
  forall query, encodeURIComponent s = Some query ->
                forallb url_safe query = true.
Proof.
  assert (G : forall n s, (length s <= n)%nat ->
              Forall (fun c => (c < 65536)%N) s ->
              forall query, encodeURIComponent s = Some query ->
                            forallb url_safe query = true).
  { clear s. induction n as [|n IH]; intros s Hn Hs query.
    - destruct s; [|simpl in Hn; lia]. simpl. now intros [= <-].
    - destruct s as [|c t]; [simpl; now intros [= <-]|].
      simpl in Hn. inversion Hs as [|? ? Hc Ht]; subst.
      cbn [encodeURIComponent].
      destruct (uriUnreserved c) eqn:U.
      + destruct (encodeURIComponent t) as [q|] eqn:E; [|discriminate].
        intros [= <-]. cbn [forallb]. unfold url_safe at 1. rewrite U.
        apply (IH t); auto; lia.
      + destruct (is_low_surrogate c); [discriminate|].
        destruct (is_high_surrogate c) eqn:Hi.
        * destruct t as [|d t']; [discriminate|].
          destruct (is_low_surrogate d) eqn:Lo; [|discriminate].
          destruct (encodeURIComponent t') as [q|] eqn:E; [|discriminate].
          intros [= <-]. rewrite forallb_app.
          inversion Ht; subst.
          rewrite (IH t') with (query := q); auto; [|simpl in Hn; lia].
          rewrite percent_safe; [reflexivity|].
          apply utf8_octets. unfold code_point.
          unfold is_high_surrogate in Hi. unfold is_low_surrogate in Lo.
          apply andb_true_iff in Hi as [B1 B2]. apply andb_true_iff in Lo as [B3 B4].
          apply N.leb_le in B1, B2, B3, B4. lia.
        * destruct (encodeURIComponent t) as [q|] eqn:E; [|discriminate].
          intros [= <-]. rewrite forallb_app.
          rewrite (IH t) with (query := q); auto; [|lia].
          rewrite percent_safe; [reflexivity|].
          apply utf8_octets. lia. }
  intros Hs. apply (G (length s)); auto.
Qed.

(** X4.  For a company name of UTF-16 code units: on a name with a lone
    surrogate [searchCompany] throws before any navigation; on any
    other name it does not throw, makes exactly one navigation, to the
    search endpoint followed by a query of unreserved characters,
    percent signs and hexadecimal digits only, and returns the links of
    the page, or no link when the navigation fails. *)
Theorem X4_searchCompany_outcomes (env : environment) (name : jsstring)
        (w : world) :
  Forall (fun c => (c < 65536)%N) name ->
  (utf16_ok name = false ->
   searchCompany env name w = (Throw URIError_message, w))
  /\ (utf16_ok name = true ->
      exists query links,
        searchCompany env name w
        = (Ret links, after w [GotoSearch (searchUrl_prefix ++ query)])
        /\ forallb url_safe query = true
        /\ (forall message,
               search_page env (searchUrl_prefix ++ query) = Failed message ->
               links = [])
        /\ (forall found,
               search_page env (searchUrl_prefix ++ query) = Loaded found ->
               links = found)).
Proof.
  intros Hu. rewrite search_run. split; intros Hok.
  - apply encodeURIComponent_fails_iff in Hok. now rewrite Hok.
  - destruct (encodeURIComponent name) as [query|] eqn:E.
    + exists query, (candidates env name). split; [reflexivity|].
      split; [eapply encodeURIComponent_safe; eauto|].
      split; intros x Hx.
      * eapply candidates_failed; eauto.
      * eapply candidates_loaded; eauto.
    + apply encodeURIComponent_fails_iff in E. congruence.
Qed.

End SearchStep.

(* ===================================================================== *)
(** * More on the text extractor *)
(* ===================================================================== *)

Section ExtractorShape.

Import Props.

Lemma method_values_shape (p : page) (v : jsstring) :
  value_of (method1 p) = Some v \/ value_of (method2 p) = Some v
  \/ value_of (method3 p) = Some v ->
  code_shape ignoreCase v = true.
Proof.
  unfold method1, method2, method3.
  intros [H|[H|H]]; destruct (body_innerText p); simpl in H; try discriminate.
  - apply tier1_sound in H as (pre & s & _ & lbl & ws1 & ws2 & post & H). tauto.
  - eapply well_formed_ignoreCase, tier2_well_formed; eauto.
  - eapply well_formed_ignoreCase, tier3_well_formed; eauto.
  - eapply well_formed_ignoreCase, tier3_well_formed; eauto.
Qed.

(** X5.  Extraction never throws and touches neither the results nor
    the disk; what it returns, if not [null], is a string of twelve
    units, two letters followed by ten letters or digits (ASCII, in
    either case). *)
Theorem X5_extraction_returns_a_code_or_null (env : environment)
        (url : jsstring) (w : world) :
  exists v w',
    extractISINFromPage env url w = (Ret v, w')
    /\ results w' = results w
    /\ files w' = files w
    /\ match v with
       | Some found => code_shape ignoreCase found = true
       | None => True
       end.
Proof.
  destruct (stock_page env url) as [p|message] eqn:Hp.
  - eexists _, _. split; [apply (@extract_loaded env url p w Hp)|].
    split; [reflexivity|]. split; [reflexivity|].
    cbn [first_success].
    destruct (value_of (method1 p)) as [v1|] eqn:E1.
    { apply (method_values_shape p). auto. }
    destruct (value_of (method2 p)) as [v2|] eqn:E2.
    { apply (method_values_shape p). auto. }
    destruct (value_of (method3 p)) as [v3|] eqn:E3; [|exact I].
    apply (method_values_shape p). auto.
  - eexists _, _. split; [apply (@extract_failed env url message w Hp)|].
    repeat split.
Qed.

(** X6.  On a stock page that does not load, extraction returns [null]
    without evaluating any method.  On a document without a body,
    methods 1 and 2 throw and are caught, all three methods are
    evaluated, and the value is method 3's, from the element texts. *)
Theorem X6_pages_that_fail (env : environment) (url : jsstring) (w : world) :
  (forall message,
      stock_page env url = Failed message ->
      extractISINFromPage env url w = (Ret None, after w [GotoStock url]))
  /\ (forall p,
         stock_page env url = Loaded p ->
         body_innerText p = None ->
         extractISINFromPage env url w
         = (Ret (tier3 (element_texts p)),
            after w [GotoStock url; Evaluate Method1; Evaluate Method2;
                     Evaluate Method3])).
Proof.
  split.
  - intros message Hp. exact (@extract_failed env url message w Hp).
  - intros p Hp Hb. rewrite (@extract_loaded env url p w Hp).
    unfold method1, method2, method3. rewrite Hb. cbn.
    now destruct (tier3 (element_texts p)).
Qed.

(** With the [g] flag and index 0, as without the flag: the leftmost
    match. *)
Lemma match_g_first (r : regex) (s : jsstring) :
  hd_error (match_g_from r s 0) = option_map fst (exec r s).
Proof.
  induction s as [|c t IH]; simpl.
  - destruct (match_at r []) as [[s' g]|]; reflexivity.
  - destruct (match_at r (c :: t)) as [[s' g]|]; [reflexivity | exact IH].
Qed.

Lemma tier2_exec (text : jsstring) :
  tier2 text = option_map fst (exec bare_isin text).
Proof.
  unfold tier2, match_g. rewrite <- match_g_first.
  destruct (match_g_from bare_isin text 0); reflexivity.
Qed.

Lemma bare_match (token post : jsstring) :
  well_formed token = true ->
  match_at bare_isin (token ++ post) = Some (post, Some token).
Proof.
  intros H. unfold match_at, bare_isin.
  now rewrite code_group_complete.
Qed.

(** X7.  Method 2 returns a token exactly when the text holds a run of
    two upper-case letters and ten upper-case letters or digits, and
    then returns such a run of the text; the run need not stand alone:
    a text that starts with a well-formed token gives that token
    whatever follows it. *)
Theorem X7_method2_finds_bare_tokens (text token post : jsstring) :
  (tier2 text = Some token -> contains_bare text token)
  /\ (contains_bare text token ->
      exists found, tier2 text = Some found /\ contains_bare text found)
  /\ (well_formed token = true -> tier2 (token ++ post) = Some token).
Proof.
  assert (S : forall t c, tier2 t = Some c -> contains_bare t c).
  { intros t c. rewrite tier2_exec.
    destruct (exec bare_isin t) as [[m g]|] eqn:E; [|discriminate].
    intros [= <-].
    apply exec_sound in E as (pre & s & s' & -> & Hm & ->).
    apply bare_match_at in Hm as (code & -> & _ & Hc).
    rewrite consumed_app. exists pre, s'. auto. }
  split; [apply S|]. split.
  - intros (pre & post' & -> & Hw).
    pose proof (@bare_match token post' Hw) as Hm.
    apply exec_complete with (pre := pre) in Hm as [[m g] E].
    assert (T : tier2 (pre ++ token ++ post') = Some m).
    { rewrite tier2_exec. unfold jsstring, char in *. now rewrite E. }
    exists m. split; [exact T | apply S, T].
  - intros Hw. rewrite tier2_exec.
    pose proof (@bare_match token post Hw) as Hm.
    apply exec_here in Hm. unfold jsstring, char in *.
    rewrite Hm. cbn. now rewrite consumed_app.
Qed.

(** X8.  Method 1 returns an identifier exactly when the text holds a
    labelled one (the label in any case, white space, a colon, white
    space, twelve units of the identifier's shape in any case), and
    what it returns is a labelled identifier of the text. *)
Theorem X8_method1_finds_labelled_identifiers (text code : jsstring) :
  (tier1 text = Some code -> contains_labelled text code)
  /\ (contains_labelled text code ->
      exists found, tier1 text = Some found /\ contains_labelled text found).
Proof.
  split; [apply tier1_sound|].
  intros H. destruct (@tier1_complete text code H) as [found Hf].
  exists found. split; [exact Hf | apply tier1_sound, Hf].
Qed.

End ExtractorShape.

(* ===================================================================== *)
(** * More on the match evaluator *)
(* ===================================================================== *)

Section Evaluator.

Import Props.

(** X9.  The first candidate whose extraction equals the expected
    identifier decides, at whatever position it stands: the record is
    [matched] with that candidate's URL and the expected identifier,
    the candidates before it were visited in order, and no candidate
    after it is visited. *)
Theorem X9_first_match_wins (env : environment) (c : company)
        (query : jsstring) (pre : list link) (l : link) (rest : list link)
        (w : world) :
  encodeURIComponent (Input.companyName c) = Some query ->
  search_page env (searchUrl_prefix ++ query) = Loaded (pre ++ l :: rest) ->
  none_matches env (Input.isinCode c) pre ->
  extracted env (url l) = Some (Input.isinCode c) ->
  exists r w',
    processCompany env c w = (Ret r, w')
    /\ status r = matched
    /\ matchingURL r = Some (url l)
    /\ foundISIN r = Some (Input.isinCode c)
    /\ errorMessage r = None
    /\ stock_visits (trace w')
       = stock_visits (trace w) ++ map url pre ++ [url l].
Proof.
  intros Hq Hs Hpre Hl. eexists _, _. split.
  - eapply processCompany_matched with (pre := pre) (rest := rest).
    + eassumption.
    + exact (@candidates_loaded env _ query _ Hq Hs).
    + assumption.
    + assumption.
  - cbn [status matchingURL foundISIN errorMessage set_status
         set_matchingURL set_foundISIN new_result after trace].
    repeat split.
    rewrite stock_visits_app.
    change (stock_visits (GotoSearch ?u :: ?es)) with (stock_visits es).
    now rewrite stock_visits_visits, map_app.
Qed.

(** X10.  When the search gives no link, be it that the page shows
    none or that it did not load, the record is [no_results] with no
    identifier, no URL and no error text, and no stock page is visited:
    the only event is the navigation to the search page. *)
Theorem X10_no_candidates_no_extraction (env : environment) (c : company)
        (query : jsstring) (w : world) :
  encodeURIComponent (Input.companyName c) = Some query ->
  search_page env (searchUrl_prefix ++ query) = Loaded []
  \/ (exists message,
         search_page env (searchUrl_prefix ++ query) = Failed message) ->
  processCompany env c w
  = (Ret {| companyName := Input.companyName c;
            expectedISIN := Input.isinCode c;
            foundISIN := None;
            matchingURL := None;
            status := no_results;
            errorMessage := None |},
     after w [GotoSearch (searchUrl_prefix ++ query)]).
Proof.
  intros Hq Hs.
  apply processCompany_no_results; [assumption|].
  destruct Hs as [Hs|[message Hs]].
  - exact (@candidates_loaded env _ query _ Hq Hs).
  - exact (@candidates_failed env _ query message Hq Hs).
Qed.

End Evaluator.

(* ===================================================================== *)
(** * More on the batch driver *)
(* ===================================================================== *)

Section BatchTrace.

Import Props.

Variable env : environment.

Lemma browsing_evaluate (ms : list method) :
  forallb browsing (map Evaluate ms) = true.
Proof. induction ms; simpl; auto. Qed.

Lemma browsing_extract (u : jsstring) :
  forallb browsing (extract_events env u) = true.
Proof.
  unfold extract_events.
  destruct (stock_page env u) as [p|message] eqn:Hp.
  - rewrite (@extract_loaded env _ p _ Hp). cbn [snd after trace initial app].
    cbn [forallb browsing andb]. apply browsing_evaluate.
  - rewrite (@extract_failed env _ message _ Hp). reflexivity.
Qed.

Lemma browsing_visits (links : list link) :
  forallb browsing (visits env links) = true.
Proof.
  unfold visits. induction links as [|l links IH]; [reflexivity|].
  cbn [flat_map]. now rewrite forallb_app, browsing_extract, IH.
Qed.

(** The events of [processCompany] are navigations and evaluations. *)
Lemma processCompany_events (c : company) (w : world) :
  exists r es,
    processCompany env c w = (Ret r, after w es)
    /\ forallb browsing es = true.
Proof.
  destruct (encodeURIComponent (Input.companyName c)) as [query|] eqn:Hq.
  - destruct (candidates env (Input.companyName c)) as [|l0 links0] eqn:Hc.
    + eexists _, _. split; [eapply processCompany_no_results; eassumption|].
      reflexivity.
    + destruct (first_match_split env (Input.isinCode c) (l0 :: links0))
        as [Hnone|(pre & l & rest & E & Hpre & Hl)].
      * eexists _, _. split.
        { eapply processCompany_no_match with (links := l0 :: links0);
            eauto; discriminate. }
        cbn [forallb browsing andb]. apply browsing_visits.
      * eexists _, _. split.
        { eapply processCompany_matched with (pre := pre) (rest := rest);
            eauto; congruence. }
        cbn [forallb browsing andb]. apply browsing_visits.
  - exists (set_error URIError_message (set_status error (new_result c))), [].
    rewrite after_nil. split; [now apply processCompany_error | reflexivity].
Qed.

Lemma refreshes_app (a b : list event) :
  refreshes (a ++ b) = (refreshes a + refreshes b)%nat.
Proof. unfold refreshes. now rewrite filter_app, length_app. Qed.

Lemma writes_app (a b : list event) : writes (a ++ b) = writes a ++ writes b.
Proof. apply flat_map_app. Qed.

Lemma browsing_quiet (es : list event) :
  forallb browsing es = true -> refreshes es = 0%nat /\ writes es = [].
Proof.
  induction es as [|e es IH]; [auto|].
  cbn [forallb]. rewrite andb_true_iff. intros [He Hes].
  destruct (IH Hes) as [R W].
  destruct e; try discriminate; unfold refreshes in *; simpl; auto.
Qed.

Lemma calls_quiet (es : list event) :
  forallb is_call es = true -> refreshes es = 0%nat /\ writes es = [].
Proof.
  induction es as [|e es IH]; [auto|].
  cbn [forallb]. rewrite andb_true_iff. intros [He Hes].
  destruct (IH Hes) as [R W].
  destruct e; try discriminate; unfold refreshes in *; simpl; auto.
Qed.

(** The part of a turn after the refresh: the record is processed and
    its result pushed; the matches file is written at most once, at an
    index that ends a group of ten. *)
Lemma V2_tail_trace (i : nat) (c : company) (w : world) :
  exists body post w',
    (result <- processCompany env c;;
     push result;;
     if ((i + 1) mod 10 =? 0)%nat
     then _ <- V2.saveMatchesCSV env;; ret tt
     else ret tt)%eff w = (Ret tt, w')
    /\ trace w' = trace w ++ body ++ post
    /\ forallb browsing body = true
    /\ (post = []
        \/ ((i + 1) mod 10 = 0%nat
            /\ exists content, post = [WriteFile matches_csv content]))
    /\ length (results w') = S (length (results w)).
Proof.
  destruct (processCompany_events c w) as (r & body & Hr & Hb).
  exists body.
  unfold bind at 1. rewrite Hr.
  unfold bind at 1. unfold push at 1, modify at 1.
  destruct (Nat.eqb_spec ((i + 1) mod 10) 0) as [E|E].
  - unfold bind. rewrite saveMatchesCSV_run. cbn [results after].
    destruct (existsb is_matched (results w ++ [r]) && writable env matches_csv).
    + eexists [WriteFile matches_csv _], _. split; [reflexivity|].
      cbn [trace results matches_written after].
      split; [now rewrite <- app_assoc|]. split; [exact Hb|].
      split; [right; eauto|]. rewrite length_app. cbn [length]. lia.
    + eexists [], _. split; [reflexivity|].
      cbn [trace results after]. rewrite app_nil_r.
      split; [reflexivity|]. split; [exact Hb|].
      split; [now left|]. rewrite length_app. cbn [length]. lia.
  - eexists [], _. split; [reflexivity|].
    cbn [trace results after]. rewrite app_nil_r.
    split; [reflexivity|]. split; [exact Hb|].
    split; [now left|]. rewrite length_app. cbn [length]. lia.
Qed.

(** One turn of the loop with periodic persistence: either it
    completes, and its events are those of a turn, or its refresh fails
    (not at index 0) and the record is not processed. *)
Lemma V2_iteration_trace (i : nat) (c : company) (w : world) :
  exists o w',
    V2.iteration env i c w = (o, w')
    /\ (session_holds env -> o = Ret tt)
    /\ match o with
       | Ret _ =>
         exists es,
           trace w' = trace w ++ es
           /\ turn i es
           /\ length (results w') = S (length (results w))
       | Throw _ =>
         (0 < i)%nat
         /\ exists es,
              trace w' = trace w ++ es
              /\ failed_refresh es
              /\ results w' = results w
       end.
Proof.
  unfold V2.iteration. unfold bind at 1.
  destruct (0 <? i)%nat eqn:Ei.
  - destruct (refresh_run env w) as (o & calls & h & E & Hc & R & _). rewrite E.
    destruct o as [[]|message].
    + destruct (V2_tail_trace i c (evolve w (RefreshContext :: calls) h))
        as (body & post & w' & H & T & Hb & Hp & L).
      exists (Ret tt), w'. split; [exact H|]. split; [reflexivity|].
      exists ((RefreshContext :: calls) ++ body ++ post).
      split; [rewrite T; cbn [trace evolve]; now rewrite <- app_assoc|].
      split; [|exact L].
      exists calls, body, post. rewrite Ei. auto.
    + eexists _, _. split; [reflexivity|]. split; [exact R|].
      split; [now apply Nat.ltb_lt|].
      exists (RefreshContext :: calls). split; [reflexivity|].
      split; [exists calls; auto | reflexivity].
  - destruct (V2_tail_trace i c w) as (body & post & w' & H & T & Hb & Hp & L).
    exists (Ret tt), w'. split; [exact H|]. split; [reflexivity|].
    exists (body ++ post). split; [exact T|]. split; [|exact L].
    exists [], body, post. rewrite Ei. auto.
Qed.

Lemma div10_step (i : nat) :
  (S i / 10 = i / 10 + if ((i + 1) mod 10 =? 0) then 1 else 0)%nat.
Proof.
  pose proof (Nat.div_mod_eq i 10) as E1.
  pose proof (Nat.div_mod_eq (S i) 10) as E2.
  pose proof (Nat.mod_upper_bound i 10 ltac:(discriminate)) as B1.
  pose proof (Nat.mod_upper_bound (S i) 10 ltac:(discriminate)) as B2.
  replace (i + 1)%nat with (S i) by lia.
  destruct (Nat.eqb_spec (S i mod 10) 0); lia.
Qed.

(** The refreshes and the writes of one turn. *)
Lemma turn_counts (i : nat) (es : list event) :
  turn i es ->
  refreshes es = (if (0 <? i)%nat then 1 else 0)%nat
  /\ Forall (fun f => fst f = matches_csv) (writes es)
  /\ (length (writes es) <= if ((i + 1) mod 10 =? 0)%nat then 1 else 0)%nat.
Proof.
  intros (calls & body & post & -> & Hc & Hb & Hp).
  destruct (calls_quiet _ Hc) as [Rc Wc].
  destruct (browsing_quiet _ Hb) as [Rb Wb].
  assert (P : refreshes post = 0%nat
              /\ Forall (fun f => fst f = matches_csv) (writes post)
              /\ (length (writes post)
                  <= if ((i + 1) mod 10 =? 0)%nat then 1 else 0)%nat).
  { destruct Hp as [->|(E & content & ->)].
    - repeat split; [constructor | cbn; lia].
    - rewrite E. repeat split; [repeat constructor | cbn; lia]. }
  destruct P as (Rp & Fp & Lp).
  rewrite !refreshes_app, !writes_app, Rb, Wb, Rp.
  destruct (0 <? i)%nat.
  - change (refreshes (RefreshContext :: calls)) with (S (refreshes calls)).
    change (writes (RefreshContext :: calls)) with (writes calls).
    rewrite Rc, Wc. cbn [app]. auto.
  - cbn [app]. auto.
Qed.

(** The refreshes and the writes of consecutive turns. *)
Lemma turns_counts (segments : list (list event)) :
  forall i,
    turns i segments ->
    refreshes (concat segments)
    = (if (0 <? i)%nat then length segments else length segments - 1)%nat
    /\ Forall (fun f => fst f = matches_csv) (writes (concat segments))
    /\ (length (writes (concat segments))
        <= (i + length segments) / 10 - i / 10)%nat.
Proof.
  induction segments as [|es rest IH]; intros i H.
  - cbn [concat length]. split; [destruct (0 <? i)%nat; reflexivity|].
    split; [constructor|]. cbn [writes flat_map length]. lia.
  - destruct H as [Ht Hr].
    destruct (turn_counts Ht) as (R1 & F1 & B1).
    destruct (IH (S i) Hr) as (R2 & F2 & B2).
    cbn [concat length].
    rewrite refreshes_app, writes_app, length_app, R1, R2.
    split; [|split].
    + destruct i; simpl; lia.
    + apply Forall_app; auto.
    + pose proof (div10_step i) as D.
      pose proof (Nat.Div0.div_le_mono (S i) (S i + length rest) 10
                    ltac:(lia)) as M.
      replace (i + S (length rest))%nat with (S i + length rest)%nat by lia.
      lia.
Qed.

(** The loop with periodic persistence: its events are those of
    consecutive turns, one per record processed, followed, when it
    stops early, by those of the refresh that failed. *)
Lemma V2_loop_trace (todo : list company) :
  forall (i : nat) (w : world),
  exists o segments rest w',
    V2.loop env i todo w = (o, w')
    /\ (session_holds env -> o = Ret tt)
    /\ trace w' = trace w ++ concat segments ++ rest
    /\ turns i segments
    /\ length (results w') = (length (results w) + length segments)%nat
    /\ match o with
       | Ret _ => rest = [] /\ length segments = length todo
       | Throw _ =>
         (length segments < length todo)%nat
         /\ (0 < i + length segments)%nat
         /\ failed_refresh rest
       end.
Proof.
  induction todo as [|c todo IH]; intros i w.
  - exists (Ret tt), [], [], w. cbn [V2.loop concat app length turns].
    rewrite app_nil_r, Nat.add_0_r. repeat split; auto.
  - destruct (V2_iteration_trace i c w) as (o1 & w1 & H1 & S1 & P1).
    cbn [V2.loop]. unfold bind. rewrite H1.
    destruct o1 as [[]|message].
    + destruct P1 as (es & T1 & Ht & L1).
      destruct (IH (S i) w1) as (o & segments & rest & w2 & H2 & S2 & T2 & Hts & L2 & P2).
      exists o, (es :: segments), rest, w2. split; [exact H2|].
      split; [exact S2|].
      split; [rewrite T2, T1; cbn [concat]; now rewrite <- !app_assoc|].
      split; [split; assumption|].
      split; [cbn [length]; lia|].
      destruct o as [[]|m2]; cbn [length].
      * destruct P2 as [-> ->]. auto.
      * destruct P2 as (A & B & C). repeat split; auto; lia.
    + destruct P1 as (Hi & es & T1 & Hf & R1).
      exists (Throw message), [], es, w1. split; [reflexivity|].
      split; [intros Hs; specialize (S1 Hs); discriminate|].
      split; [exact T1|]. split; [exact I|].
      split; [rewrite R1; cbn [length]; lia|].
      cbn [length]. repeat split; auto; lia.
Qed.

Lemma V1_loop_trace (todo : list company) :
  forall w : world,
  exists es w',
    V1.loop env todo w = (Ret tt, w')
    /\ trace w' = trace w ++ es
    /\ forallb browsing es = true.
Proof.
  induction todo as [|c todo IH]; intros w.
  - exists [], w. cbn. now rewrite app_nil_r.
  - destruct (processCompany_events c w) as (r & e1 & Hr & Hb).
    set (w1 := {| results := results (after w e1) ++ [r];
                  trace := trace (after w e1);
                  files := files (after w e1);
                  handles := handles (after w e1) |}).
    destruct (IH w1) as (e2 & w2 & H2 & T2 & B2).
    exists (e1 ++ e2), w2. cbn [V1.loop]. unfold bind at 1.
    unfold V1.iteration, bind at 1. rewrite Hr.
    unfold push, modify. fold w1. rewrite H2.
    split; [reflexivity|]. split.
    + rewrite T2. unfold w1. cbn. now rewrite app_assoc.
    + now rewrite forallb_app, Hb, B2.
Qed.

End BatchTrace.

Section BatchTraceProperties.

Import Props.

(** X11.  The events of a batch of the variant with periodic
    persistence, from a new matcher, are those of consecutive turns,
    one per record processed: the browsing context is refreshed before
    every record but the first, then the record is looked up, then the
    matches file, and no other file, is written at most once, and only
    after a record whose number is a multiple of ten.  The batch
    returns when the browser does what it is asked, and then every
    record was processed, with one refresh less than records.  When the
    batch throws, the last events are those of a refresh that failed,
    at least one record was processed before it and at least one was
    not.  [src/gurufocus_isin_matcher.js] only navigates and evaluates
    during the batch: it neither refreshes the context nor writes a
    file, and it always returns. *)
Theorem X11_refreshes_and_writes_of_a_batch (env : environment)
        (companies : list company) (maxCompanies : option number)
        (disk : list (jsstring * jsstring)) :
  let n := length (companiesToProcess companies maxCompanies) in
  (exists o segments rest w',
      V2.processCompanies env companies maxCompanies (initial disk)
      = (o, w')
      /\ (session_holds env -> o = Ret tt)
      /\ trace w' = concat segments ++ rest
      /\ turns 0 segments
      /\ length (results w') = length segments
      /\ Forall (fun f => fst f = matches_csv) (writes (trace w'))
      /\ (length (writes (trace w')) <= length segments / 10)%nat
      /\ match o with
         | Ret _ =>
           rest = [] /\ length segments = n
           /\ refreshes (trace w') = (n - 1)%nat
         | Throw _ =>
           (0 < length segments < n)%nat /\ failed_refresh rest
         end)
  /\ (exists w',
         V1.processCompanies env companies maxCompanies (initial disk)
         = (Ret tt, w')
         /\ length (results w') = n
         /\ forallb browsing (trace w') = true
         /\ refreshes (trace w') = 0%nat
         /\ writes (trace w') = []
         /\ files w' = disk).
Proof.
  intros n. split.
  - destruct (V2_loop_trace env (companiesToProcess companies maxCompanies)
                0 (initial disk))
      as (o & segments & rest & w' & H & S & T & Ht & L & P).
    cbn [initial trace results app length Nat.add] in T, L.
    destruct (turns_counts _ _ Ht) as (R & F & B).
    cbn [Nat.ltb Nat.leb Nat.add] in R.
    change (0 / 10)%nat with 0%nat in B. rewrite Nat.sub_0_r in B.
    assert (Wrest : writes rest = []).
    { destruct o as [[]|message].
      - destruct P as [-> _]. reflexivity.
      - destruct P as (_ & _ & calls & -> & Hc).
        change (writes (RefreshContext :: calls)) with (writes calls).
        apply (calls_quiet _ Hc). }
    exists o, segments, rest, w'. split; [exact H|]. split; [exact S|].
    split; [exact T|]. split; [exact Ht|]. split; [exact L|].
    rewrite T, writes_app, Wrest, app_nil_r.
    split; [exact F|]. split; [exact B|].
    destruct o as [[]|message].
    + destruct P as [-> E]. fold n in E.
      rewrite app_nil_r, R, E. auto.
    + destruct P as (A & B' & C). fold n in A. cbn [Nat.add] in B'. auto.
  - destruct (V1_loop_trace env (companiesToProcess companies maxCompanies)
                (initial disk)) as (es & w' & H & T & B).
    destruct (V1_loop_spec env (companiesToProcess companies maxCompanies)
                (initial disk)) as (rs & w'' & H' & R & F & Hall & _).
    unfold V1.processCompanies. rewrite H in H'. injection H' as <-.
    exists w'. split; [exact H|]. rewrite T. cbn [initial trace app] in *.
    destruct (browsing_quiet _ B) as [Rf W].
    cbn in R, F. rewrite R. apply Forall2_length in Hall.
    repeat split; auto.
Qed.

End BatchTraceProperties.

(* ===================================================================== *)
(** * Saving the results, and [run] *)
(* ===================================================================== *)

Section Saving.

Import Props.

Variable env : environment.

(** What [saveResults] does, in the variant with [saveMatchesCSV]. *)
Lemma V2_saveResults_run (w : world) :
  V2.saveResults env w
  = (Ret tt,
     if writable env results_json
     then if existsb is_matched (results w) && writable env matches_csv
          then matches_written (json_written env w)
          else json_written env w
     else w).
Proof.
  unfold V2.saveResults, try_catch. unfold bind at 1, gets at 1.
  unfold bind at 1, writeFileSync at 1. cbn [results].
  destruct (writable env results_json); [|reflexivity].
  unfold bind. rewrite saveMatchesCSV_run. cbn [results].
  destruct (existsb is_matched (results w) && writable env matches_csv);
    reflexivity.
Qed.

Lemma V1_saveResults_run (w : world) :
  V1.saveResults env w
  = (Ret tt,
     if writable env results_json
     then if existsb is_matched (results w) && writable env matches_csv
          then matches_written (json_written env w)
          else json_written env w
     else w).
Proof.
  unfold V1.saveResults, try_catch. unfold bind at 1, gets at 1.
  unfold bind at 1, writeFileSync at 1. cbn [results].
  destruct (writable env results_json); [|reflexivity].
  rewrite csvResults_truthy.
  destruct (existsb is_matched (results w)); [|reflexivity].
  unfold writeFileSync. cbn [andb].
  destruct (writable env matches_csv); reflexivity.
Qed.

Lemma read_set_file_other (n m content : jsstring)
      (fs : list (jsstring * jsstring)) :
  n <> m -> read_file n (set_file m content fs) = read_file n fs.
Proof.
  intros Hne.
  assert (Hmn : str_eqb m n = false) by (apply str_eqb_neq; congruence).
  induction fs as [|[k c] fs IH]; simpl.
  - now rewrite Hmn.
  - destruct (str_eqb k m) eqn:E; simpl.
    + apply str_eqb_eq in E. subst k. now rewrite Hmn.
    + now rewrite IH.
Qed.

Lemma count_partition (rs : list MatchRecord) :
  Forall (fun r => status r <> not_found) rs ->
  length rs
  = (count matched rs + count no_match rs
     + count no_results rs + count error rs)%nat.
Proof.
  unfold count. induction 1 as [|r rs Hr _ IH]; [reflexivity|].
  cbn [filter length]. destruct (status r); try congruence; cbn; lia.
Qed.

Lemma record_for_final (c : company) (r : MatchRecord) :
  record_for env c r -> status r <> not_found.
Proof. intros (_ & _ & [H|[H|[H|H]]] & _); rewrite H; discriminate. Qed.

Lemma Forall2_final (cs : list company) (rs : list MatchRecord) :
  Forall2 (record_for env) cs rs ->
  Forall (fun r => status r <> not_found) rs.
Proof.
  induction 1; constructor; eauto using record_for_final.
Qed.

End Saving.

Section SavingProperties.

Import Props.

(** X12.  For the results of a run of [processCompanies] from a new
    matcher, in both variants, the counts that [saveResults] puts in
    the structured dump add up: the total is the number of records
    processed and is the sum of the counts of the four statuses.  In
    the variant with periodic persistence the sum holds however the
    batch ends; the total is the number of records to process when the
    batch returns, which it does when the browser does what it is
    asked, and is never more. *)
Theorem X12_counts_add_up (env : environment) (companies : list company)
        (maxCompanies : option number) (disk : list (jsstring * jsstring)) :
  let n := length (companiesToProcess companies maxCompanies) in
  (exists w',
      V1.processCompanies env companies maxCompanies (initial disk)
      = (Ret tt, w')
      /\ let o := make_output (results w') in
         totalProcessed o = n
         /\ totalProcessed o
            = (out_matched o + notMatched o + noResults o + errors o)%nat)
  /\ (exists e w',
         V2.processCompanies env companies maxCompanies (initial disk)
         = (e, w')
         /\ (session_holds env -> e = Ret tt)
         /\ let o := make_output (results w') in
            (e = Ret tt -> totalProcessed o = n)
            /\ (totalProcessed o <= n)%nat
            /\ totalProcessed o
               = (out_matched o + notMatched o + noResults o + errors o)%nat).
Proof.
  intros n. split.
  - destruct (V1_loop_spec env (companiesToProcess companies maxCompanies)
                (initial disk)) as (rs & w' & H & R & _ & Hall & _).
    exists w'. split; [exact H|]. cbn in R. rewrite R.
    cbn [make_output totalProcessed out_matched notMatched noResults errors].
    split; [symmetry; apply (Forall2_length Hall)|].
    apply count_partition. eapply Forall2_final; eauto.
  - destruct (V2_loop_general env (companiesToProcess companies maxCompanies)
                0 (initial disk)) as (e & rs & w' & H & R & Hall & _ & L & _ & S).
    exists e, w'. split; [exact H|]. split; [exact S|]. cbn in R. rewrite R.
    cbn [make_output totalProcessed out_matched notMatched noResults errors].
    split; [exact L|]. split.
    + apply Forall2_length in Hall. rewrite length_firstn in Hall.
      fold n in Hall. lia.
    + apply count_partition. eapply Forall2_final; eauto.
Qed.

(** X13.  [saveResults] does the same in both variants, whatever the
    results and whatever the disk accepts: the inlined rows of
    [src/gurufocus_isin_matcher.js] and the call of [saveMatchesCSV]
    leave the same files and the same events. *)
Theorem X13_saveResults_agree (env : environment) (w : world) :
  V1.saveResults env w = V2.saveResults env w.
Proof. now rewrite V1_saveResults_run, V2_saveResults_run. Qed.

(** X14.  [saveResults] never throws.  When the structured dump cannot
    be written, the matches file is not written either, even if there
    are matches and the disk would take it; when only the matches file
    cannot be written, the structured dump is written all the same. *)
Theorem X14_saveResults_failures (env : environment) (w : world) :
  (writable env results_json = false ->
   V2.saveResults env w = (Ret tt, w))
  /\ (writable env results_json = true ->
      writable env matches_csv = false ->
      V2.saveResults env w = (Ret tt, json_written env w)
      /\ read_file results_json (files (json_written env w))
         = Some (json_text env w)
      /\ matches_file (json_written env w) = matches_file w).
Proof.
  rewrite V2_saveResults_run. split.
  - now intros ->.
  - intros -> ->. rewrite andb_false_r. split; [reflexivity|].
    split; [apply read_set_file|].
    apply read_set_file_other. discriminate.
Qed.

End SavingProperties.

Section Running.

Import Props.

(** What [run] hands to the loop: the first [expected_count] records. *)
Lemma companiesToProcess_clamp (cs : list company) (maxCompanies : option number) :
  companiesToProcess cs (clamp maxCompanies (length cs))
  = firstn (expected_count (length cs) maxCompanies) cs.
Proof.
  assert (All : firstn (length cs) cs = cs) by apply firstn_all.
  assert (Clamped :
            companiesToProcess cs (Some (Num (Z.of_nat (length cs)))) = cs).
  { unfold companiesToProcess, truthy_num, slice0.
    destruct (Z.eqb_spec (Z.of_nat (length cs)) 0); cbn [negb]; [reflexivity|].
    replace (Z.of_nat (length cs) <? 0)%Z with false
      by (symmetry; apply Z.ltb_ge; lia).
    now rewrite Nat2Z.id. }
  destruct maxCompanies as [[|n|[|]]|]; cbn [expected_count]; auto.
  - unfold clamp, truthy_num.
    destruct (Z.eqb_spec n 0) as [->|Hn]; [now rewrite All|].
    cbn [negb andb].
    destruct (Z.ltb_spec (Z.of_nat (length cs)) n) as [Hlt|Hge].
    + rewrite Clamped.
      replace (0 <? n)%Z with true by (symmetry; apply Z.ltb_lt; lia).
      rewrite Nat.min_r by lia. now rewrite All.
    + unfold companiesToProcess, truthy_num.
      replace (n =? 0)%Z with false by (symmetry; apply Z.eqb_neq; lia).
      cbn [negb]. unfold slice0.
      destruct (Z.ltb_spec n 0) as [Hneg|Hpos].
      * now replace (0 <? n)%Z with false by (symmetry; apply Z.ltb_ge; lia).
      * replace (0 <? n)%Z with true by (symmetry; apply Z.ltb_lt; lia).
        now rewrite Nat.min_l by lia.
  - cbn [clamp]. now rewrite Clamped, All.
Qed.

Variable env : environment.

Lemma V2_iteration_throw (i : nat) (c : company) (w w' : world)
      (message : jsstring) :
  V2.iteration env i c w = (Throw message, w') ->
  exists call t, session env call t = Some message.
Proof.
  unfold V2.iteration. unfold bind at 1.
  destruct (0 <? i)%nat.
  - destruct (refresh_run env w) as (o & es & h & E & _ & _ & T). rewrite E.
    destruct o as [[]|m].
    + destruct (V2_iteration_tail env i c (evolve w (RefreshContext :: es) h))
        as (r & w1 & H & _). rewrite H. discriminate.
    + intros H. injection H as <- _. now apply T.
  - destruct (V2_iteration_tail env i c w) as (r & w1 & H & _).
    cbn [ret]. rewrite H. discriminate.
Qed.

(** The loop throws only the rejection of a call on the browser, and
    leaves the structured dump alone. *)
Lemma V2_loop_quiet (todo : list company) :
  forall (i : nat) (w : world),
    (forall message w',
        V2.loop env i todo w = (Throw message, w') ->
        exists call t, session env call t = Some message)
    /\ read_file results_json (files (snd (V2.loop env i todo w)))
       = read_file results_json (files w).
Proof.
  induction todo as [|c todo IH]; intros i w.
  - split; [discriminate | reflexivity].
  - destruct (V2_iteration_general env i c w) as (o1 & w1 & H1 & _ & P1).
    cbn [V2.loop]. unfold bind. rewrite H1.
    destruct o1 as [[]|m].
    + destruct P1 as (r & _ & _ & _ & F1).
      destruct (IH (S i) w1) as [T2 D2].
      split; [exact T2|]. rewrite D2, F1.
      destruct (_ && _); [|reflexivity].
      apply read_set_file_other. discriminate.
    + destruct P1 as [_ F1]. split.
      * intros message w' E. injection E as <- <-.
        apply (V2_iteration_throw _ _ _ H1).
      * cbn [snd]. now rewrite F1.
Qed.

Lemma V1_batch_like : batch_like env (V1.processCompanies env).
Proof.
  intros cs m w0.
  destruct (V1_loop_spec env (companiesToProcess cs m) w0)
    as (rs & w1 & H & R & F & Hall & _).
  pose proof (Forall2_length Hall) as L.
  exists (Ret tt), rs, w1. split; [exact H|]. split; [exact R|].
  split; [now rewrite <- L, firstn_all|].
  split; [auto|]. split; [auto|]. split; [now rewrite F|].
  split; [discriminate | reflexivity].
Qed.

Lemma V2_batch_like : batch_like env (V2.processCompanies env).
Proof.
  intros cs m w0.
  destruct (V2_loop_general env (companiesToProcess cs m) 0 w0)
    as (o & rs & w1 & H & R & Hall & _ & L & F & S).
  destruct (V2_loop_quiet (companiesToProcess cs m) 0 w0) as [T D].
  unfold V2.processCompanies. rewrite H in T, D.
  exists o, rs, w1. repeat split; auto.
  intros message ->. exact (T message w1 eq_refl).
Qed.

Lemma saved_files (w : world) :
  writable env results_json = true ->
  writable env matches_csv = true ->
  exists w',
    V2.saveResults env w = (Ret tt, w')
    /\ results w' = results w
    /\ read_file results_json (files w') = Some (json_text env w)
    /\ matches_file w'
       = if existsb is_matched (results w) then Some (matches_text w)
         else matches_file w.
Proof.
  intros Hj Hc. rewrite V2_saveResults_run, Hj, Hc, andb_true_r.
  eexists. split; [reflexivity|].
  unfold matches_file.
  destruct (existsb is_matched (results w)).
  - cbn [results files matches_written json_written].
    split; [reflexivity|]. split.
    + rewrite read_set_file_other by discriminate. apply read_set_file.
    + apply read_set_file.
  - cbn [results files json_written].
    split; [reflexivity|]. split.
    + apply read_set_file.
    + apply read_set_file_other. discriminate.
Qed.

Lemma saveResults_keeps_results (w0 : world) :
  exists w1, V2.saveResults env w0 = (Ret tt, w1) /\ results w1 = results w0.
Proof.
  rewrite V2_saveResults_run. eexists. split; [reflexivity|].
  destruct (writable env results_json); [|reflexivity].
  destruct (_ && _); reflexivity.
Qed.

(** [run], with an [initBrowser], a loop, a [saveResults] and a [close]
    that behave as the two variants' do. *)
Lemma run_general (initBrowser : M world unit)
      (processCompanies : list company -> option number -> M world unit)
      (saveResults close : M world unit)
      (maxCompanies : option number) (w : world) :
  calls_only env (fun c => negb (closing c)) initBrowser ->
  calls_only env closing close ->
  batch_like env processCompanies ->
  (forall w0, saveResults w0 = V2.saveResults env w0) ->
  exists o rs w',
    run initBrowser processCompanies saveResults close maxCompanies w = (o, w')
    /\ results w' = results w ++ rs
    /\ Forall2 (record_for env)
               (firstn (length rs) (requested w maxCompanies)) rs
    /\ (forall message, o = Throw message ->
          exists c t, closing c = true /\ session env c t = Some message)
    /\ (session_holds env ->
        o = Ret tt /\ length rs = length (requested w maxCompanies))
    /\ (input_records w <> [] ->
        writable env results_json = true ->
        writable env matches_csv = true ->
        dump_saved env w w' \/ dump_skipped env w w').
Proof.
  intros Hi Hc Hp Hs. unfold run, finally, try_catch. unfold bind at 1, gets.
  unfold requested. fold (input_records w).
  destruct (input_records w) as [|c0 cs0] eqn:Ecs.
  - (* no record: [return] from inside the [try] *)
    cbn [length Nat.eqb ret].
    destruct (Hc w) as (oc & ec & hc & Ec & _ & Rc & Tc). rewrite Ec.
    exists oc, [], (evolve w ec hc).
    split; [now destruct oc as [[]|]|].
    split; [cbn; now rewrite app_nil_r|].
    split; [rewrite firstn_nil; constructor|].
    split; [exact Tc|]. split; [|congruence].
    intros Hh. destruct (Rc Hh) as [[] ->]. split; [reflexivity|].
    now rewrite firstn_nil.
  - cbn [length Nat.eqb]. set (cs := c0 :: cs0) in *.
    change (S (length cs0)) with (length cs).
    destruct (Hi w) as (oi & ei & hi & Ei & _ & Ri & Ti).
    unfold bind at 1. rewrite Ei.
    destruct oi as [[]|mi].
    + (* launched *)
      destruct (Hp cs (clamp maxCompanies (length cs)) (evolve w ei hi))
        as (op & rs & w1 & Ep & R1 & Hall & L1 & F1 & D1 & Tp & Rp).
      rewrite companiesToProcess_clamp in Hall, L1.
      cbn [results files evolve] in R1, F1, D1.
      unfold bind at 1. rewrite Ep.
      destruct op as [[]|mp].
      * (* processed *)
        rewrite Hs.
        destruct (saveResults_keeps_results w1) as (w2 & E2 & R2).
        rewrite E2.
        destruct (Hc w2) as (oc & ec & hc & Ec & _ & Rc & Tc). rewrite Ec.
        exists oc, rs, (evolve w2 ec hc).
        split; [now destruct oc as [[]|]|].
        split; [cbn [results evolve]; congruence|].
        split; [exact Hall|]. split; [exact Tc|]. split.
        -- intros Hh. destruct (Rc Hh) as [[] ->]. auto.
        -- intros _ Hj Hm. left.
           destruct (saved_files w1 Hj Hm) as (w2' & E2' & _ & J2 & M2).
           rewrite E2 in E2'. injection E2' as <-.
           unfold dump_saved, json_text, matches_text, matches_file in *.
           cbn [results files evolve]. rewrite R2.
           split; [exact J2|]. split; intros Hx; rewrite M2, Hx; [reflexivity|].
           now rewrite (F1 Hx).
      * (* the loop threw: caught, nothing is saved *)
        destruct (Hc w1) as (oc & ec & hc & Ec & _ & Rc & Tc).
        cbn [ret]. rewrite Ec.
        exists oc, rs, (evolve w1 ec hc).
        split; [now destruct oc as [[]|]|].
        split; [cbn [results evolve]; congruence|].
        split; [exact Hall|]. split; [exact Tc|]. split.
        -- intros Hh. specialize (Rp Hh). discriminate.
        -- intros _ _ _. right. split; [exact D1|].
           destruct (Tp mp eq_refl) as (c & t & Hm). eauto.
    + (* the launch failed: caught, nothing is processed *)
      destruct (Hc (evolve w ei hi)) as (oc & ec & hc & Ec & _ & Rc & Tc).
      cbn [ret]. rewrite Ec.
      exists oc, [], (evolve (evolve w ei hi) ec hc).
      split; [now destruct oc as [[]|]|].
      split; [cbn; now rewrite app_nil_r|].
      split; [constructor|]. split; [exact Tc|]. split.
      * intros Hh. destruct (Ri Hh) as [a Ha]. discriminate.
      * intros _ _ _. right. split; [reflexivity|].
        destruct (Ti mi eq_refl) as (c & t & _ & Hm). eauto.
Qed.

(** With no handle set, [close] does nothing. *)
Lemma close_new (w : world) :
  handles w = handles (initial []) ->
  V1.close env w = (Ret tt, w) /\ V2.close env w = (Ret tt, w).
Proof.
  destruct w as [rs t fs h]. cbn [handles initial]. intros ->.
  split; reflexivity.
Qed.

(** With no record in the input file a new matcher does nothing. *)
Lemma run_no_records (maxCompanies : option number) (w : world) :
  handles w = handles (initial []) ->
  input_records w = [] ->
  V1_run env maxCompanies w = (Ret tt, w)
  /\ V2_run env maxCompanies w = (Ret tt, w).
Proof.
  intros Hh Hcs.
  destruct (close_new w Hh) as [C1 C2].
  split; unfold V1_run, V2_run, run, finally, try_catch, bind at 1, gets at 1;
    fold (input_records w); rewrite Hcs; cbn [length Nat.eqb ret];
    [rewrite C1 | rewrite C2]; reflexivity.
Qed.

(** When the launch is rejected, a new matcher processes nothing and
    closes nothing. *)
Lemma run_launch_fails (maxCompanies : option number) (w : world)
      (message : jsstring) :
  handles w = handles (initial []) ->
  input_records w <> [] ->
  session env BrowserLaunch (trace w) = Some message ->
  V1_run env maxCompanies w = (Ret tt, after w [Session BrowserLaunch])
  /\ V2_run env maxCompanies w = (Ret tt, after w [Session BrowserLaunch]).
Proof.
  intros Hh Hcs Hl.
  split; unfold V1_run, V2_run, run, finally, try_catch, bind at 1, gets at 1;
    fold (input_records w);
    (destruct (input_records w) as [|c0 cs0]; [congruence|]);
    cbn [length Nat.eqb];
    unfold V1.initBrowser, V2.initBrowser;
    unfold bind at 1 2; rewrite attempt_run, Hl; cbn [ret];
    [rewrite (proj1 (close_new (after w [Session BrowserLaunch]) Hh))
    |rewrite (proj2 (close_new (after w [Session BrowserLaunch]) Hh))];
    reflexivity.
Qed.

End Running.

Section RunningProperties.

Import Props.

(** X15.  [run(maxCompanies)] on a new matcher, in both variants.
    With no record in the input file (or no file) it does nothing at
    all.  When the launch of the browser is rejected it processes
    nothing, writes nothing and returns.  In general it appends the
    results of the records it processed, which are the first of the
    records requested, in order: all records of the file for [null],
    [NaN], [0] and [Infinity]; the first [n], or all if the file has
    fewer, for a positive [n]; all but the last [-n] for a negative
    [n].  It processes all of them and returns when the browser does
    what it is asked.  It throws only the rejection of a closing call:
    the errors of the launch and of the batch are caught. *)
Theorem X15_run_processes_the_requested_records (env : environment)
        (maxCompanies : option number) (w : world) :
  handles w = handles (initial []) ->
  (input_records w = [] ->
   V1_run env maxCompanies w = (Ret tt, w)
   /\ V2_run env maxCompanies w = (Ret tt, w))
  /\ (input_records w <> [] ->
      forall message,
        session env BrowserLaunch (trace w) = Some message ->
        V1_run env maxCompanies w = (Ret tt, after w [Session BrowserLaunch])
        /\ V2_run env maxCompanies w
           = (Ret tt, after w [Session BrowserLaunch]))
  /\ (exists o rs w',
         V1_run env maxCompanies w = (o, w')
         /\ results w' = results w ++ rs
         /\ Forall2 (record_for env)
                    (firstn (length rs) (requested w maxCompanies)) rs
         /\ (forall message, o = Throw message ->
               exists c t, closing c = true /\ session env c t = Some message)
         /\ (session_holds env ->
             o = Ret tt /\ Forall2 (record_for env) (requested w maxCompanies) rs))
  /\ (exists o rs w',
         V2_run env maxCompanies w = (o, w')
         /\ results w' = results w ++ rs
         /\ Forall2 (record_for env)
                    (firstn (length rs) (requested w maxCompanies)) rs
         /\ (forall message, o = Throw message ->
               exists c t, closing c = true /\ session env c t = Some message)
         /\ (session_holds env ->
             o = Ret tt /\ Forall2 (record_for env) (requested w maxCompanies) rs)).
Proof.
  intros Hh.
  split; [now apply run_no_records|].
  split; [intros Hne message Hl; now apply (@run_launch_fails env _ _ message)|].
  split.
  - destruct (@run_general env (V1.initBrowser env) (V1.processCompanies env)
                (V1.saveResults env) (V1.close env) maxCompanies w)
      as (o & rs & w' & H & R & Hall & T & S & _).
    + apply initBrowser_calls.
    + apply close_calls.
    + apply V1_batch_like.
    + intros w0. now rewrite V1_saveResults_run, V2_saveResults_run.
    + exists o, rs, w'. repeat split; auto; destruct (S H0) as [Ho L]; auto.
      now rewrite L, firstn_all in Hall.
  - destruct (@run_general env (V2.initBrowser env) (V2.processCompanies env)
                (V2.saveResults env) (V2.close env) maxCompanies w)
      as (o & rs & w' & H & R & Hall & T & S & _).
    + apply initBrowser_calls.
    + apply close_calls.
    + apply V2_batch_like.
    + reflexivity.
    + exists o, rs, w'. repeat split; auto; destruct (S H0) as [Ho L]; auto.
      now rewrite L, firstn_all in Hall.
Qed.

End RunningProperties.

Section CompletionProperties.

Import Props.


(** X17.  The script starts a run only when the record-count argument
    parses to a number other than zero, and then with that number (the
    double nearest to the integer written, or an infinity when it is
    out of range) and with the [headless] option opposite to the
    presence of [--visible]; a count that is missing, empty, not a
    number or zero ends in the usage text and exit code 1. *)
Theorem X17_command_line_outcomes (args : list jsstring) (script : jsstring) :
  nth_error args 1 = Some script ->
  truthy script && endsWith script (js "gurufocus_isin_matcher.js") = true ->
  let visible := existsb (str_eqb (js "--visible")) args in
  match nth_error args 2 with
  | Some arg =>
    match parseInt arg with
    | Num z =>
      if (z =? 0)%Z then cli args = Exit usage 1
      else cli args = Run (negb visible) (Some (Num z))
    | Infinity positive =>
      cli args = Run (negb visible) (Some (Infinity positive))
    | NaN => cli args = Exit usage 1
    end
  | None => cli args = Exit usage 1
  end.
Proof.
  intros Hs Hok visible. unfold cli. rewrite Hs, Hok.
  destruct (nth_error args 2) as [arg|]; [|reflexivity].
  destruct (truthy arg) eqn:T.
  - destruct (parseInt arg) as [|z|positive]; [reflexivity| |reflexivity].
    cbn [truthy_max truthy_num].
    destruct (Z.eqb_spec z 0) as [->|Hz]; [reflexivity|].
    cbn [negb]. destruct z; [congruence| |]; reflexivity.
  - destruct arg; [|discriminate]. reflexivity.
Qed.

(** X18.  The browser is launched with the [headless] option the
    constructor stores.  In [src/gurufocus_isin_matcher.js] that is the
    opposite of the option passed: a command line with [--visible]
    launches headless and one without launches a visible browser.  In
    the other variant the option is taken as passed.  With no option
    both are headless. *)
Theorem X18_headless_option (args : list jsstring) (headless : bool)
        (maxCompanies : option number) :
  cli args = Run headless maxCompanies ->
  let visible := existsb (str_eqb (js "--visible")) args in
  Sessions.V1_constructor_headless (Some headless) = visible
  /\ Sessions.V2_constructor_headless (Some headless) = negb visible
  /\ Sessions.V1_constructor_headless None = true
  /\ Sessions.V2_constructor_headless None = true.
Proof.
  intros H visible. unfold cli in H.
  destruct (nth_error args 1) as [script|]; [|discriminate].
  destruct (truthy script && endsWith script _); [|discriminate].
  fold visible in H.
  destruct (negb (truthy_max _)); [discriminate|].
  injection H as <- _.
  destruct visible; repeat split.
Qed.

End CompletionProperties.

(* ===================================================================== *)
(** * [utils.js] *)
(* ===================================================================== *)

Section CsvWriter.

Import Props.










End CsvWriter.

Section TextHelpers.

Import Text.

Lemma collapse_spaces (s : jsstring) :
  forall b, Forall (fun c => is_space c = true -> c = 32%N) (collapse b s).
Proof.
  induction s as [|c s IH]; intros b; simpl; [constructor|].
  destruct (is_space c) eqn:E.
  - destruct b; [apply IH|]. constructor; [reflexivity | apply IH].
  - constructor; [congruence | apply IH].
Qed.

Lemma collapse_length (s : jsstring) :
  forall b, (length (collapse b s) <= length s)%nat.
Proof.
  induction s as [|c s IH]; intros b; [simpl; lia|].
  pose proof (IH true) as IHt. pose proof (IH false) as IHf.
  cbn [collapse]. destruct (is_space c); [destruct b|]; cbn [length]; lia.
Qed.

Lemma trim_length (s : jsstring) : (length (trim s) <= length s)%nat.
Proof.
  assert (T : forall x, (length (trimStart x) <= length x)%nat).
  { intros x. destruct (trimStart_suffix x) as (p & E & _).
    rewrite E at 2. rewrite length_app. lia. }
  unfold trim. rewrite length_rev.
  etransitivity; [apply T|]. rewrite length_rev. apply T.
Qed.

(** X20.  What [cleanText] returns holds only word characters
    ([A-Za-z0-9_]), spaces, full stops and hyphens: every other unit is
    dropped and every other white space (tab, line break, no-break
    space) has become a space; and it is never longer than the text. *)
Theorem X20_cleanText_alphabet (text : jsstring) :
  forallb plain (cleanText text) = true
  /\ (length (cleanText text) <= length text)%nat.
Proof.
  unfold cleanText. split.
  - apply forallb_forall. intros c Hc. apply filter_In in Hc as [Hin Hk].
    pose proof (collapse_spaces (trim text) false) as Hs.
    rewrite Forall_forall in Hs. specialize (Hs c Hin).
    unfold kept in Hk. unfold plain.
    destruct (word c); [reflexivity|].
    destruct (is_space c); [now rewrite Hs|].
    cbn [orb] in Hk |- *. now destruct (c =? 32)%N.
  - etransitivity; [apply filter_length_le|].
    etransitivity; [apply collapse_length | apply trim_length].
Qed.

Lemma dashes_id (s : jsstring) :
  includes 58%N s = false -> includes 46%N s = false -> dashes s = s.
Proof.
  induction s as [|c s IH]; [reflexivity|].
  rewrite !includes_cons, !orb_false_iff. intros [C1 H1] [C2 H2].
  cbn [dashes map]. rewrite C1, C2. cbn [orb]. f_equal. now apply IH.
Qed.

Lemma dashes_app (a b : jsstring) : dashes (a ++ b) = dashes a ++ dashes b.
Proof. apply map_app. Qed.

Lemma replace_all_app (c : char) (by_ a b : jsstring) :
  replace_all c by_ (a ++ b) = replace_all c by_ a ++ replace_all c by_ b.
Proof. apply flat_map_app. Qed.

Lemma replace_all_id (c : char) (by_ s : jsstring) :
  includes c s = false -> replace_all c by_ s = s.
Proof.
  induction s as [|x s IH]; [reflexivity|].
  rewrite includes_cons, orb_false_iff. intros [Hx Hs].
  cbn [replace_all flat_map]. rewrite Hx. cbn [app]. f_equal. now apply IH.
Qed.

Lemma getTimestamp_parts (date time : jsstring) :
  includes 84%N date = false -> includes 58%N date = false ->
  includes 46%N date = false -> includes 84%N time = false ->
  getTimestamp (date ++ 84%N :: time)
  = match split 46%N time with
    | hms :: _ => Some (date ++ js "_" ++ replace_all 58%N [45%N] hms)
    | [] => None
    end.
Proof.
  intros D1 D2 D3 Ht. unfold getTimestamp.
  rewrite dashes_app.
  change (dashes (84%N :: time)) with (84%N :: dashes time).
  rewrite dashes_id by assumption.
  rewrite !split_app by assumption.
  rewrite (@split_single 84%N time) by assumption. reflexivity.
Qed.

(** X21.  On the text of a time stamp [<date>T<h>:<m>:<s>.<rest>]
    (the form [toISOString] gives), [getTimestamp] returns
    [<date>_<h>-<m>-<s>]: the fraction and the zone are dropped and no
    colon or full stop is left. *)
Theorem X21_getTimestamp_format (date h m s rest : jsstring) :
  forallb (fun x => negb (includes 84%N x || includes 58%N x || includes 46%N x))
          [date; h; m; s] = true ->
  includes 84%N rest = false ->
  getTimestamp (date ++ js "T" ++ h ++ js ":" ++ m ++ js ":" ++ s
                ++ js "." ++ rest)
  = Some (date ++ js "_" ++ h ++ js "-" ++ m ++ js "-" ++ s).
Proof.
  intros Hall Hr. cbn [forallb] in Hall.
  repeat (apply andb_true_iff in Hall as [? Hall]).
  repeat match goal with
  | H : negb _ = true |- _ =>
    apply negb_true_iff in H; apply orb_false_iff in H as [H ?];
    apply orb_false_iff in H as [? ?]
  end.
  change (js "T") with [84%N]. change (js ":") with [58%N].
  change (js ".") with [46%N]. change (js "-") with [45%N].
  change ([84%N] ++ h ++ [58%N] ++ m ++ [58%N] ++ s ++ [46%N] ++ rest)
    with (84%N :: (h ++ [58%N] ++ m ++ [58%N] ++ s ++ [46%N] ++ rest)).
  rewrite getTimestamp_parts; try assumption.
  2:{ rewrite !includes_app. cbn [includes existsb N.eqb Pos.eqb orb].
      repeat match goal with H : includes 84%N _ = false |- _ => rewrite H; clear H end.
      reflexivity. }
  replace (h ++ [58%N] ++ m ++ [58%N] ++ s ++ [46%N] ++ rest)
    with ((h ++ [58%N] ++ m ++ [58%N] ++ s) ++ 46%N :: rest)
    by (now rewrite <- !app_assoc).
  rewrite split_app.
  2:{ rewrite !includes_app. cbn [includes existsb N.eqb Pos.eqb orb].
      repeat match goal with H : includes 46%N _ = false |- _ => rewrite H; clear H end.
      reflexivity. }
  rewrite !replace_all_app.
  rewrite (@replace_all_id 58%N [45%N] h), (@replace_all_id 58%N [45%N] m),
    (@replace_all_id 58%N [45%N] s) by assumption.
  reflexivity.
Qed.

End TextHelpers.

(* ===================================================================== *)
(** * Browser sessions *)
(* ===================================================================== *)

Section Contexts.

Import Sessions.

Variable fails : call -> option jsstring.

Lemma createContext_ok (s : session) :
  fails (CreateContext (created s)) = None ->
  createContext fails s
  = (Ret (created s),
     {| calls := calls s ++ [CreateContext (created s)];
        created := S (created s) |}).
Proof. intros H. unfold createContext, attempt. now rewrite H. Qed.

Lemma createContext_fail (s : session) (message : jsstring) :
  fails (CreateContext (created s)) = Some message ->
  createContext fails s
  = (Throw message,
     {| calls := calls s ++ [CreateContext (created s)];
        created := created s |}).
Proof. intros H. unfold createContext, attempt. now rewrite H. Qed.

Lemma create_loop_ok (n : nat) :
  forall acc s,
    (forall i, (i < n)%nat -> fails (CreateContext (created s + i)) = None) ->
    create_loop fails n acc s
    = (Ret (acc ++ seq (created s) n),
       {| calls := calls s ++ map CreateContext (seq (created s) n);
          created := created s + n |}).
Proof.
  induction n as [|n IH]; intros acc s H.
  - cbn. rewrite !app_nil_r, Nat.add_0_r. now destruct s.
  - cbn [create_loop]. unfold bind.
    rewrite createContext_ok
      by (rewrite <- (Nat.add_0_r (created s)); apply H; lia).
    rewrite IH.
    + cbn [calls created seq map].
      rewrite <- !app_assoc. cbn [app].
      f_equal. f_equal. lia.
    + intros i Hi. cbn [created].
      replace (S (created s) + i)%nat with (created s + S i)%nat by lia.
      apply H. lia.
Qed.

Lemma create_loop_fail (k : nat) (message : jsstring) :
  forall n acc s,
    (k < n)%nat ->
    (forall i, (i < k)%nat -> fails (CreateContext (created s + i)) = None) ->
    fails (CreateContext (created s + k)) = Some message ->
    create_loop fails n acc s
    = (Throw message,
       {| calls := calls s ++ map CreateContext (seq (created s) (S k));
          created := created s + k |}).
Proof.
  induction k as [|k IH]; intros n acc s Hk Hok Hfail;
    (destruct n as [|n]; [lia|]); cbn [create_loop]; unfold bind.
  - rewrite Nat.add_0_r in *.
    now rewrite (createContext_fail _ Hfail).
  - rewrite createContext_ok
      by (rewrite <- (Nat.add_0_r (created s)); apply Hok; lia).
    rewrite (IH n).
    + cbn [calls created]. rewrite <- !app_assoc.
      change (seq (created s) (S (S k)))
        with (created s :: seq (S (created s)) (S k)).
      cbn [map app]. f_equal. f_equal. lia.
    + lia.
    + intros i Hi. cbn [created].
      replace (S (created s) + i)%nat with (created s + S i)%nat by lia.
      apply Hok. lia.
    + cbn [created].
      now replace (S (created s) + k)%nat with (created s + S k)%nat by lia.
Qed.

End Contexts.

Section SessionProperties.

Import Sessions.

(** X22.  [createIncognitoContexts] returns [count] distinct contexts,
    in the order of their creation, when every creation succeeds; when
    the creation number [k] is the first to fail, it throws that
    error after [k] contexts were created, and these are neither
    returned nor closed. *)
Theorem X22_createIncognitoContexts_outcomes
        (fails : call -> option jsstring) (count : nat) (s : session) :
  ((forall i, (i < count)%nat ->
              fails (CreateContext (created s + i)) = None) ->
   createIncognitoContexts fails count s
   = (Ret (seq (created s) count),
      {| calls := calls s ++ map CreateContext (seq (created s) count);
         created := created s + count |}))
  /\ (forall k message,
        (k < count)%nat ->
        (forall i, (i < k)%nat ->
                   fails (CreateContext (created s + i)) = None) ->
        fails (CreateContext (created s + k)) = Some message ->
        createIncognitoContexts fails count s
        = (Throw message,
           {| calls := calls s ++ map CreateContext (seq (created s) (S k));
              created := created s + k |})).
Proof.
  split.
  - intros H. unfold createIncognitoContexts.
    now rewrite create_loop_ok.
  - intros k message Hk Hok Hfail. unfold createIncognitoContexts.
    now apply create_loop_fail.
Qed.

(** X23.  [closeContexts] never throws: it tries to close every
    context once, in the order of the array, whichever of the closings
    fail, and creates nothing. *)
Theorem X23_closeContexts_closes_all
        (fails : call -> option jsstring) (contexts : list nat)
        (s : session) :
  closeContexts fails contexts s
  = (Ret tt,
     {| calls := calls s ++ map CloseContext contexts;
        created := created s |}).
Proof.
  revert s. induction contexts as [|c contexts IH]; intros s.
  - cbn. rewrite app_nil_r. now destruct s.
  - cbn [closeContexts]. unfold bind, try_catch, attempt.
    destruct (fails (CloseContext c)); cbn [ret]; rewrite IH;
      cbn [calls created map]; now rewrite <- app_assoc.
Qed.

Ltac run_session fails :=
  repeat match goal with
  | |- context [match fails ?c with _ => _ end] =>
    let E := fresh "E" in destruct (fails c) eqn:E; cbn
  end.

(** X24.  [main] of [index.js], once the browser is launched: the
    errors of the initialisation and of the navigation are swallowed,
    so [main] fails only with the error of a closing call; the context
    is closed exactly when it was created; and the browser is closed,
    as the last call, exactly when the closing of the context did not
    fail.  When the launch fails nothing is closed and [main] returns. *)
Theorem X24_main_closes_the_session
        (fails : call -> option jsstring)
        (o : outcome unit) (sc : scraper) (s : session) :
  run_main fails = (o, (sc, s)) ->
  (fails Launch <> None -> o = Ret tt /\ calls s = [Launch])
  /\ (fails Launch = None ->
      (In (CloseContext 0) (calls s) <-> fails (CreateContext 0) = None)
      /\ (In CloseBrowser (calls s) <->
          (fails (CreateContext 0) = None -> fails (CloseContext 0) = None))
      /\ (In CloseBrowser (calls s) -> exists before,
             calls s = before ++ [CloseBrowser]
             /\ ~ In CloseBrowser before)
      /\ (forall message, o = Throw message ->
            (fails (CreateContext 0) = None
             /\ fails (CloseContext 0) = Some message)
            \/ (In CloseBrowser (calls s)
                /\ fails CloseBrowser = Some message))).
Proof.
  unfold run_main, main, init, navigateToGurufocus, scrapeData, close,
    createContext, new_scraper, fresh.
  cbv [bind try_catch lift assign gets modify ret throw attempt
       set_browser set_page set_context
       browser page context useIncognito calls created fst snd].
  cbn [app].
  run_session fails.
  all: intros H; injection H as <- <- <-; cbn [calls].
  all: split; intros L;
    [ try congruence; split; reflexivity | try discriminate L ].
  all: repeat match goal with |- _ /\ _ => split end.
  all: try match goal with
    | |- _ -> exists before, ?l = _ /\ _ =>
      first [ solve [intros I; exfalso; cbn [In] in I; intuition discriminate]
            | intros _; exists (removelast l); cbn [removelast app In];
              split; [reflexivity | intuition discriminate] ]
    end.
  all: try (split; cbn [In]; intuition (try discriminate; try congruence)).
  all: intros message M; try discriminate M; injection M as <-.
  all: first [ left; split; congruence
             | right; split; [cbn [In]; intuition | congruence] ].
Qed.

End SessionProperties.

(* ===================================================================== *)
(** * The properties on sample data *)
(* ===================================================================== *)

Section Instances.

Import Props Examples Samples.

(** The quoted name ["Acme, Inc"] is cut at its comma. *)
Lemma X1_witness :
  In cut_record (readCSV (Some comma_file))
  /\ clean_company cut_record = true.
Proof.
  assert (H : In cut_record (readCSV (Some comma_file)))
    by (vm_compute; left; reflexivity).
  split; [exact H|].
  exact (@X1_readCSV_fields_are_clean (Some comma_file) cut_record H).
Defined.

Lemma X2_witness :
  readCSV (Some (csv_text (js "Company Name,ISIN Code") [acme; beta]))
  = [acme; beta].
Proof.
  apply (@X2_readCSV_reads_back (js "Company Name,ISIN Code") [acme; beta]);
    vm_compute; reflexivity.
Defined.

(** A file of one data row and no header gives no record. *)
Lemma X3_witness :
  readCSV (Some (js "Acme Corp,US0000011111")) = [] /\ readCSV None = [].
Proof.
  apply (@X3_readCSV_drops_the_first_line (js "Acme Corp,US0000011111")).
  vm_compute; reflexivity.
Defined.

Lemma X4_witness :
  searchCompany site (Input.companyName broken) (initial [])
  = (Throw URIError_message, initial [])
  /\ exists query links,
      searchCompany site (js "Acme Corp") (initial [])
      = (Ret links, after (initial []) [GotoSearch (searchUrl_prefix ++ query)])
      /\ forallb url_safe query = true.
Proof.
  split.
  - apply (proj1 (@X4_searchCompany_outcomes site (Input.companyName broken)
                    (initial []) ltac:(repeat constructor))).
    reflexivity.
  - destruct (proj2 (@X4_searchCompany_outcomes site (js "Acme Corp")
                       (initial []) ltac:(repeat constructor)) eq_refl)
      as (query & links & H & S & _).
    exists query, links. split; [exact H | exact S].
Defined.

Lemma X6_witness :
  extractISINFromPage site (stock "D2") (initial [])
  = (Ret None, after (initial []) [GotoStock (stock "D2")])
  /\ extractISINFromPage frameset_site (stock "ACME") (initial [])
     = (Ret (tier3 (element_texts frameset)),
        after (initial [])
              [GotoStock (stock "ACME"); Evaluate Method1; Evaluate Method2;
               Evaluate Method3]).
Proof.
  split.
  - apply (proj1 (@X6_pages_that_fail site (stock "D2") (initial []))
                 (js "net::ERR_CONNECTION_RESET")).
    vm_compute; reflexivity.
  - apply (proj2 (@X6_pages_that_fail frameset_site (stock "ACME") (initial []))
                 frameset); reflexivity.
Defined.

(** The token is found inside a longer run of letters and digits. *)
Lemma X7_witness :
  tier2 (js "US0000011111" ++ js "XYZ") = Some (js "US0000011111").
Proof.
  apply (proj2 (proj2 (@X7_method2_finds_bare_tokens
                         [] (js "US0000011111") (js "XYZ")))).
  vm_compute; reflexivity.
Defined.

Lemma X8_witness :
  contains_labelled (js "Code isin : US0000033333") (js "US0000033333").
Proof.
  apply (proj1 (@X8_method1_finds_labelled_identifiers
                  (js "Code isin : US0000033333") (js "US0000033333"))).
  vm_compute; reflexivity.
Defined.

(** Delta: two candidates before the match, one after it. *)
Lemma X9_witness :
  exists r w',
    processCompany site delta (initial []) = (Ret r, w')
    /\ status r = matched
    /\ matchingURL r = Some (stock "D3")
    /\ stock_visits (trace w') = [stock "D1"; stock "D2"; stock "D3"].
Proof.
  destruct (@X9_first_match_wins site delta (js "Delta")
              [a_link "D1"; a_link "D2"] (a_link "D3") [a_link "D4"]
              (initial []))
    as (r & w' & H & S & U & _ & _ & V).
  - vm_compute; reflexivity.
  - vm_compute; reflexivity.
  - repeat constructor; vm_compute; discriminate.
  - vm_compute; reflexivity.
  - exists r, w'. repeat split; assumption.
Defined.

(** A browser that cannot create a context: the batch stops at the
    refresh before the second record. *)
Lemma X11_witness :
  exists segments rest w',
    V2.processCompanies no_context [acme; beta] None (initial [])
    = (Throw (js "Target closed"), w')
    /\ trace w' = concat segments ++ rest
    /\ length segments = 1%nat
    /\ length (results w') = 1%nat
    /\ failed_refresh rest.
Proof.
  destruct (proj1 (@X11_refreshes_and_writes_of_a_batch
                     no_context [acme; beta] None []))
    as (o & segments & rest & w' & H & _ & T & _ & L & _ & _ & P).
  assert (Ho : o = Throw (js "Target closed")).
  { vm_compute in H. injection H as <- _. reflexivity. }
  subst o. destruct P as [[A B] C]. cbn [companiesToProcess length] in B.
  exists segments, rest, w'. repeat split; auto; lia.
Defined.

(** A search page that times out: one navigation, no stock page. *)
Lemma X10_witness :
  exists r w',
    processCompany site gamma (initial []) = (Ret r, w')
    /\ status r = no_results
    /\ trace w' = [GotoSearch (search "Gamma")].
Proof.
  eexists _, _. split.
  - apply (@X10_no_candidates_no_extraction site gamma (js "Gamma") (initial [])).
    + vm_compute; reflexivity.
    + right. exists (js "Navigation timeout of 30000 ms exceeded").
      vm_compute; reflexivity.
  - split; reflexivity.
Defined.

(** With matches to save and a disk that takes nothing, nothing is
    written; with a disk that takes the dump only, the dump is. *)
Lemma X14_witness :
  V2.saveResults read_only quoted_world = (Ret tt, quoted_world)
  /\ V2.saveResults json_only quoted_world
     = (Ret tt, json_written json_only quoted_world).
Proof.
  split.
  - apply (proj1 (@X14_saveResults_failures read_only quoted_world)).
    reflexivity.
  - apply (proj2 (@X14_saveResults_failures json_only quoted_world));
      vm_compute; reflexivity.
Defined.

(** A browser that cannot be launched: nothing is processed.  The
    small site: both records of the file are processed. *)
Lemma X15_witness :
  V2_run no_browser None (initial scenario_disk)
  = (Ret tt, after (initial scenario_disk) [Session BrowserLaunch])
  /\ exists rs w',
      V2_run site None (initial scenario_disk) = (Ret tt, w')
      /\ results w' = rs
      /\ Forall2 (record_for site) [acme; beta] rs.
Proof.
  split.
  - apply (proj1 (proj2 (@X15_run_processes_the_requested_records
                           no_browser None (initial scenario_disk) eq_refl))
                 ltac:(vm_compute; discriminate)
                 (js "Failed to launch the browser process") eq_refl).
  - destruct (proj2 (proj2 (proj2 (@X15_run_processes_the_requested_records
                                     site None (initial scenario_disk) eq_refl))))
      as (o & rs & w' & H & R & _ & _ & S).
    destruct (S (fun _ _ => eq_refl)) as [-> Hall].
    exists rs, w'. split; [exact H|]. split; [exact R | exact Hall].
Defined.


(** The count [9007199254740993] is not a double: the run starts with
    [9007199254740992]. *)
Lemma X17_witness :
  cli (argv ["9007199254740993"%string])
  = Run true (Some (Num 9007199254740992)).
Proof.
  exact (@X17_command_line_outcomes (argv ["9007199254740993"%string])
           (js "/repo/gurufocus_isin_matcher.js") eq_refl eq_refl).
Defined.

(** [node gurufocus_isin_matcher.js 5 --visible] launches the browser
    of [src/gurufocus_isin_matcher.js] headless. *)
Lemma X18_witness :
  Sessions.V1_constructor_headless (Some false) = true
  /\ Sessions.V2_constructor_headless (Some false) = false.
Proof.
  destruct (@X18_headless_option (argv ["5"%string; "--visible"%string]) false
              (Some (Num 5)) ltac:(vm_compute; reflexivity))
    as (A & B & _).
  split; [exact A | exact B].
Defined.


Lemma X21_witness :
  Text.getTimestamp (js "2024-01-15T10:30:45.123Z")
  = Some (js "2024-01-15_10-30-45").
Proof.
  exact (@X21_getTimestamp_format (js "2024-01-15") (js "10") (js "30")
           (js "45") (js "123Z") eq_refl eq_refl).
Defined.

Lemma X22_witness :
  Sessions.createIncognitoContexts sound 3 Sessions.fresh
  = (Ret [0; 1; 2]%nat,
     {| Sessions.calls := map Sessions.CreateContext [0; 1; 2]%nat;
        Sessions.created := 3 |})
  /\ Sessions.createIncognitoContexts two_contexts 3 Sessions.fresh
     = (Throw (js "Target closed"),
        {| Sessions.calls := map Sessions.CreateContext [0; 1; 2]%nat;
           Sessions.created := 2 |}).
Proof.
  split.
  - apply (proj1 (@X22_createIncognitoContexts_outcomes sound 3 Sessions.fresh)).
    reflexivity.
  - apply (proj2 (@X22_createIncognitoContexts_outcomes
                    two_contexts 3 Sessions.fresh) 2%nat (js "Target closed")).
    + lia.
    + intros [|[|i]] Hi; [reflexivity | reflexivity | lia].
    + reflexivity.
Defined.

(** The home page times out: [main] returns, having closed the
    context and then the browser. *)
Lemma X24_witness :
  fst (Sessions.run_main home_times_out) = Ret tt
  /\ In Sessions.CloseBrowser
        (Sessions.calls (snd (snd (Sessions.run_main home_times_out))))
  /\ In (Sessions.CloseContext 0)
        (Sessions.calls (snd (snd (Sessions.run_main home_times_out)))).
Proof.
  destruct (proj2 (@X24_main_closes_the_session home_times_out
                     (fst (Sessions.run_main home_times_out))
                     (fst (snd (Sessions.run_main home_times_out)))
                     (snd (snd (Sessions.run_main home_times_out)))
                     eq_refl) eq_refl)
    as (A & B & _ & _).
  split; [reflexivity|]. split.
  - apply B. reflexivity.
  - apply A. reflexivity.
Defined.

End Instances.
